(** * Boomerang beacon coordinator: a shallow embedding of [boomerang.js]

    The development follows the beacon life cycle of [src/boomerang.js]:
    the variable store ([addVar], [removeVar], [setVarPriority]), the event
    bus ([subscribe], [fireEvent]), the coordinator ([sendBeacon],
    [real_sendBeacon]) and the transport ([sendBeaconData],
    [sendXhrPostBeacon], [getVarsOfPriority], [getUriEncodedVar]).

    Conventions of the embedding.
    - A JavaScript object used as a map is an association list of its own
      properties, in creation order and with unique keys.  The loops
      [for .. in] of the serialisation enumerate it through [for_in]: the
      names that are array indices first, in ascending numeric order, then
      the others in creation order.
    - Properties inherited from [Object.prototype] are not modelled.  The
      code reads [impl.vars[name]] and calls [impl.vars.hasOwnProperty]
      on the object itself, so a name such as [constructor] or
      [__proto__], and a variable named [hasOwnProperty], behave
      differently from what [read] and [has] say; the statements that
      depend on it exclude them ([inherited], [shadowed]).
    - Numbers are integers ([Z]), printed in decimal; this is what the
      code prints for the integers JavaScript represents exactly
      ([safe_integer]).  Strings are byte strings, a non-ASCII character
      being its UTF-8 bytes; the lengths the code measures are counted in
      UTF-16 units, which are the bytes of a text that is ASCII.
    - Code that runs later ([BOOMR.setImmediate]) is a task appended to a
      queue held in the state.
    - Subscribers and plugins are foreign code.  A subscriber is known by
      the identity of its function; what it does to the object it receives
      and whether it throws is given by a parameter of the model.  What it
      throws is taken to be a string, which [addError] records as it is;
      an object without message makes [addError] itself throw, and the
      statements about events are made for subscribers that return.  A
      subscriber that re-enters the coordinator is outside the model. *)

From Stdlib Require Import String Ascii List ZArith Bool Arith Lia DecimalString.
From Stdlib Require Import Permutation Sorted.
Import ListNotations.
Local Open Scope string_scope.
Local Open Scope list_scope.

(** ** JavaScript values *)

Module JS.

(** Objects are known by reference; the reference is the identity that
    [===] compares. *)
Inductive value : Type :=
| VUndefined
| VNull
| VBool (b : bool)
| VNum (n : Z)
| VStr (s : string)
| VObj (ref : nat).

(** ToBoolean. *)
Definition truthy (v : value) : bool :=
  match v with
  | VUndefined | VNull => false
  | VBool b => b
  | VNum n => negb (n =? 0)%Z
  | VStr s => negb (s =? EmptyString)
  | VObj _ => true
  end.

(** [a === b]. *)
Definition strict_eq (a b : value) : bool :=
  match a, b with
  | VUndefined, VUndefined => true
  | VNull, VNull => true
  | VBool x, VBool y => Bool.eqb x y
  | VNum x, VNum y => (x =? y)%Z
  | VStr x, VStr y => (x =? y)
  | VObj x, VObj y => (x =? y)%nat
  | _, _ => false
  end.

(** [a || b]. *)
Definition or_else (a b : value) : value := if truthy a then a else b.

(** [typeof v === "undefined"]. *)
Definition is_undefined (v : value) : bool :=
  match v with VUndefined => true | _ => false end.

(** [typeof v === "object"]; [typeof null] is ["object"] too. *)
Definition is_object (v : value) : bool :=
  match v with VNull | VObj _ => true | _ => false end.

Definition string_of_Z (n : Z) : string := NilZero.string_of_int (Z.to_int n).

(** ** Objects as ordered maps *)

Definition obj (A : Type) : Type := list (string * A).

Section Obj.
Context {A : Type}.

(** [o[k]] for the object's own properties, [None] standing for an
    absent one; what [Object.prototype] adds to it is told by
    [inherited] below. *)
Fixpoint get (k : string) (o : obj A) : option A :=
  match o with
  | [] => None
  | (k', v) :: o' => if k' =? k then Some v else get k o'
  end.

(** [o.hasOwnProperty(k)], as long as [o] has no property of its own
    under that name ([shadowed] below). *)
Definition has (k : string) (o : obj A) : bool :=
  match get k o with Some _ => true | None => false end.

(** [o[k] = v]: an existing property keeps its place in the creation
    order, a new one goes last.  The order in which [for .. in] visits
    the properties is [for_in] below; for [k] = [__proto__] the
    assignment creates no property. *)
Fixpoint set (k : string) (v : A) (o : obj A) : obj A :=
  match o with
  | [] => [(k, v)]
  | (k', v') :: o' =>
      if k' =? k then (k', v) :: o' else (k', v') :: set k v o'
  end.

(** [delete o[k]]. *)
Fixpoint delete (k : string) (o : obj A) : obj A :=
  match o with
  | [] => []
  | (k', v') :: o' =>
      if k' =? k then delete k o' else (k', v') :: delete k o'
  end.

Definition keys (o : obj A) : list string := map fst o.

End Obj.

(** A property name that is an array index: the decimal form, without
    leading zeros, of a number below 2^32 - 1. *)
Definition array_index (k : string) : option N :=
  match NilZero.uint_of_string k with
  | Some u =>
      let n := N.of_uint u in
      if (NilZero.string_of_uint (N.to_uint n) =? k) && (n <? 4294967295)%N
      then Some n else None
  | None => None
  end.

Section Enumeration.
Context {A : Type}.

Definition indexed (kv : string * A) : bool :=
  match array_index (fst kv) with Some _ => true | None => false end.

Definition index_of (kv : string * A) : N :=
  match array_index (fst kv) with Some n => n | None => 0%N end.

(** The place of an indexed property among those already in
    ascending order. *)
Fixpoint insert_indexed (kv : string * A) (l : obj A) : obj A :=
  match l with
  | [] => [kv]
  | kv' :: l' =>
      if (index_of kv <=? index_of kv')%N then kv :: l
      else kv' :: insert_indexed kv l'
  end.

(** The order in which [for (k in o)] visits the own properties of
    [o]: array indices in ascending order, then the other names in
    creation order. *)
Definition for_in (o : obj A) : obj A :=
  fold_right insert_indexed [] (filter indexed o)
    ++ filter (fun kv => negb (indexed kv)) o.

End Enumeration.

(** [o[k]] read as a value: an absent property reads [undefined]. *)
Definition read (k : string) (o : obj value) : value :=
  match get k o with Some v => v | None => VUndefined end.

End JS.

Import JS.

(** ** Strings: [toLowerCase], [encodeURIComponent], [indexOf] *)

Module Str.

Definition lower_ascii (c : ascii) : ascii :=
  let n := nat_of_ascii c in
  if (65 <=? n)%nat && (n <=? 90)%nat then ascii_of_nat (n + 32) else c.

Fixpoint toLowerCase (s : string) : string :=
  match s with
  | EmptyString => EmptyString
  | String c r => String (lower_ascii c) (toLowerCase r)
  end.

(** The characters [encodeURIComponent] leaves alone:
    [A-Z a-z 0-9 - _ . ! ~ * ' ( )]. *)
Definition unreserved (c : ascii) : bool :=
  let n := nat_of_ascii c in
  ((65 <=? n) && (n <=? 90) || (97 <=? n) && (n <=? 122)
   || (48 <=? n) && (n <=? 57)
   || (n =? 45) || (n =? 95) || (n =? 46) || (n =? 33) || (n =? 126)
   || (n =? 42) || (n =? 39) || (n =? 40) || (n =? 41))%nat.

Definition hex_digit (d : nat) : ascii :=
  if (d <? 10)%nat then ascii_of_nat (48 + d) else ascii_of_nat (55 + d).

Fixpoint encodeURIComponent (s : string) : string :=
  match s with
  | EmptyString => EmptyString
  | String c r =>
      if unreserved c then String c (encodeURIComponent r)
      else
        let n := nat_of_ascii c in
        String "%" (String (hex_digit (n / 16))
                      (String (hex_digit (n mod 16)) (encodeURIComponent r)))
  end.

(** [hay.indexOf(needle) > -1]. *)
Definition contains (needle hay : string) : bool :=
  match String.index 0 needle hay with Some _ => true | None => false end.

(** [parts.join(sep)]. *)
Definition join (sep : string) (parts : list string) : string :=
  String.concat sep parts.

(** [s.replace(/c.*/, empty)] for a single character [c]: cut at its
    first occurrence (the strings at hand hold no line terminator). *)
Fixpoint cut_at (c : ascii) (s : string) : string :=
  match s with
  | EmptyString => EmptyString
  | String a r => if Ascii.eqb a c then EmptyString else String a (cut_at c r)
  end.

Fixpoint has_char (c : ascii) (s : string) : bool :=
  match s with
  | EmptyString => false
  | String a r => Ascii.eqb a c || has_char c r
  end.

End Str.

(** ** State of the page-wide coordinator *)

(** A subscriber record of [impl.events[e_name]]. *)
Record handler : Type := {
  fn : nat;
  cb_data : value;
  scope : value;
  once : bool
}.

(** Work handed to [BOOMR.setImmediate]. *)
Inductive task : Type :=
| TaskRealSendBeacon
| TaskFirePageLoadBeacon (varsSent : nat)
| TaskCallback (f : nat) (data_arg cb_data_arg scope_arg : value).

Inductive xhr_context : Type := PrimaryWindow | BoomerangFrame.

Inductive xhr_fault : Type := NoFault | ThrowsOnOpen | ThrowsOnSend.

(** One use of a transport mechanism, as seen by the browser. *)
Inductive transmission : Type :=
| ViaSendBeacon (url body : string) (accepted : bool)
| ViaImage (url : string)
| ViaXhr (ctx : xhr_context) (url : string) (auth : option (string * string))
         (withCredentials : bool) (body : string) (fault : xhr_fault).

(** A native listener installed by [subscribe] for the unload events. *)
Record listener : Type := {
  l_type : string;
  l_event : string;
  l_fn : nat;
  l_scope : value;
  l_cb_data : value;
  l_evt_idx : nat
}.

(** One invocation of a subscriber by [fireEvent]. *)
Record call : Type := {
  c_event : string;
  c_index : nat;
  c_fn : nat;
  c_scope : value;
  c_cb_data : value
}.

Record State : Type := {
  (* the private [impl] object *)
  beacon_url : string;
  beacon_url_override : option string;
  beacon_auth_key : option string;
  hasSentPageLoadBeacon : bool;
  events : obj (list handler);
  vars : obj value;
  singleBeaconVars : obj unit;
  varPriority_first : obj unit;   (* impl.varPriority["-1"] *)
  varPriority_last : obj unit;    (* impl.varPriority["1"] *)
  errors : obj nat;
  beaconQueued : bool;
  (* BOOMR.beaconsSent *)
  beaconsSent : Z;
  (* plain objects created by the code: [{}] and the snapshots [varsSent] *)
  heap : list (obj value);
  (* the browser: pending callbacks, native listeners, DOM events, network *)
  tasks : list task;
  listeners : list listener;
  dom_events : list string;
  wire : list transmission;
  (* observation: runs of real_sendBeacon past its guard, subscriber calls *)
  flushes : nat;
  calls : list call
}.

(** What the code reads but does not write while it flushes: configuration,
    the browser, the plugins and the subscribers' code. *)
Record Env : Type := {
  (* configuration held in [impl] *)
  beacon_type : string;
  beacon_url_force_https : bool;
  beacon_urls_allowed : list string;
  beacon_auth_token : option string;
  beacon_with_credentials : bool;
  beacon_disable_sendbeacon : bool;
  strip_query_string : bool;
  autorun : bool;
  onloadfired : bool;
  referrer : value;                       (* impl.r *)
  disabled_plugins : list string;
  (* BOOMR *)
  plugins : list (string * (obj value -> bool));   (* name, is_complete *)
  version : string;
  pageId : value;
  session_enabled : bool;
  session_si : string;    (* session.ID + "-" + round(start / 1000) in base 36 *)
  session_start : value;
  session_length : value;
  rate_limited : bool;
  errors_plugin : bool;                   (* plugins.Errors present and supported *)
  (* the browser *)
  dom_available : bool;   (* window, window.Image, window.navigator, BOOMR.window *)
  doc_URL : string;
  now : Z;
  visibilityState : value;
  last_visible : option Z;                (* lastVisibilityEvent.visible *)
  last_hidden : option Z;                 (* lastVisibilityEvent.hidden *)
  navigator_platform : value;
  navigator_vendor : value;
  in_loader_frame : bool;                 (* w !== window *)
  has_onpagehide : bool;
  native_sendBeacon : option (string -> string -> bool);
  xhr_available : bool;
  image_throws : bool;
  xhr_faults : xhr_context -> xhr_fault;
  regex_matches : string -> string -> bool;   (* new RegExp(re).exec(url) *)
  is_array : nat -> bool;
  serializeForUrl : nat -> string;
  (* a subscriber's code: what it leaves in the object it is handed, and
     the string it throws, if it throws *)
  callback : nat -> value -> value -> obj value -> obj value * option string
}.

(** Field updates. *)
Definition map_impl
    (fu : string -> string) (fk : option string -> option string)
    (fl : bool -> bool) (fe : obj (list handler) -> obj (list handler))
    (fv : obj value -> obj value) (fs : obj unit -> obj unit)
    (fx : obj nat -> obj nat) (fq : bool -> bool) (fn' : Z -> Z)
    (st : State) : State :=
  {| beacon_url := fu (beacon_url st);
     beacon_url_override := beacon_url_override st;
     beacon_auth_key := fk (beacon_auth_key st);
     hasSentPageLoadBeacon := fl (hasSentPageLoadBeacon st);
     events := fe (events st);
     vars := fv (vars st);
     singleBeaconVars := fs (singleBeaconVars st);
     varPriority_first := varPriority_first st;
     varPriority_last := varPriority_last st;
     errors := fx (errors st);
     beaconQueued := fq (beaconQueued st);
     beaconsSent := fn' (beaconsSent st);
     heap := heap st; tasks := tasks st; listeners := listeners st;
     dom_events := dom_events st; wire := wire st;
     flushes := flushes st; calls := calls st |}.

Definition keep {A : Type} (x : A) : A := x.

Definition with_beacon_url (u : string) : State -> State :=
  map_impl (fun _ => u) keep keep keep keep keep keep keep keep.
Definition with_beacon_auth_key (k : option string) : State -> State :=
  map_impl keep (fun _ => k) keep keep keep keep keep keep keep.
Definition with_hasSentPageLoadBeacon (b : bool) : State -> State :=
  map_impl keep keep (fun _ => b) keep keep keep keep keep keep.
Definition with_events (e : obj (list handler)) : State -> State :=
  map_impl keep keep keep (fun _ => e) keep keep keep keep keep.
Definition with_vars (v : obj value) : State -> State :=
  map_impl keep keep keep keep (fun _ => v) keep keep keep keep.
Definition with_singleBeaconVars (s : obj unit) : State -> State :=
  map_impl keep keep keep keep keep (fun _ => s) keep keep keep.
Definition with_errors (x : obj nat) : State -> State :=
  map_impl keep keep keep keep keep keep (fun _ => x) keep keep.
Definition with_beaconQueued (q : bool) : State -> State :=
  map_impl keep keep keep keep keep keep keep (fun _ => q) keep.
Definition with_beaconsSent (n : Z) : State -> State :=
  map_impl keep keep keep keep keep keep keep keep (fun _ => n).

Definition with_beacon_url_override (o : option string) (st : State) : State :=
  {| beacon_url := beacon_url st;
     beacon_url_override := o;
     beacon_auth_key := beacon_auth_key st;
     hasSentPageLoadBeacon := hasSentPageLoadBeacon st;
     events := events st; vars := vars st;
     singleBeaconVars := singleBeaconVars st;
     varPriority_first := varPriority_first st;
     varPriority_last := varPriority_last st;
     errors := errors st; beaconQueued := beaconQueued st;
     beaconsSent := beaconsSent st;
     heap := heap st; tasks := tasks st; listeners := listeners st;
     dom_events := dom_events st; wire := wire st;
     flushes := flushes st; calls := calls st |}.

Definition with_varPriority (first last : obj unit) (st : State) : State :=
  {| beacon_url := beacon_url st;
     beacon_url_override := beacon_url_override st;
     beacon_auth_key := beacon_auth_key st;
     hasSentPageLoadBeacon := hasSentPageLoadBeacon st;
     events := events st; vars := vars st;
     singleBeaconVars := singleBeaconVars st;
     varPriority_first := first;
     varPriority_last := last;
     errors := errors st; beaconQueued := beaconQueued st;
     beaconsSent := beaconsSent st;
     heap := heap st; tasks := tasks st; listeners := listeners st;
     dom_events := dom_events st; wire := wire st;
     flushes := flushes st; calls := calls st |}.

Definition map_world
    (fh : list (obj value) -> list (obj value)) (ft : list task -> list task)
    (fl : list listener -> list listener) (fd : list string -> list string)
    (fw : list transmission -> list transmission) (ff : nat -> nat)
    (fc : list call -> list call) (st : State) : State :=
  {| beacon_url := beacon_url st;
     beacon_url_override := beacon_url_override st;
     beacon_auth_key := beacon_auth_key st;
     hasSentPageLoadBeacon := hasSentPageLoadBeacon st;
     events := events st; vars := vars st;
     singleBeaconVars := singleBeaconVars st;
     varPriority_first := varPriority_first st;
     varPriority_last := varPriority_last st;
     errors := errors st; beaconQueued := beaconQueued st;
     beaconsSent := beaconsSent st;
     heap := fh (heap st); tasks := ft (tasks st);
     listeners := fl (listeners st);
     dom_events := fd (dom_events st); wire := fw (wire st);
     flushes := ff (flushes st); calls := fc (calls st) |}.

Definition with_heap (h : list (obj value)) : State -> State :=
  map_world (fun _ => h) keep keep keep keep keep keep.
Definition with_tasks (t : list task) : State -> State :=
  map_world keep (fun _ => t) keep keep keep keep keep.
Definition push_task (t : task) : State -> State :=
  map_world keep (fun q => q ++ [t]) keep keep keep keep keep.
Definition push_listener (l : listener) : State -> State :=
  map_world keep keep (fun q => q ++ [l]) keep keep keep keep.
Definition push_dom_event (e : string) : State -> State :=
  map_world keep keep keep (fun q => q ++ [e]) keep keep keep.
Definition push_wire (t : transmission) : State -> State :=
  map_world keep keep keep keep (fun q => q ++ [t]) keep keep.
Definition count_flush : State -> State :=
  map_world keep keep keep keep keep S keep.
Definition push_call (c : call) : State -> State :=
  map_world keep keep keep keep keep keep (fun q => q ++ [c]).

(** ** Outcomes: a call returns or raises, and leaves a state either way *)

Inductive result (A : Type) : Type :=
| Normal (a : A) (st : State)
| Thrown (st : State).
Arguments Normal {A} a st.
Arguments Thrown {A} st.

Definition M (A : Type) : Type := State -> result A.

Definition ret {A : Type} (a : A) : M A := fun st => Normal a st.
Definition throw {A : Type} : M A := fun st => Thrown st.
Definition bind {A B : Type} (m : M A) (k : A -> M B) : M B :=
  fun st => match m st with
            | Normal a st' => k a st'
            | Thrown st' => Thrown st'
            end.
Definition modify (f : State -> State) : M unit := fun st => Normal tt (f st).
Definition gets {A : Type} (f : State -> A) : M A := fun st => Normal (f st) st.

(** [try { m } catch (e) { h }]. *)
Definition try_catch {A : Type} (m : M A) (h : M A) : M A :=
  fun st => match m st with
            | Normal a st' => Normal a st'
            | Thrown st' => h st'
            end.

Declare Scope js_scope.
Delimit Scope js_scope with js.
Notation "x <- m ;; k" := (bind m (fun x => k))
  (at level 61, m at next level, right associativity) : js_scope.
Notation "m ;;; k" := (bind m (fun _ => k))
  (at level 61, right associativity) : js_scope.
Local Open Scope js_scope.

Definition final {A : Type} (r : result A) : State :=
  match r with Normal _ st => st | Thrown st => st end.

Definition returned {A : Type} (r : result A) : option A :=
  match r with Normal a _ => Some a | Thrown _ => None end.

Definition raised {A : Type} (r : result A) : bool :=
  match r with Normal _ _ => false | Thrown _ => true end.

(** ** The program *)

Definition newline : string := String (ascii_of_nat 10) EmptyString.

Definition MAX_GET_LENGTH : nat := 2000.

Definition BEACON_TYPE_SPAS : list string := ["spa"; "spa_hard"].

Definition translate_events : obj string :=
  [("onbeacon", "beacon"); ("onconfig", "config"); ("onerror", "error");
   ("onxhrerror", "xhr_error")].

Definition public_events : obj string :=
  [("before_beacon", "onBeforeBoomerangBeacon"); ("beacon", "onBoomerangBeacon");
   ("onboomerangloaded", "onBoomerangLoaded")].

(** The object an event carries: the live [impl.vars], an object of the
    heap, or something the coordinator never looks into. *)
Inductive event_data : Type :=
| DLive
| DRef (r : nat)
| DOpaque.

(** The first argument of [addVar]: a name, or an object of name/value
    pairs. *)
Inductive var_name : Type :=
| Name (s : string)
| Bulk (o : obj value).

(** The property key a [var_name] turns into in [o[name]]: a plain object
    stringifies to [[object Object]]. *)
Definition property_key (name : var_name) : string :=
  match name with
  | Name s => s
  | Bulk _ => "[object Object]"
  end.

(** [BOOMR.utils.inArray]. *)
Definition inArray (val : value) (ary : list string) : bool :=
  if is_undefined val then false
  else existsb (fun a => strict_eq (VStr a) val) ary.

(** [String(v)]; for a number the decimal form, which is what the code
    prints for a [safe_integer]. *)
Definition to_string (v : value) : string :=
  match v with
  | VUndefined => "undefined"
  | VNull => "null"
  | VBool true => "true"
  | VBool false => "false"
  | VNum n => string_of_Z n
  | VStr s => s
  | VObj _ => "[object Object]"
  end.

(** ** Where the embedding is exact *)

(** The properties every object inherits from [Object.prototype]. *)
Definition Object_prototype : list string :=
  ["constructor"; "hasOwnProperty"; "isPrototypeOf"; "propertyIsEnumerable";
   "toLocaleString"; "toString"; "valueOf"; "__proto__";
   "__defineGetter__"; "__defineSetter__"; "__lookupGetter__";
   "__lookupSetter__"].

(** [name] is found on every object, set or not: [o[name]] does not read
    [undefined] when the property is absent, and [o.__proto__ = v] stores
    no property. *)
Definition inherited (name : string) : bool :=
  existsb (String.eqb name) Object_prototype.

(** The object has a property of its own named [hasOwnProperty], which
    hides the method the code calls on it. *)
Definition shadowed {A : Type} (o : obj A) : bool := has "hasOwnProperty" o.

(** An integer JavaScript represents exactly, and prints in decimal. *)
Definition safe_integer (n : Z) : bool := (Z.abs n <=? 9007199254740991)%Z.

(** [String(v)] is what [to_string] says. *)
Definition printable (v : value) : bool :=
  match v with
  | VNum n => safe_integer n
  | _ => true
  end.

(** A text whose length in UTF-16 units is its length in bytes. *)
Fixpoint ascii_only (s : string) : bool :=
  match s with
  | EmptyString => true
  | String c r => (nat_of_ascii c <? 128)%nat && ascii_only r
  end.

Definition handlers_of (e_name : string) (st : State) : list handler :=
  match get e_name (events st) with Some l => l | None => [] end.

Definition read_heap (r : nat) (st : State) : obj value := nth r (heap st) [].

Fixpoint replace_nth {A : Type} (n : nat) (x : A) (l : list A) : list A :=
  match l, n with
  | [], _ => []
  | _ :: l', O => x :: l'
  | y :: l', S n' => y :: replace_nth n' x l'
  end.

Definition write_heap (r : nat) (o : obj value) (st : State) : State :=
  with_heap (replace_nth r o (heap st)) st.

(** [{}], or a copy: a new object of the heap. *)
Definition alloc (o : obj value) : M nat :=
  fun st => Normal (length (heap st)) (with_heap (heap st ++ [o]) st).

Definition read_data (d : event_data) (st : State) : obj value :=
  match d with
  | DLive => vars st
  | DRef r => read_heap r st
  | DOpaque => []
  end.

Definition write_data (d : event_data) (o : obj value) (st : State) : State :=
  match d with
  | DLive => with_vars o st
  | DRef r => write_heap r o st
  | DOpaque => st
  end.

(** [e_name.toLowerCase()] followed by the translation of old names. *)
Definition canonical (e_name : string) : string :=
  let e := Str.toLowerCase e_name in
  match get e translate_events with
  | Some e' => e'
  | None => e
  end.

(** [/\?.*/ -> "?qs-redacted"]. *)
Definition redact_query (url : string) : string :=
  if Str.has_char "?" url then (Str.cut_at "?" url ++ "?qs-redacted")%string
  else url.

Section Program.

Variable env : Env.

(** *** Variable store *)

Definition addVar (name : var_name) (val singleBeacon : value) : M unit :=
  modify (fun st =>
    match name with
    | Name s => with_vars (set s val (vars st)) st
    | Bulk o =>
        with_vars
          (fold_left (fun acc kv => set (fst kv) (snd kv) acc) (for_in o) (vars st))
          st
    end) ;;;
  if truthy singleBeacon
  then modify (fun st =>
         with_singleBeaconVars (set (property_key name) tt (singleBeaconVars st)) st)
  else ret tt.

(** [BOOMR.removeVar(params)]: [hasOwnProperty] is called on the
    variables themselves, and is theirs as long as none is named so. *)
Definition removeVar (params : list string) : M unit :=
  modify (fun st =>
    with_vars
      (fold_left (fun acc k => if has k acc then delete k acc else acc)
                 params (vars st)) st).

Definition hasVar (name : string) (st : State) : bool := has name (vars st).

Definition getVar (name : string) (st : State) : value := read name (vars st).

Definition setVarPriority (name : string) (pri : value) : M unit :=
  match pri with
  | VNum n =>
      if (Z.abs n =? 1)%Z
      then modify (fun st =>
             if (n =? -1)%Z
             then with_varPriority (set name tt (varPriority_first st))
                                   (varPriority_last st) st
             else with_varPriority (varPriority_first st)
                                   (set name tt (varPriority_last st)) st)
      else ret tt
  | _ => ret tt
  end.

(** *** Serialisation of the payload *)

Definition getUriEncodedVar (name : string) (val : value) : string :=
  let val := match val with
             | VUndefined | VNull => VStr EmptyString
             | v => v
             end in
  let val := match val with
             | VObj r => VStr (serializeForUrl env r)
             | v => v
             end in
  (Str.encodeURIComponent name ++ "=" ++
   Str.encodeURIComponent (to_string val))%string.

(** The loop of [getVarsOfPriority] for [pri] -1 or 1, over the names of
    the priority list as [for .. in] gives them. *)
Fixpoint take_priority (names : list string) (data : obj value)
  : list string * obj value :=
  match names with
  | [] => ([], data)
  | name :: rest =>
      match get name data with
      | Some v =>
          let (url, data') := take_priority rest (delete name data) in
          (getUriEncodedVar name (if is_undefined v then VStr EmptyString else v)
             :: url,
           data')
      | None => take_priority rest data
      end
  end.

(** The same loop for [pri] 0, over the variables themselves. *)
Definition take_all (data : obj value) : list string :=
  map (fun kv =>
         getUriEncodedVar (fst kv)
           (if is_undefined (snd kv) then VStr EmptyString else snd kv))
      (for_in data).

Definition getVarsOfPriority (data : nat) (pri : Z) : M (list string) :=
  fun st =>
    let d := read_heap data st in
    if (pri =? 0)%Z then Normal (take_all d) st
    else if (pri =? -1)%Z then
      let (url, d') := take_priority (keys (for_in (varPriority_first st))) d in
      Normal url (write_heap data d' st)
    else if (pri =? 1)%Z then
      let (url, d') := take_priority (keys (for_in (varPriority_last st))) d in
      Normal url (write_heap data d' st)
    else Normal [] st.

(** *** Errors *)

(** [BOOMR.addError(err, src)] for an error that is a string; an object
    thrown by a subscriber goes through [String(err)], [err.name] and
    [err.message] first, and the call throws when it has no message. *)
Definition addError (err src : string) : M unit :=
  if errors_plugin env then ret tt
  else modify (fun st =>
    let key := ("[" ++ src ++ ":" ++ string_of_Z (now env) ++ "] " ++ err)%string in
    with_errors
      (match get key (errors st) with
       | Some n => if (n =? 0)%nat then set key 1%nat (errors st)
                   else set key (S n) (errors st)
       | None => set key 1%nat (errors st)
       end) st).

(** *** Event bus *)

(** One turn of the loop of [fireEvent]: the subscriber is called on the
    event's object, and what it raises goes to [addError]. *)
Definition call_handler (e_name : string) (data : event_data) (i : nat)
    (h : handler) : M unit :=
  modify (push_call {| c_event := e_name; c_index := i; c_fn := fn h;
                       c_scope := scope h; c_cb_data := cb_data h |}) ;;;
  o <- gets (read_data data) ;;
  let (o', err) := callback env (fn h) (scope h) (cb_data h) o in
  modify (write_data data o') ;;;
  match err with
  | Some msg =>
      addError msg
        ("fireEvent." ++ e_name ++ "<" ++ string_of_Z (Z.of_nat i) ++ ">")%string
  | None => ret tt
  end.

Fixpoint call_handlers (e_name : string) (data : event_data) (i : nat)
    (hs : list handler) : M unit :=
  match hs with
  | [] => ret tt
  | h :: hs' =>
      call_handler e_name data i h ;;; call_handlers e_name data (S i) hs'
  end.

(** [impl.fireEvent], with the flush it forces taken as an argument. *)
Definition fireEvent_with (flush : M bool) (e_name : string)
    (data : event_data) : M unit :=
  let e := canonical e_name in
  registered <- gets (fun st => has e (events st)) ;;
  if negb registered then ret tt
  else
    match get e public_events with
    | Some p => modify (push_dom_event p)
    | None => ret tt
    end ;;;
    (if negb (e =? "before_beacon") && negb (e =? "beacon")
     then flush ;;; ret tt
     else ret tt) ;;;
    handlers <- gets (handlers_of e) ;;
    call_handlers e data 0 handlers ;;;
    modify (fun st =>
      with_events
        (set e (filter (fun h => negb (once h)) (handlers_of e st)) (events st))
        st).

Definition setImmediate (t : task) : M unit := modify (push_task t).

Definition subscribe (e_name : string) (f : nat)
    (cb_data_arg cb_scope once_arg : value) : M unit :=
  let e := canonical e_name in
  modify (fun st =>
    if has e (events st) then st else with_events (set e [] (events st)) st) ;;;
  ev <- gets (handlers_of e) ;;
  if existsb (fun h => (fn h =? f)%nat && strict_eq (cb_data h) cb_data_arg
                       && strict_eq (scope h) cb_scope) ev
  then ret tt
  else
    stored <- (if truthy cb_data_arg then ret cb_data_arg
               else r <- alloc [] ;; ret (VObj r)) ;;
    modify (fun st =>
      with_events
        (set e (handlers_of e st ++
                [{| fn := f; cb_data := stored; scope := or_else cb_scope VNull;
                    once := truthy once_arg |}])
             (events st)) st) ;;;
    (if (e =? "page_ready") && onloadfired env && autorun env
     then setImmediate (TaskCallback f VNull cb_data_arg cb_scope)
     else ret tt) ;;;
    (if (e =? "page_unload") || (e =? "before_unload")
     then
       let unload_handler type :=
         {| l_type := type; l_event := e; l_fn := f; l_scope := cb_scope;
            l_cb_data := cb_data_arg; l_evt_idx := S (length ev) |} in
       (if e =? "page_unload"
        then modify (push_listener
               (unload_handler (if has_onpagehide env then "pagehide" else "unload")))
        else ret tt) ;;;
       modify (push_listener (unload_handler "beforeunload"))
     else ret tt).

(** *** Coordinator *)

Definition sendBeacon (beacon_url_override_arg : option string) : M bool :=
  match beacon_url_override_arg with
  | Some u =>
      if negb (u =? EmptyString) then modify (with_beacon_url_override (Some u))
      else ret tt
  | None => ret tt
  end ;;;
  queued <- gets beaconQueued ;;
  (if negb queued
   then modify (with_beaconQueued true) ;;; setImmediate TaskRealSendBeacon
   else ret tt) ;;;
  ret true.

(** [impl.beaconUrlAllowed(url)].  Each pattern of the list is compiled
    with [new RegExp], which throws on a malformed one; [regex_matches]
    is the test of a pattern that compiles. *)
Definition beaconUrlAllowed (url : string) : bool :=
  match beacon_urls_allowed env with
  | [] => true
  | allowed => existsb (fun re => regex_matches env re url) allowed
  end.

(** [BOOMR.utils.cleanupURL(url)] with no length limit; a number or a
    plain object has no [replace] method. *)
Definition cleanupURL (url : value) : M value :=
  if negb (truthy url) then ret (VStr EmptyString)
  else
    match url with
    | VStr s => ret (VStr (if strip_query_string env then redact_query s else s))
    | VObj r =>
        if is_array env r then ret (VStr EmptyString)
        else if strip_query_string env then throw else ret url
    | _ => if strip_query_string env then throw else ret url
    end.

Definition set_var (k : string) (v : value) : M unit :=
  modify (fun st => with_vars (set k v (vars st)) st).

Definition delete_var (k : string) : M unit :=
  modify (fun st => with_vars (delete k (vars st)) st).

Definition when (b : bool) (m : M unit) : M unit := if b then m else ret tt.

(** *** Transport *)

Definition sendXhrPostBeacon (ctx : xhr_context) (paramsJoined : string)
  : M unit :=
  url <- gets beacon_url ;;
  match xhr_faults env ctx with
  | ThrowsOnOpen =>
      modify (push_wire (ViaXhr ctx url None false paramsJoined ThrowsOnOpen)) ;;;
      throw
  | fault =>
      auth <-
        match beacon_auth_token env with
        | Some token =>
            modify (fun st =>
              match beacon_auth_key st with
              | None => with_beacon_auth_key (Some "Authorization") st
              | Some _ => st
              end) ;;;
            key <- gets beacon_auth_key ;;
            ret (Some (match key with Some k => k | None => "Authorization" end,
                       token))
        | None => ret None
        end ;;
      modify (push_wire (ViaXhr ctx url auth (beacon_with_credentials env)
                                paramsJoined fault)) ;;;
      match fault with
      | ThrowsOnSend => throw
      | _ => ret tt
      end
  end.

(** Lines 3411-3418 of [sendBeaconData]: the three lists, merged. *)
Definition beacon_params (data : nat) : M (list string) :=
  urlFirst <- getVarsOfPriority data (-1) ;;
  urlLast <- getVarsOfPriority data 1 ;;
  urlMiddle <- getVarsOfPriority data 0 ;;
  ret (urlFirst ++ urlMiddle ++ urlLast).

(** The body handed to [navigator.sendBeacon] and to the XHR: the joined
    parameters, with the page marker when the text [http.initiator] does
    not occur in them. *)
Definition with_initiator (paramsJoined : string) : string :=
  if negb (Str.contains "http.initiator" paramsJoined)
  then (paramsJoined ++ "&http.initiator=page")%string
  else paramsJoined.

(** [BOOMR.sendBeaconData(data)].  Here the call raises only where an
    XHR does; in the code the [beacon] subscribers, [hasOwnProperty] on a
    snapshot that hides it, [encodeURIComponent] on a lone surrogate and
    a malformed allow-list pattern raise as well, which the statements
    about the payload exclude ([serializable], [unshadowed]). *)
Definition sendBeaconData (data : nat) : M bool :=
  modify (fun st =>
    with_beacon_url
      (match beacon_url_override st with
       | Some o => if o =? EmptyString then beacon_url st else o
       | None => beacon_url st
       end) st) ;;;
  url0 <- gets beacon_url ;;
  if url0 =? EmptyString then ret false
  else if negb (beaconUrlAllowed url0) then ret false
  else
    d <- gets (read_heap data) ;;
    if match get "length" d with Some (VNum 0) => true | _ => false end
    then ret false
    else
      fireEvent_with (ret false) "beacon" (DRef data) ;;;
      params <- beacon_params data ;;
      let paramsJoined := Str.join "&" params in
      when (beacon_url_force_https env && String.prefix "//" url0)
           (modify (with_beacon_url ("https:" ++ url0)%string)) ;;;
      burl <- gets beacon_url ;;
      let url := (burl ++ (if Str.has_char "?" burl then "&" else "?")
                       ++ paramsJoined)%string in
      let paramsJoined := with_initiator paramsJoined in
      let useImg :=
        if beacon_type env =? "GET" then true
        else if (beacon_type env =? "POST")
                || (MAX_GET_LENGTH <? String.length url)%nat
             then false else true in
      accepted <-
        match native_sendBeacon env with
        | Some enqueue =>
            if negb (beacon_type env =? "GET")
               && match beacon_auth_token env with None => true | Some _ => false end
               && negb (beacon_disable_sendbeacon env)
            then
              let body := (paramsJoined ++ "&sb=1")%string in
              let ok := enqueue burl body in
              modify (push_wire (ViaSendBeacon burl body ok)) ;;; ret ok
            else ret false
        | None => ret false
        end ;;
      if accepted then ret true
      else
        let useImg := if negb (xhr_available env) then true else useImg in
        if useImg then
          if image_throws env then ret false
          else modify (push_wire (ViaImage url)) ;;; ret true
        else
          try_catch (sendXhrPostBeacon PrimaryWindow paramsJoined)
                    (sendXhrPostBeacon BoomerangFrame paramsJoined) ;;;
          ret true.

(** *** The flush *)

(** The readiness loop over [BOOMR.plugins]. *)
Definition plugins_complete (v : obj value) : bool :=
  forallb (fun p => existsb (String.eqb (fst p)) (disabled_plugins env)
                    || snd p v)
          (plugins env).

(** [isSPA] and [isPageLoad], lines 3252-3253. *)
Definition isSPA (v : obj value) : bool :=
  inArray (read "http.initiator" v) BEACON_TYPE_SPAS.

Definition isPageLoad (v : obj value) : bool :=
  is_undefined (read "http.initiator" v) || isSPA v.

(** Lines 3255-3276: [pgu], [u] and [r]. *)
Definition url_fields (spa : bool) : M unit :=
  pgu <- gets (getVar "pgu") ;;
  when (negb (truthy pgu))
       (set_var "pgu" (VStr (if spa then doc_URL env
                             else Str.cut_at "#" (doc_URL env)))) ;;;
  pgu <- gets (getVar "pgu") ;;
  pgu' <- cleanupURL pgu ;;
  set_var "pgu" pgu' ;;;
  u <- gets (getVar "u") ;;
  when (negb (truthy u) || spa) (set_var "u" pgu') ;;;
  u <- gets (getVar "u") ;;
  when (strict_eq pgu' u) (delete_var "pgu") ;;;
  if truthy (referrer env)
  then r' <- cleanupURL (referrer env) ;; set_var "r" r'
  else delete_var "r".

Definition elapsed_since (t : option Z) (k : string) : M unit :=
  match t with
  | Some t0 => when (negb (t0 =? 0)%Z) (set_var k (VNum (now env - t0)))
  | None => ret tt
  end.

(** Lines 3278-3321: the derived fields, the beacon number and the error
    summary. *)
Definition derived_fields : M unit :=
  set_var "v" (VStr (version env)) ;;;
  when (session_enabled env)
       (set_var "rt.si" (VStr (session_si env)) ;;;
        set_var "rt.ss" (session_start env) ;;;
        set_var "rt.sl" (session_length env)) ;;;
  when (truthy (visibilityState env))
       (set_var "vis.st" (visibilityState env) ;;;
        elapsed_since (last_visible env) "vis.lv" ;;;
        elapsed_since (last_hidden env) "vis.lh") ;;;
  set_var "ua.plt" (navigator_platform env) ;;;
  set_var "ua.vnd" (navigator_vendor env) ;;;
  when (truthy (pageId env)) (set_var "pid" (pageId env)) ;;;
  modify (fun st => with_beaconsSent (beaconsSent st + 1) st) ;;;
  n <- gets beaconsSent ;;
  set_var "n" (VNum n) ;;;
  when (in_loader_frame env) (set_var "if" (VStr EmptyString)) ;;;
  errs <- gets (fun st =>
    map (fun kc =>
           (fst kc ++ (if (1 <? snd kc)%nat
                       then " (*" ++ string_of_Z (Z.of_nat (snd kc)) ++ ")"
                       else EmptyString))%string)
        (errors st)) ;;
  when (negb (length errs =? 0)%nat)
       (set_var "errors" (VStr (Str.join newline errs))) ;;;
  modify (with_errors []).

(** Lines 3335-3345: what must not be on the next beacon. *)
Definition clear_single_use : M unit :=
  removeVar ["qt"; "pgu"] ;;;
  singles <- gets (fun st => keys (singleBeaconVars st)) ;;
  fold_right (fun name rest => removeVar [name] ;;; rest) (ret tt) singles ;;;
  modify (with_singleBeaconVars []).

Definition real_sendBeacon : M bool :=
  queued <- gets beaconQueued ;;
  if negb queued then ret false
  else
    modify (with_beaconQueued false) ;;;
    modify count_flush ;;;
    v <- gets vars ;;
    if negb (plugins_complete v) then ret false
    else if negb (dom_available env) then ret false
    else
      let spa := isSPA v in
      let pageLoad := isPageLoad v in
      url_fields spa ;;;
      derived_fields ;;;
      fireEvent_with (ret false) "before_beacon" DLive ;;;
      v <- gets vars ;;
      varsSent <- alloc v ;;
      clear_single_use ;;;
      latch <- gets hasSentPageLoadBeacon ;;
      when (negb latch && pageLoad)
           (modify (with_hasSentPageLoadBeacon true) ;;;
            setImmediate (TaskFirePageLoadBeacon varsSent)) ;;;
      if rate_limited env then ret false
      else sendBeaconData varsSent ;;; ret true.

(** [impl.fireEvent]. *)
Definition fireEvent (e_name : string) (data : event_data) : M unit :=
  fireEvent_with real_sendBeacon e_name data.

(** *** The task queue *)

(** The callback [BOOMR.setImmediate] hands to the browser:
    [fn.call(cb_scope || null, data, cb_data || {}, cstack)]. *)
Definition run_task (t : task) : M unit :=
  match t with
  | TaskRealSendBeacon =>
      alloc [] ;;; real_sendBeacon ;;; ret tt
  | TaskFirePageLoadBeacon varsSent =>
      alloc [] ;;; fireEvent "page_load_beacon" (DRef varsSent)
  | TaskCallback f data_arg cb_data_arg scope_arg =>
      stored <- (if truthy cb_data_arg then ret cb_data_arg
                 else r <- alloc [] ;; ret (VObj r)) ;;
      modify (push_call {| c_event := "setImmediate"; c_index := 0; c_fn := f;
                           c_scope := or_else scope_arg VNull;
                           c_cb_data := stored |}) ;;;
      match snd (callback env f (or_else scope_arg VNull) stored []) with
      | Some _ => throw
      | None => ret tt
      end
  end.

(** The browser runs the oldest pending callback; an error it raises is
    reported by the browser and the queue goes on. *)
Definition run_next (st : State) : State :=
  match tasks st with
  | [] => st
  | t :: rest => final (run_task t (with_tasks rest st))
  end.

Fixpoint run_tasks (fuel : nat) (st : State) : State :=
  match fuel with
  | O => st
  | S fuel' =>
      match tasks st with
      | [] => st
      | _ :: _ => run_tasks fuel' (run_next st)
      end
  end.

End Program.

(** ** An initial state and a plain browser *)

(** [impl] and [BOOMR] as the script creates them. *)
Definition registered_events : obj (list handler) :=
  map (fun e => (e, []))
    ["page_ready"; "page_unload"; "before_unload"; "dom_loaded";
     "visibility_changed"; "prerender_to_visible"; "before_beacon"; "beacon";
     "page_load_beacon"; "xhr_load"; "click"; "form_submit"; "config";
     "xhr_init"; "spa_init"; "spa_navigation"; "spa_cancel"; "xhr_send";
     "xhr_error"; "error"; "netinfo"; "rage_click"].

Definition init_state : State :=
  {| beacon_url := EmptyString;
     beacon_url_override := None;
     beacon_auth_key := Some "Authorization";
     hasSentPageLoadBeacon := false;
     events := registered_events;
     vars := [];
     singleBeaconVars := [];
     varPriority_first := [];
     varPriority_last := [];
     errors := [];
     beaconQueued := false;
     beaconsSent := 0;
     heap := []; tasks := []; listeners := []; dom_events := []; wire := [];
     flushes := 0; calls := [] |}.

(** A browser with images and XHR but no [navigator.sendBeacon], no plugin
    and subscribers that leave their argument alone. *)
Definition plain_env : Env :=
  {| beacon_type := "AUTO";
     beacon_url_force_https := true;
     beacon_urls_allowed := [];
     beacon_auth_token := None;
     beacon_with_credentials := false;
     beacon_disable_sendbeacon := false;
     strip_query_string := false;
     autorun := true;
     onloadfired := false;
     referrer := VUndefined;
     disabled_plugins := [];
     plugins := [];
     version := "1.0";
     pageId := VUndefined;
     session_enabled := false;
     session_si := EmptyString;
     session_start := VUndefined;
     session_length := VNum 0;
     rate_limited := false;
     errors_plugin := false;
     dom_available := true;
     doc_URL := "http://site.example/";
     now := 1000;
     visibilityState := VUndefined;
     last_visible := None;
     last_hidden := None;
     navigator_platform := VStr "p";
     navigator_vendor := VStr "v";
     in_loader_frame := false;
     has_onpagehide := false;
     native_sendBeacon := None;
     xhr_available := true;
     image_throws := false;
     xhr_faults := fun _ => NoFault;
     regex_matches := fun _ _ => true;
     is_array := fun _ => false;
     serializeForUrl := fun _ => EmptyString;
     callback := fun _ _ _ o => (o, None) |}.

(** The same browser with another beacon type, rate limit, XHR behaviour
    and subscriber code. *)
Definition tweak_env (type : string) (limited : bool)
    (faults : xhr_context -> xhr_fault)
    (code : nat -> value -> value -> obj value -> obj value * option string)
    (e : Env) : Env :=
  {| beacon_type := type;
     beacon_url_force_https := beacon_url_force_https e;
     beacon_urls_allowed := beacon_urls_allowed e;
     beacon_auth_token := beacon_auth_token e;
     beacon_with_credentials := beacon_with_credentials e;
     beacon_disable_sendbeacon := beacon_disable_sendbeacon e;
     strip_query_string := strip_query_string e;
     autorun := autorun e; onloadfired := onloadfired e;
     referrer := referrer e; disabled_plugins := disabled_plugins e;
     plugins := plugins e; version := version e; pageId := pageId e;
     session_enabled := session_enabled e; session_si := session_si e;
     session_start := session_start e; session_length := session_length e;
     rate_limited := limited; errors_plugin := errors_plugin e;
     dom_available := dom_available e; doc_URL := doc_URL e; now := now e;
     visibilityState := visibilityState e; last_visible := last_visible e;
     last_hidden := last_hidden e;
     navigator_platform := navigator_platform e;
     navigator_vendor := navigator_vendor e;
     in_loader_frame := in_loader_frame e; has_onpagehide := has_onpagehide e;
     native_sendBeacon := native_sendBeacon e;
     xhr_available := xhr_available e; image_throws := image_throws e;
     xhr_faults := faults; regex_matches := regex_matches e;
     is_array := is_array e; serializeForUrl := serializeForUrl e;
     callback := code |}.

Definition post_env : Env :=
  tweak_env "POST" false (fun _ => NoFault) (callback plain_env) plain_env.

Definition limited_env : Env :=
  tweak_env "AUTO" true (fun _ => NoFault) (callback plain_env) plain_env.

Definition broken_xhr_env : Env :=
  tweak_env "POST" false (fun _ => ThrowsOnSend) (callback plain_env) plain_env.

(** Subscribers that remove every variable of the object they are handed. *)
Definition clearing_env : Env :=
  tweak_env "AUTO" false (fun _ => NoFault) (fun _ _ _ _ => ([], None)) plain_env.

(** A page configured with a beacon URL; the same with a flush requested. *)
Definition configured_state : State :=
  with_beacon_url "http://b.example/b" init_state.

Definition queued_state : State := with_beaconQueued true configured_state.

(** ** The ordering of the payload *)

Definition mem (k : string) (names : list string) : bool :=
  existsb (String.eqb k) names.

(** The variables of [data] whose name is in none of [names]. *)
Definition delete_all (names : list string) (data : obj value) : obj value :=
  filter (fun kv => negb (mem (fst kv) names)) data.

Section OrderingSpec.

Variable env : Env.
Variable first last : list string.    (* the names of the two priority lists *)
Variable data : obj value.            (* the variables to send *)

Definition pair_of (name : string) : string :=
  getUriEncodedVar env name (read name data).

(** Names of the priority -1 list that are set, in the order of the list. *)
Definition priority_first : list string :=
  map pair_of (filter (fun n => has n data) first).

(** All the remaining variables. *)
Definition remaining : obj value :=
  delete_all last (delete_all first data).

(** Names of the priority 1 list that are set and not yet consumed. *)
Definition priority_last : list string :=
  map pair_of (filter (fun n => has n data && negb (mem n first)) last).

(** The three lists, the middle one in the order of [for .. in]. *)
Definition ordered_params : list string :=
  priority_first
    ++ map (fun kv => getUriEncodedVar env (fst kv) (snd kv)) (for_in remaining)
    ++ priority_last.

End OrderingSpec.


(** The names of a priority list as [for .. in] gives them. *)
Definition priority_names (bucket : obj unit) : list string :=
  keys (for_in bucket).



(** ** Observations used in the statements *)

(** [n] calls of [sendBeacon] in a row, one per argument. *)
Definition sendBeacon_each (args : list (option string)) (st : State) : State :=
  fold_left (fun s a => final (sendBeacon a s)) args st.

(** What the coordinator keeps for itself across the steps of a flush. *)
Definition coord (st : State)
  : bool * nat * list task * bool * option string :=
  (beaconQueued st, flushes st, tasks st, hasSentPageLoadBeacon st,
   beacon_url_override st).

Definition coord_sent (st : State)
  : (bool * nat * list task * bool * option string) * Z :=
  (coord st, beaconsSent st).

(** [m] leaves the observation [proj] as it found it, whether it returns or
    raises. *)
Definition preserves {X A : Type} (proj : State -> X) (m : M A) : Prop :=
  forall st, proj (final (m st)) = proj st.

(** [m] never raises. *)
Definition total {A : Type} (m : M A) : Prop :=
  forall st, raised (m st) = false.

(** [m] returns, leaves the coordinator's fields alone and adds [d] to
    [beaconsSent]. *)
Definition counts {A : Type} (d : Z) (m : M A) : Prop :=
  forall st, exists a st',
    m st = Normal a st'
    /\ coord st' = coord st
    /\ beaconsSent st' = (beaconsSent st + d)%Z.

(** The state in which the flush starts its work, once past the guard. *)
Definition after_guard (st : State) : State :=
  count_flush (with_beaconQueued false st).

(** The flush gets as far as the bookkeeping of lines 3278-3355: a beacon
    was queued, every plugin is complete, the browser is still there and
    the URL fields could be computed. *)
Definition reaches_bookkeeping (env : Env) (st : State) : bool :=
  beaconQueued st
  && plugins_complete env (vars st)
  && dom_available env
  && negb (raised (url_fields env (isSPA (vars st)) (after_guard st))).

(** The flush sets the page-load latch. *)
Definition sets_latch (env : Env) (st : State) : bool :=
  negb (hasSentPageLoadBeacon st)
  && reaches_bookkeeping env st
  && isPageLoad (vars st).

(** ** Where a flush is sent *)

(** [impl.beacon_url_override || impl.beacon_url]. *)
Definition flush_target (st : State) : string :=
  match beacon_url_override st with
  | Some o => if o =? EmptyString then beacon_url st else o
  | None => beacon_url st
  end.

(** The rewrite of a protocol-relative URL when https is forced. *)
Definition effective_url (env : Env) (u : string) : string :=
  if beacon_url_force_https env && String.prefix "//" u
  then ("https:" ++ u)%string else u.

(** The transmission is addressed to [burl]: the image URL starts with it,
    the other two mechanisms are given it as it is. *)
Definition goes_to (burl : string) (t : transmission) : Prop :=
  match t with
  | ViaSendBeacon u _ _ => u = burl
  | ViaImage u => exists query, u = (burl ++ query)%string
  | ViaXhr _ u _ _ _ _ => u = burl
  end.

(** The XHR attempts among some transmissions, in order. *)
Definition xhr_attempts (l : list transmission) : list (xhr_context * xhr_fault) :=
  flat_map (fun t => match t with
                     | ViaXhr c _ _ _ _ f => [(c, f)]
                     | _ => []
                     end) l.

Definition faulty (f : xhr_fault) : bool :=
  match f with NoFault => false | _ => true end.

Definition route (st : State) : string * list transmission * option string :=
  (beacon_url st, wire st, beacon_url_override st).

(** ** Concrete inputs *)

(** [subscribe("spa_navigation", f)] twice, callback data and scope left
    out; [f] is the function of identity 7. *)
Definition subscribed_once : State :=
  final (subscribe plain_env "spa_navigation" 7 VUndefined VUndefined VUndefined
           init_state).

Definition subscribed_twice : State :=
  final (subscribe plain_env "spa_navigation" 7 VUndefined VUndefined VUndefined
           subscribed_once).

(** A configured page whose heap holds one object, the snapshot to send. *)
Definition snapshot_state (snapshot : obj value) : State :=
  with_heap [snapshot] configured_state.

(** A page with a subscriber of [before_beacon] and a flush requested. *)
Definition watched_state : State :=
  final (subscribe plain_env "before_beacon" 9 VUndefined VUndefined VUndefined
           queued_state).

(** A page on which a flush was requested, with the given variables. *)
Definition flush_state (v : obj value) : State := with_vars v queued_state.

(** An override passed to one [sendBeacon], the flush run, then a second
    [sendBeacon] without override and its flush. *)
Definition after_override_flush : State :=
  run_tasks plain_env 5
    (final (sendBeacon (Some "http://override.example/o") configured_state)).

Definition after_next_flush : State :=
  run_tasks plain_env 5 (final (sendBeacon None after_override_flush)).

(** The latch, once set, stays set. *)
Definition latch_kept (a b : State) : Prop :=
  hasSentPageLoadBeacon a = true -> hasSentPageLoadBeacon b = true.

Definition respects {A : Type} (R : State -> State -> Prop) (m : M A) : Prop :=
  forall st, R st (final (m st)).

(** ** Requests made while a flush is queued *)

(** What a flush, forced or scheduled, does to the coordinator's fields:
    the flag is cleared, one more run got past the guard, at most one
    beacon number was taken and at most one task was scheduled. *)
Definition flushed (a b : State) : Prop :=
  beaconQueued b = false /\ flushes b = S (flushes a)
  /\ (beaconsSent a <= beaconsSent b <= beaconsSent a + 1)%Z
  /\ exists extra, tasks b = tasks a ++ extra /\ (length extra <= 1)%nat.

(** What [sendBeacon(a)] remembers of its argument. *)
Definition store_override (a : option string) (st : State) : State :=
  match a with
  | Some u => if u =? EmptyString then st else with_beacon_url_override (Some u) st
  | None => st
  end.

(** The override in force after the calls [args]: the last one given. *)
Definition last_override (args : list (option string)) (o : option string)
  : option string :=
  fold_left (fun acc a =>
               match a with
               | Some u => if u =? EmptyString then acc else Some u
               | None => acc
               end) args o.

(** A flush requested on a configured page, and a second request, made
    before the queue runs, that carries an override. *)
Definition requested_once : State := final (sendBeacon None configured_state).

Definition requested_again : State :=
  final (sendBeacon (Some "http://other.example/o") requested_once).

(** ** The maps the flush relies on *)

(** No map of the coordinator holds a property named [hasOwnProperty]. *)
Definition unshadowed (st : State) : bool :=
  negb (shadowed (vars st)) && negb (shadowed (singleBeaconVars st))
  && negb (shadowed (events st)) && negb (shadowed (errors st))
  && negb (shadowed (varPriority_first st))
  && negb (shadowed (varPriority_last st)).

(** ** The retry of the XHR *)

(** The XHR attempts of one call of [sendBeaconData] and its outcome:
    none; the primary context alone, which worked, and the call returns; or
    the primary context, which failed, then the frame's context once, whose
    failure is the call's. *)
Definition retry_shape (env : Env) (new : list transmission) (raises : bool)
  : Prop :=
  xhr_attempts new = []
  \/ (xhr_attempts new = [(PrimaryWindow, xhr_faults env PrimaryWindow)]
      /\ faulty (xhr_faults env PrimaryWindow) = false
      /\ raises = false)
  \/ (xhr_attempts new = [(PrimaryWindow, xhr_faults env PrimaryWindow);
                          (BoomerangFrame, xhr_faults env BoomerangFrame)]
      /\ faulty (xhr_faults env PrimaryWindow) = true
      /\ raises = faulty (xhr_faults env BoomerangFrame)).

(** A browser whose own XHR throws on [send] while the frame's works. *)
Definition flaky_xhr_env : Env :=
  tweak_env "POST" false
    (fun c => match c with PrimaryWindow => ThrowsOnSend | BoomerangFrame => NoFault end)
    (callback plain_env) plain_env.

(** ** The rest of the event bus and of the variable store *)







(** The calls one firing of [e] makes when [hs] are its subscribers,
    numbered from [i]. *)
Fixpoint calls_from (e : string) (i : nat) (hs : list handler) : list call :=
  match hs with
  | [] => []
  | h :: hs' =>
      {| c_event := e; c_index := i; c_fn := fn h; c_scope := scope h;
         c_cb_data := cb_data h |} :: calls_from e (S i) hs'
  end.

(** The subscribers that stay after a firing. *)
Definition lasting (hs : list handler) : list handler :=
  filter (fun h => negb (once h)) hs.



(** [xhr_load] with a lasting subscriber, a [once] subscriber and a second
    lasting one. *)
Definition mixed_subscribers : State :=
  final (subscribe plain_env "xhr_load" 3 VUndefined VUndefined VUndefined
    (final (subscribe plain_env "xhr_load" 2 VUndefined VUndefined (VBool true)
      (final (subscribe plain_env "xhr_load" 1 VUndefined VUndefined VUndefined
         init_state))))).

(** [addVar(k, v)] for each pair of [o] in turn. *)
Definition addVar_each (o : obj value) (st : State) : State :=
  fold_left (fun s kv => final (addVar (Name (fst kv)) (snd kv) VUndefined s)) o st.

(** [pri] is one of the two priorities [setVarPriority] accepts. *)
Definition valid_priority (pri : value) : bool :=
  match pri with
  | VNum n => (n =? 1)%Z || (n =? -1)%Z
  | _ => false
  end.

(** The same browser with other plugins. *)
Definition with_plugins (ps : list (string * (obj value -> bool)))
    (disabled : list string) (e : Env) : Env :=
  {| beacon_type := beacon_type e;
     beacon_url_force_https := beacon_url_force_https e;
     beacon_urls_allowed := beacon_urls_allowed e;
     beacon_auth_token := beacon_auth_token e;
     beacon_with_credentials := beacon_with_credentials e;
     beacon_disable_sendbeacon := beacon_disable_sendbeacon e;
     strip_query_string := strip_query_string e;
     autorun := autorun e; onloadfired := onloadfired e;
     referrer := referrer e; disabled_plugins := disabled;
     plugins := ps; version := version e; pageId := pageId e;
     session_enabled := session_enabled e; session_si := session_si e;
     session_start := session_start e; session_length := session_length e;
     rate_limited := rate_limited e; errors_plugin := errors_plugin e;
     dom_available := dom_available e; doc_URL := doc_URL e; now := now e;
     visibilityState := visibilityState e; last_visible := last_visible e;
     last_hidden := last_hidden e;
     navigator_platform := navigator_platform e;
     navigator_vendor := navigator_vendor e;
     in_loader_frame := in_loader_frame e; has_onpagehide := has_onpagehide e;
     native_sendBeacon := native_sendBeacon e;
     xhr_available := xhr_available e; image_throws := image_throws e;
     xhr_faults := xhr_faults e; regex_matches := regex_matches e;
     is_array := is_array e; serializeForUrl := serializeForUrl e;
     callback := callback e |}.

(** A page one of whose plugins is never complete. *)
Definition waiting_env : Env :=
  with_plugins [("RT", fun _ => false)] [] plain_env.

(** ** Transport: the choice of a mechanism *)

(** The second half of [sendBeaconData] (from the computation of [url]
    on), for the beacon URL [burl] and the joined parameters. *)
Definition deliver (env : Env) (burl paramsJoined : string) : M bool :=
  let url := (burl ++ (if Str.has_char "?" burl then "&" else "?")
                   ++ paramsJoined)%string in
  let paramsJoined := with_initiator paramsJoined in
  let useImg :=
    if beacon_type env =? "GET" then true
    else if (beacon_type env =? "POST")
            || (MAX_GET_LENGTH <? String.length url)%nat
         then false else true in
  accepted <-
    match native_sendBeacon env with
    | Some enqueue =>
        if negb (beacon_type env =? "GET")
           && match beacon_auth_token env with None => true | Some _ => false end
           && negb (beacon_disable_sendbeacon env)
        then
          let body := (paramsJoined ++ "&sb=1")%string in
          let ok := enqueue burl body in
          modify (push_wire (ViaSendBeacon burl body ok)) ;;; ret ok
        else ret false
    | None => ret false
    end ;;
  if accepted then ret true
  else
    let useImg := if negb (xhr_available env) then true else useImg in
    if useImg then
      if image_throws env then ret false
      else modify (push_wire (ViaImage url)) ;;; ret true
    else
      try_catch (sendXhrPostBeacon env PrimaryWindow paramsJoined)
                (sendXhrPostBeacon env BoomerangFrame paramsJoined) ;;;
      ret true.

(** The URL an image beacon is given. *)
Definition image_url (burl paramsJoined : string) : string :=
  (burl ++ (if Str.has_char "?" burl then "&" else "?") ++ paramsJoined)%string.

(** The header name the token is sent under. *)
Definition auth_header (st : State) : string :=
  match beacon_auth_key st with Some k => k | None => "Authorization" end.

Definition is_xhr (t : transmission) : bool :=
  match t with ViaXhr _ _ _ _ _ _ => true | _ => false end.

(** The snapshot holds a [length] property equal to 0. *)
Definition declares_empty (d : obj value) : bool :=
  match get "length" d with Some (VNum 0) => true | _ => false end.

(** [sendBeaconData] gets as far as the transport. *)
Definition has_destination (env : Env) (data : nat) (st : State) : bool :=
  negb (flush_target st =? EmptyString)
  && beaconUrlAllowed env (flush_target st)
  && negb (declares_empty (read_heap data st)).

(** What one XHR attempt shows the browser: the authorization header is
    set after [open], so an [open] that throws shows none. *)
Definition xhr_record (env : Env) (header burl body : string)
    (ctx : xhr_context) : transmission :=
  ViaXhr ctx burl
    (match xhr_faults env ctx, beacon_auth_token env with
     | ThrowsOnOpen, _ | _, None => None
     | _, Some token => Some (header, token)
     end)
    (match xhr_faults env ctx with
     | ThrowsOnOpen => false
     | _ => beacon_with_credentials env
     end)
    body (xhr_faults env ctx).

(** [navigator.sendBeacon], when the configuration lets it be tried. *)
Definition tries_sendBeacon (env : Env) : option (string -> string -> bool) :=
  match native_sendBeacon env with
  | Some enqueue =>
      if negb (beacon_type env =? "GET")
         && match beacon_auth_token env with None => true | Some _ => false end
         && negb (beacon_disable_sendbeacon env)
      then Some enqueue else None
  | None => None
  end.

(** The final value of [useImg]. *)
Definition prefers_image (env : Env) (url : string) : bool :=
  if negb (xhr_available env) then true
  else if beacon_type env =? "GET" then true
  else if (beacon_type env =? "POST")
          || (MAX_GET_LENGTH <? String.length url)%nat
       then false else true.

(** The transmissions the second half of [sendBeaconData] makes and what
    it returns ([None] when it raises), read off its branches. *)
Definition planned (env : Env) (header burl paramsJoined : string)
  : list transmission * option bool :=
  let body := with_initiator paramsJoined in
  let url := image_url burl paramsJoined in
  let fallback :=
    if prefers_image env url then
      if image_throws env then ([], Some false) else ([ViaImage url], Some true)
    else if faulty (xhr_faults env PrimaryWindow) then
      ([xhr_record env header burl body PrimaryWindow;
        xhr_record env header burl body BoomerangFrame],
       if faulty (xhr_faults env BoomerangFrame) then None else Some true)
    else ([xhr_record env header burl body PrimaryWindow], Some true) in
  match tries_sendBeacon env with
  | Some enqueue =>
      let ok := enqueue burl (body ++ "&sb=1")%string in
      let sb := ViaSendBeacon burl (body ++ "&sb=1") ok in
      if ok then ([sb], Some true) else (sb :: fst fallback, snd fallback)
  | None => fallback
  end.

(** The same page with another beacon type, authorization token,
    [navigator.sendBeacon] and XHR support. *)
Definition with_transport (type : string) (token : option string)
    (native : option (string -> string -> bool)) (xhr : bool) (e : Env) : Env :=
  {| beacon_type := type;
     beacon_url_force_https := beacon_url_force_https e;
     beacon_urls_allowed := beacon_urls_allowed e;
     beacon_auth_token := token;
     beacon_with_credentials := beacon_with_credentials e;
     beacon_disable_sendbeacon := beacon_disable_sendbeacon e;
     strip_query_string := strip_query_string e;
     autorun := autorun e; onloadfired := onloadfired e;
     referrer := referrer e; disabled_plugins := disabled_plugins e;
     plugins := plugins e; version := version e; pageId := pageId e;
     session_enabled := session_enabled e; session_si := session_si e;
     session_start := session_start e; session_length := session_length e;
     rate_limited := rate_limited e; errors_plugin := errors_plugin e;
     dom_available := dom_available e; doc_URL := doc_URL e; now := now e;
     visibilityState := visibilityState e; last_visible := last_visible e;
     last_hidden := last_hidden e;
     navigator_platform := navigator_platform e;
     navigator_vendor := navigator_vendor e;
     in_loader_frame := in_loader_frame e; has_onpagehide := has_onpagehide e;
     native_sendBeacon := native;
     xhr_available := xhr; image_throws := image_throws e;
     xhr_faults := xhr_faults e; regex_matches := regex_matches e;
     is_array := is_array e; serializeForUrl := serializeForUrl e;
     callback := callback e |}.

Definition get_env : Env := with_transport "GET" None None true plain_env.

Definition token_env : Env :=
  with_transport "POST" (Some "secret") (Some (fun _ _ => true)) true plain_env.

Definition sendBeacon_env : Env :=
  with_transport "AUTO" None (Some (fun _ _ => true)) true plain_env.

(** The token [tok] is on the transmission under [header], or the
    transmission is one that cannot carry a header. *)
Definition carries_token (header tok : string) (t : transmission) : Prop :=
  match t with
  | ViaSendBeacon _ _ _ => False
  | ViaImage _ => True
  | ViaXhr _ _ auth _ _ f => f = ThrowsOnOpen \/ auth = Some (header, tok)
  end.

(** A transmission made as a fallback for the parameters [pj]: the image
    URL and the XHR body are the ones computed from them. *)
Definition falls_back (burl pj : string) (t : transmission) : Prop :=
  match t with
  | ViaSendBeacon _ _ _ => False
  | ViaImage u => u = image_url burl pj
  | ViaXhr _ u _ _ b _ => u = burl /\ b = with_initiator pj
  end.

(** The 2000-character rule: an image is used for a URL within the limit
    when POST is not asked for, an XHR when POST is asked for or the URL is
    over the limit. *)
Definition obeys_limit (env : Env) (burl pj : string) (t : transmission) : Prop :=
  match t with
  | ViaSendBeacon _ b _ => b = (with_initiator pj ++ "&sb=1")%string
  | ViaImage u =>
      u = image_url burl pj
      /\ String.length u <= MAX_GET_LENGTH /\ beacon_type env <> "POST"
  | ViaXhr _ _ _ _ b _ =>
      b = with_initiator pj
      /\ (beacon_type env = "POST"
          \/ MAX_GET_LENGTH < String.length (image_url burl pj))
  end.

(** ** Utilities: text *)

Module Text.

(** [s.split(c)] for a separator of one character. *)
Fixpoint split (c : ascii) (s : string) : list string :=
  match s with
  | EmptyString => [EmptyString]
  | String a r =>
      if Ascii.eqb a c then EmptyString :: split c r
      else match split c r with
           | p :: ps => String a p :: ps
           | [] => [String a EmptyString]
           end
  end.

(** [s.slice(1)]. *)
Definition slice1 (s : string) : string :=
  match s with
  | EmptyString => EmptyString
  | String _ r => r
  end.

(** [s.replace(/\+/g, " ")]. *)
Fixpoint plus_to_space (s : string) : string :=
  match s with
  | EmptyString => EmptyString
  | String a r =>
      String (if Ascii.eqb a "+" then " "%char else a) (plus_to_space r)
  end.

(** The part of [s] from the first [c] on; empty when there is none. *)
Fixpoint from_char (c : ascii) (s : string) : string :=
  match s with
  | EmptyString => EmptyString
  | String a r => if Ascii.eqb a c then s else from_char c r
  end.

(** A call that returns, or raises a [URIError]. *)
Inductive outcome (A : Type) : Type :=
| Done (a : A)
| URIError.
Arguments Done {A} a.
Arguments URIError {A}.

Definition hex_value (c : ascii) : option nat :=
  let n := nat_of_ascii c in
  if ((48 <=? n) && (n <=? 57))%nat then Some (n - 48)%nat
  else if ((65 <=? n) && (n <=? 70))%nat then Some (n - 55)%nat
  else if ((97 <=? n) && (n <=? 102))%nat then Some (n - 87)%nat
  else None.

(** The octets of an encoded text, each with a mark telling whether it
    was written as an escape [%XX]. *)
Fixpoint unescape (s : string) : option (list (ascii * bool)) :=
  match s with
  | EmptyString => Some []
  | String c r =>
      if Ascii.eqb c "%" then
        match r with
        | String h1 (String h2 r') =>
            match hex_value h1, hex_value h2, unescape r' with
            | Some a, Some b, Some l => Some ((ascii_of_nat (16 * a + b)%nat, true) :: l)
            | _, _, _ => None
            end
        | _ => None
        end
      else
        match unescape r with
        | Some l => Some ((c, false) :: l)
        | None => None
        end
  end.

(** Where the decoder is in a UTF-8 sequence: between characters, or
    waiting for a continuation octet, the first of which is restricted
    after the lead octets E0, ED, F0 and F4. *)
Inductive utf8_state : Type :=
| Between
| Last            (* one continuation octet to come *)
| Two             (* two to come *)
| Three           (* three to come *)
| AfterE0
| AfterED
| AfterF0
| AfterF4.

Definition within (lo hi n : nat) : bool := ((lo <=? n) && (n <=? hi))%nat.

Definition utf8_lead (n : nat) : option utf8_state :=
  if within 194 223 n then Some Last
  else if (n =? 224)%nat then Some AfterE0
  else if within 225 236 n then Some Two
  else if (n =? 237)%nat then Some AfterED
  else if within 238 239 n then Some Two
  else if (n =? 240)%nat then Some AfterF0
  else if within 241 243 n then Some Three
  else if (n =? 244)%nat then Some AfterF4
  else None.

Definition utf8_step (q : utf8_state) (x : ascii * bool) : option utf8_state :=
  let n := nat_of_ascii (fst x) in
  let continue (lo hi : nat) (next : utf8_state) :=
    if snd x && within lo hi n then Some next else None in
  match q with
  | Between => if snd x && (128 <=? n)%nat then utf8_lead n else Some Between
  | Last => continue 128 191 Between
  | Two => continue 128 191 Last
  | Three => continue 128 191 Two
  | AfterE0 => continue 160 191 Last
  | AfterED => continue 128 159 Last
  | AfterF0 => continue 144 191 Two
  | AfterF4 => continue 128 143 Two
  end.

Fixpoint utf8_run (q : utf8_state) (l : list (ascii * bool)) : bool :=
  match l with
  | [] => match q with Between => true | _ => false end
  | x :: r =>
      match utf8_step q x with
      | Some q' => utf8_run q' r
      | None => false
      end
  end.

(** [decodeURIComponent]: the escapes must be well formed and the octets
    they denote must be UTF-8; anything else is a [URIError]. *)
Definition decodeURIComponent (s : string) : outcome string :=
  match unescape s with
  | Some l =>
      if utf8_run Between l
      then Done (string_of_list_ascii (map fst l))
      else URIError
  | None => URIError
  end.

(** The octets of [s] are the UTF-8 encoding of some text. *)
Definition well_formed (s : string) : bool :=
  utf8_run Between (map (fun c => (c, true)) (list_ascii_of_string s)).

End Text.

Import Text.

(** ** Utilities of [BOOMR.utils] *)









(** The loop of [getQueryParamValue] over the parameters of the query. *)
Fixpoint getQueryParamValue_loop (param : string) (params : list string)
  : outcome (option string) :=
  match params with
  | [] => Done None
  | p :: rest =>
      if p =? EmptyString then getQueryParamValue_loop param rest
      else
        let kv := split "=" p in
        if hd EmptyString kv =? param then
          if (1 <? length kv)%nat then
            match decodeURIComponent (plus_to_space (Str.join "=" (tl kv))) with
            | URIError => URIError
            | Done v => Done (Some v)
            end
          else Done (Some EmptyString)
        else getQueryParamValue_loop param rest
  end.

(** [BOOMR.utils.getQueryParamValue(param, url)], given the [search] part
    of the location the browser derives from [url]. *)
Definition getQueryParamValue (param search : string) : outcome (option string) :=
  if param =? EmptyString then Done None
  else getQueryParamValue_loop param (split "&" (slice1 search)).

(** [BOOMR.utils.cleanupURL(url, urlLimit)] for a text and a limit; the
    lengths are those of the code for a text that is [one_line]. *)
Definition cleanupURL_limit (env : Env) (url : string) (urlLimit : nat) : string :=
  if url =? EmptyString then EmptyString
  else
    let url := if strip_query_string env then redact_query url else url in
    if (urlLimit <? String.length url)%nat then
      match String.index 0 "?" url with
      | Some qsStart =>
          if (qsStart <? urlLimit)%nat
          then (String.substring 0 qsStart url ++ "?...")%string
          else (String.substring 0 (urlLimit - 3) url ++ "...")%string
      | None => (String.substring 0 (urlLimit - 3) url ++ "...")%string
      end
    else url.


(** The text [getUriEncodedVar] encodes for a value: nothing for
    [undefined] and [null], the serialisation of an object, the value as a
    string otherwise. *)
Definition param_text (env : Env) (v : value) : string :=
  match v with
  | VUndefined | VNull => EmptyString
  | VObj r => serializeForUrl env r
  | v => to_string v
  end.



(** The last replacement of [hashQueryString]: the text between the first
    question mark and the next [#] is replaced by its hash when it is
    longer than ten characters. *)
Fixpoint hash_query (md5 : string -> string) (url : string) : string :=
  match url with
  | EmptyString => EmptyString
  | String a r =>
      if Ascii.eqb a "?" then
        let m1 := Str.cut_at "#" r in
        ("?" ++ (if (10 <? String.length m1)%nat then md5 m1 else m1)
             ++ from_char "#" r)%string
      else String a (hash_query md5 r)
  end.

(** [/^(https?|file):/]. *)
Definition known_scheme (url : string) : bool :=
  String.prefix "http:" url || String.prefix "https:" url
  || String.prefix "file:" url.

(** [BOOMR.utils.hashQueryString(url, stripHash)] for a text; [protocol]
    is [location.protocol] and [md5] is [BOOMR.utils.MD5] when the build
    has it. *)
Definition hashQueryString (protocol : string) (md5 : option (string -> string))
    (url : string) (stripHash : bool) : string :=
  if url =? EmptyString then url
  else
    let url := if String.prefix "//" url then (protocol ++ url)%string else url in
    if negb (known_scheme url) then EmptyString
    else
      let url := if stripHash then Str.cut_at "#" url else url in
      match md5 with
      | None => url
      | Some h => hash_query h url
      end.

(** The query of a URL: what follows its first question mark, up to the
    next [#]. *)
Definition query_of (url : string) : string :=
  Str.cut_at "#" (slice1 (from_char "?" url)).

(** ** Dynamic requests: [readyToSend] and [responseEnd] *)

(** [BOOMR.readyToSend]; [answer] gives, for a plugin, what its
    [readyToSend] method returns, when it has one. *)
Definition readyToSend (env : Env) (answer : string -> option value) : bool :=
  forallb (fun p => existsb (String.eqb (fst p)) (disabled_plugins env)
                    || match answer (fst p) with
                       | Some r => negb (strict_eq r (VBool false))
                       | None => true
                       end)
          (plugins env).

(** The first argument of [responseEnd]: a timer name, or an object with
    an [initiator] and a [url]. *)
Inductive request : Type :=
| Named (name : string)
| Described (initiator url : value).

(** [name.initiator]. *)
Definition initiator_of (name : request) : value :=
  match name with
  | Named _ => VUndefined
  | Described i _ => i
  end.

(** What a call of [responseEnd] came to. *)
Inductive response_end : Type :=
| RetryLater        (* a timer of one second will call it again *)
| AwaitsPageLoad    (* a subscriber of [page_load_beacon] will call it again *)
| NoUrl
| Reported.

(** [BOOMR.responseEnd(name, t_start, data, t_end)].  [retry] is the
    function that calls it again and [boomr] the [BOOMR] object; the timer
    of the RT plugin is that plugin's business. *)
Definition responseEnd (env : Env) (answer : string -> option value)
    (retry boomr : nat) (name : request) : M response_end :=
  if negb (readyToSend env answer) then ret RetryLater
  else
    latch <- gets hasSentPageLoadBeacon ;;
    if negb latch && negb (inArray (initiator_of name) BEACON_TYPE_SPAS)
    then
      subscribe env "page_load_beacon" retry VNull (VObj boomr) (VBool true) ;;;
      ret AwaitsPageLoad
    else
      match name with
      | Described _ url =>
          if negb (truthy url) then ret NoUrl
          else fireEvent env "xhr_load" DOpaque ;;; ret Reported
      | Named n =>
          real_sendBeacon env ;;;
          addVar (Name "xhr.pg") (VStr n) VUndefined ;;;
          (if existsb (String.eqb "RT") (map fst (plugins env))
           then ret tt else throw) ;;;
          fireEvent env "xhr_load" DOpaque ;;;
          ret Reported
      end.

(** The check of [subscribe]: the triple is already subscribed. *)
Definition subscribed (f : nat) (d s : value) (hs : list handler) : bool :=
  existsb (fun h => (fn h =? f)%nat && strict_eq (cb_data h) d
                    && strict_eq (scope h) s) hs.

(** The same page after its [onload] event. *)
Definition after_onload (e : Env) : Env :=
  {| beacon_type := beacon_type e;
     beacon_url_force_https := beacon_url_force_https e;
     beacon_urls_allowed := beacon_urls_allowed e;
     beacon_auth_token := beacon_auth_token e;
     beacon_with_credentials := beacon_with_credentials e;
     beacon_disable_sendbeacon := beacon_disable_sendbeacon e;
     strip_query_string := strip_query_string e;
     autorun := true; onloadfired := true;
     referrer := referrer e; disabled_plugins := disabled_plugins e;
     plugins := plugins e; version := version e; pageId := pageId e;
     session_enabled := session_enabled e; session_si := session_si e;
     session_start := session_start e; session_length := session_length e;
     rate_limited := rate_limited e; errors_plugin := errors_plugin e;
     dom_available := dom_available e; doc_URL := doc_URL e; now := now e;
     visibilityState := visibilityState e; last_visible := last_visible e;
     last_hidden := last_hidden e;
     navigator_platform := navigator_platform e;
     navigator_vendor := navigator_vendor e;
     in_loader_frame := in_loader_frame e; has_onpagehide := has_onpagehide e;
     native_sendBeacon := native_sendBeacon e;
     xhr_available := xhr_available e; image_throws := image_throws e;
     xhr_faults := xhr_faults e; regex_matches := regex_matches e;
     is_array := is_array e; serializeForUrl := serializeForUrl e;
     callback := callback e |}.

(** ** The error tally *)




(** ** A flush from end to end *)



(** ** What the serialisation can encode *)

(** The snapshot can be serialised as the embedding says: no variable
    hides [hasOwnProperty], the names and the texts of the values are
    UTF-8, which [encodeURIComponent] accepts, and the numbers are printed
    in decimal. *)
Definition serializable (env : Env) (d : obj value) : bool :=
  negb (shadowed d)
  && forallb (fun kv => well_formed (fst kv)
                        && well_formed (param_text env (snd kv))
                        && printable (snd kv)) d.


(** ** Subscribers that return *)

(** The subscriber's code does not throw, whatever object it is handed. *)
Definition returns_always (env : Env) (h : handler) : Prop :=
  forall o, snd (callback env (fn h) (scope h) (cb_data h) o) = None.

(** An event name the embedding treats as the code does: [toLowerCase]
    folds it as the embedding does, the translation table holds no
    inherited property under it, and nothing hides [hasOwnProperty] on the
    table of events. *)
Definition ordinary_event (e : string) (st : State) : bool :=
  ascii_only e && negb (inherited (canonical e)) && negb (shadowed (events st)).

(** ** The payload of a flush *)

(** The text [sendBeaconData] joins for the snapshot [data]: the three
    lists of [ordered_params], the priority lists in the order of
    [for .. in]. *)
Definition payload_of (env : Env) (data : nat) (st : State) : string :=
  Str.join "&"
    (ordered_params env (priority_names (varPriority_first st))
       (priority_names (varPriority_last st)) (read_heap data st)).

(** A snapshot the transport serialises as the embedding says: nobody
    subscribed to [beacon], no allow-list is configured, so that no pattern
    is compiled, no table hides [hasOwnProperty], and the names and values
    of the snapshot can be encoded. *)
Definition plain_delivery (env : Env) (data : nat) (st : State) : Prop :=
  handlers_of "beacon" st = []
  /\ beacon_urls_allowed env = []
  /\ NoDup (keys (varPriority_first st))
  /\ NoDup (keys (varPriority_last st))
  /\ unshadowed st = true
  /\ serializable env (read_heap data st) = true.

(** A text of ASCII characters on one line: its length in UTF-16 units is
    its length in bytes, and [.] in a pattern matches each of its
    characters. *)
Definition one_line (s : string) : bool :=
  ascii_only s && negb (Str.has_char "010" s) && negb (Str.has_char "013" s).

(** * Properties *)

(** ** Objects *)

Lemma get_delete_other {A : Type} (k k' : string) (o : obj A) :
  k <> k' -> get k' (delete k o) = get k' o.
Proof.
  intros Hne. induction o as [|[k0 v0] o IH]; simpl; auto.
  destruct (String.eqb_spec k0 k) as [->|Hk].
  - rewrite IH. destruct (String.eqb_spec k k'); congruence.
  - simpl. rewrite IH. reflexivity.
Qed.

Lemma delete_absent {A : Type} (k : string) (o : obj A) :
  get k o = None -> delete k o = o.
Proof.
  induction o as [|[k0 v0] o IH]; simpl; auto.
  destruct (String.eqb_spec k0 k) as [->|Hk]; [discriminate|].
  intros H. rewrite IH; auto.
Qed.

Lemma delete_as_filter {A : Type} (k : string) (o : obj A) :
  delete k o = filter (fun kv => negb (fst kv =? k)) o.
Proof.
  induction o as [|[k0 v0] o IH]; simpl; auto.
  destruct (k0 =? k); simpl; rewrite IH; reflexivity.
Qed.

Lemma filter_filter {A : Type} (p q : A -> bool) (l : list A) :
  filter p (filter q l) = filter (fun x => q x && p x) l.
Proof.
  induction l as [|x l IH]; simpl; auto.
  destruct (q x); simpl; [destruct (p x)|]; rewrite IH; reflexivity.
Qed.


Lemma delete_all_cons (n : string) (names : list string) (d : obj value) :
  delete_all names (delete n d) = delete_all (n :: names) d.
Proof.
  unfold delete_all. rewrite delete_as_filter, filter_filter.
  apply filter_ext. intros [k v]. simpl.
  rewrite (String.eqb_sym k n). destruct (n =? k); reflexivity.
Qed.

Lemma get_delete_all (k : string) (names : list string) (d : obj value) :
  get k (delete_all names d) = if mem k names then None else get k d.
Proof.
  unfold delete_all. induction d as [|[k0 v0] d IH]; simpl.
  - destruct (mem k names); reflexivity.
  - destruct (mem k0 names) eqn:Hm; simpl.
    + rewrite IH. destruct (String.eqb_spec k0 k) as [->|Hk]; auto.
      rewrite Hm. reflexivity.
    + rewrite IH. destruct (String.eqb_spec k0 k) as [->|Hk]; auto.
      rewrite Hm. reflexivity.
Qed.

Lemma get_set_other {A : Type} (k k' : string) (v : A) (o : obj A) :
  k <> k' -> get k' (set k v o) = get k' o.
Proof.
  intros Hne. induction o as [|[k0 v0] o IH]; simpl.
  - destruct (String.eqb_spec k k'); congruence.
  - destruct (String.eqb_spec k0 k) as [->|Hk]; simpl.
    + destruct (String.eqb_spec k k'); congruence.
    + rewrite IH. reflexivity.
Qed.

Lemma set_same_value {A : Type} (k : string) (v : A) (o : obj A) :
  get k o = Some v -> set k v o = o.
Proof.
  induction o as [|[k0 v0] o IH]; simpl; [discriminate|].
  destruct (String.eqb_spec k0 k) as [->|Hk].
  - intros H. injection H as ->. reflexivity.
  - intros H. rewrite IH by exact H. reflexivity.
Qed.


Lemma has_mem_keys {A : Type} (k : string) (o : obj A) :
  has k o = mem k (keys o).
Proof.
  unfold has, mem, keys. induction o as [|[k0 v0] o IH]; simpl; [reflexivity|].
  rewrite (String.eqb_sym k k0). destruct (k0 =? k); [reflexivity|exact IH].
Qed.

(** ** Enumeration: [for .. in] *)

Section ForIn.

Context {A : Type}.

Lemma insert_indexed_perm (kv : string * A) (l : obj A) :
  Permutation (insert_indexed kv l) (kv :: l).
Proof.
  induction l as [|kv' l IH]; simpl; [apply Permutation_refl|].
  destruct (index_of kv <=? index_of kv')%N; [apply Permutation_refl|].
  eapply Permutation_trans; [apply perm_skip, IH|apply perm_swap].
Qed.

Lemma sort_indexed_perm (l : obj A) :
  Permutation (fold_right insert_indexed [] l) l.
Proof.
  induction l as [|kv l IH]; simpl; [apply Permutation_refl|].
  eapply Permutation_trans; [apply insert_indexed_perm|apply perm_skip, IH].
Qed.

Lemma filter_split_perm (p : string * A -> bool) (l : obj A) :
  Permutation (filter p l ++ filter (fun x => negb (p x)) l) l.
Proof.
  induction l as [|x l IH]; simpl; [apply Permutation_refl|].
  destruct (p x); simpl.
  - apply perm_skip, IH.
  - eapply Permutation_trans; [apply Permutation_sym, Permutation_middle|].
    apply perm_skip, IH.
Qed.

Lemma for_in_perm (o : obj A) : Permutation (for_in o) o.
Proof.
  unfold for_in.
  eapply Permutation_trans; [|apply (filter_split_perm indexed)].
  apply Permutation_app_tail, sort_indexed_perm.
Qed.

Lemma keys_for_in_perm (o : obj A) : Permutation (keys (for_in o)) (keys o).
Proof. unfold keys. apply Permutation_map, for_in_perm. Qed.


Lemma NoDup_keys_for_in (o : obj A) :
  NoDup (keys o) -> NoDup (keys (for_in o)).
Proof.
  apply Permutation_NoDup, Permutation_sym, keys_for_in_perm.
Qed.


Lemma get_insert_indexed (k : string) (kv : string * A) (l : obj A) :
  get k (insert_indexed kv l)
  = if fst kv =? k then Some (snd kv) else get k l.
Proof.
  destruct kv as [k0 v0]. cbn [fst snd].
  induction l as [|[k1 v1] l IH]; [reflexivity|].
  cbn [insert_indexed].
  destruct (index_of (k0, v0) <=? index_of (k1, v1))%N eqn:Hle;
    [reflexivity|].
  cbn [get]. rewrite IH.
  destruct (String.eqb_spec k1 k) as [->|Hk1]; [|reflexivity].
  destruct (String.eqb_spec k0 k) as [->|Hk0]; [|reflexivity].
  unfold index_of in Hle. cbn [fst] in Hle.
  rewrite N.leb_refl in Hle. discriminate.
Qed.

Lemma get_sort_indexed (k : string) (l : obj A) :
  get k (fold_right insert_indexed [] l) = get k l.
Proof.
  induction l as [|[k0 v0] l IH]; [reflexivity|].
  cbn [fold_right]. rewrite get_insert_indexed, IH. reflexivity.
Qed.

Lemma get_filter_name (p : string -> bool) (k : string) (o : obj A) :
  get k (filter (fun kv => p (fst kv)) o) = if p k then get k o else None.
Proof.
  induction o as [|[k0 v0] o IH]; cbn [filter get fst].
  - destruct (p k); reflexivity.
  - destruct (p k0) eqn:Hp0; cbn [get];
      destruct (String.eqb_spec k0 k) as [E|Hk]; try exact IH.
    + subst k0. rewrite Hp0. reflexivity.
    + subst k0. rewrite IH, Hp0. reflexivity.
Qed.

Lemma get_app (k : string) (a b : obj A) :
  get k (a ++ b) = match get k a with Some v => Some v | None => get k b end.
Proof.
  induction a as [|[k0 v0] a IH]; simpl; [reflexivity|].
  destruct (k0 =? k); [reflexivity|exact IH].
Qed.

(** Enumeration changes the order, not what a name holds. *)
Lemma get_for_in (k : string) (o : obj A) : get k (for_in o) = get k o.
Proof.
  unfold for_in. rewrite get_app, get_sort_indexed.
  pose (p := fun n : string =>
               match array_index n with Some _ => true | None => false end).
  change (filter indexed o) with (filter (fun kv => p (fst kv)) o).
  change (filter (fun kv => negb (indexed kv)) o)
    with (filter (fun kv => negb (p (fst kv))) o).
  rewrite (get_filter_name p), (get_filter_name (fun n => negb (p n))).
  destruct (p k); cbn [negb]; [destruct (get k o)|]; reflexivity.
Qed.




End ForIn.





Lemma sapp_nil_r (a : string) : (a ++ EmptyString)%string = a.
Proof. induction a as [|x a IH]; simpl; [reflexivity|]. rewrite IH. reflexivity. Qed.

Lemma length_sapp (a b : string) :
  String.length (a ++ b) = (String.length a + String.length b)%nat.
Proof. induction a as [|x a IH]; simpl; [reflexivity|]. rewrite IH. reflexivity. Qed.

(** ** Text: [split], [encodeURIComponent] and [decodeURIComponent] *)

Lemma has_char_app (c : ascii) (a b : string) :
  Str.has_char c (a ++ b) = Str.has_char c a || Str.has_char c b.
Proof.
  induction a as [|x a IH]; simpl; [reflexivity|].
  rewrite IH. apply orb_assoc.
Qed.

Lemma split_nonempty (c : ascii) (s : string) : split c s <> [].
Proof.
  destruct s as [|a r]; simpl; [discriminate|].
  destruct (Ascii.eqb a c); [discriminate|].
  destruct (split c r); discriminate.
Qed.

Lemma split_no_separator (c : ascii) (s : string) :
  Str.has_char c s = false -> split c s = [s].
Proof.
  induction s as [|a r IH]; simpl; [reflexivity|].
  destruct (Ascii.eqb a c); simpl; [discriminate|].
  intros H. rewrite IH by exact H. reflexivity.
Qed.

Lemma split_app (c : ascii) (a b : string) :
  Str.has_char c a = false ->
  split c (a ++ String c b) = a :: split c b.
Proof.
  induction a as [|x a IH]; simpl.
  - intros _. rewrite Ascii.eqb_refl. reflexivity.
  - destruct (Ascii.eqb x c); simpl; [discriminate|].
    intros H. rewrite IH by exact H. reflexivity.
Qed.

Lemma split_join (c : ascii) (parts : list string) :
  parts <> [] ->
  Forall (fun p => Str.has_char c p = false) parts ->
  split c (Str.join (String c EmptyString) parts) = parts.
Proof.
  unfold Str.join. induction parts as [|p ps IH]; [congruence|].
  intros _ Hall. inversion Hall as [|? ? Hp Hps]; subst.
  destruct ps as [|q qs].
  - simpl. apply split_no_separator, Hp.
  - change (String.concat (String c EmptyString) (p :: q :: qs))
      with (p ++ String c (String.concat (String c EmptyString) (q :: qs)))%string.
    rewrite split_app by exact Hp.
    rewrite IH; [reflexivity|discriminate|exact Hps].
Qed.

Lemma encodeURIComponent_cons (c : ascii) (r : string) :
  Str.encodeURIComponent (String c r)
  = (Str.encodeURIComponent (String c EmptyString) ++ Str.encodeURIComponent r)%string.
Proof. simpl. destruct (Str.unreserved c); reflexivity. Qed.

Ltac each_ascii c :=
  destruct c as [[] [] [] [] [] [] [] []].

(** The three delimiters of a query string never occur in encoded text. *)
Lemma encoded_char_free (c : ascii) :
  Str.has_char "&" (Str.encodeURIComponent (String c EmptyString)) = false
  /\ Str.has_char "=" (Str.encodeURIComponent (String c EmptyString)) = false
  /\ Str.has_char "+" (Str.encodeURIComponent (String c EmptyString)) = false.
Proof. each_ascii c; vm_compute; auto. Qed.

Lemma encoded_free (s : string) :
  Str.has_char "&" (Str.encodeURIComponent s) = false
  /\ Str.has_char "=" (Str.encodeURIComponent s) = false
  /\ Str.has_char "+" (Str.encodeURIComponent s) = false.
Proof.
  induction s as [|c r IH]; [simpl; auto|].
  rewrite encodeURIComponent_cons, !has_char_app.
  destruct (encoded_char_free c) as (A & B & C), IH as (A' & B' & C').
  rewrite A, B, C, A', B', C'. auto.
Qed.


Lemma unescape_encoded_char (c : ascii) (r : string) :
  unescape (Str.encodeURIComponent (String c EmptyString) ++ r)
  = match unescape r with
    | Some l => Some ((c, negb (Str.unreserved c)) :: l)
    | None => None
    end.
Proof. each_ascii c; reflexivity. Qed.

Lemma unescape_encoded (s : string) :
  unescape (Str.encodeURIComponent s)
  = Some (map (fun c => (c, negb (Str.unreserved c))) (list_ascii_of_string s)).
Proof.
  induction s as [|c r IH]; [reflexivity|].
  rewrite encodeURIComponent_cons, unescape_encoded_char, IH. reflexivity.
Qed.

Lemma encodeURIComponent_injective (a b : string) :
  Str.encodeURIComponent a = Str.encodeURIComponent b -> a = b.
Proof.
  intros H. apply (f_equal unescape) in H. rewrite !unescape_encoded in H.
  injection H as H. apply (f_equal (map fst)) in H.
  rewrite !map_map, !map_id in H.
  rewrite <- (string_of_list_ascii_of_string a),
          <- (string_of_list_ascii_of_string b), H.
  reflexivity.
Qed.

Lemma utf8_step_encoded (q : utf8_state) (c : ascii) :
  utf8_step q (c, negb (Str.unreserved c)) = utf8_step q (c, true).
Proof. destruct q; each_ascii c; reflexivity. Qed.

Lemma utf8_run_encoded (l : list ascii) :
  forall q,
    utf8_run q (map (fun c => (c, negb (Str.unreserved c))) l)
    = utf8_run q (map (fun c => (c, true)) l).
Proof.
  induction l as [|c l IH]; intros q; simpl; [reflexivity|].
  rewrite utf8_step_encoded.
  destruct (utf8_step q (c, true)); [apply IH|reflexivity].
Qed.

(** Decoding undoes encoding on every text whose octets are UTF-8, and
    raises on the others. *)
Lemma decode_encoded (s : string) :
  decodeURIComponent (Str.encodeURIComponent s)
  = if well_formed s then Done s else URIError.
Proof.
  unfold decodeURIComponent, well_formed.
  rewrite unescape_encoded, utf8_run_encoded.
  destruct (utf8_run Between _); [|reflexivity].
  rewrite map_map, map_id, string_of_list_ascii_of_string. reflexivity.
Qed.

Lemma plus_to_space_free (s : string) :
  Str.has_char "+" s = false -> plus_to_space s = s.
Proof.
  induction s as [|a r IH]; simpl; [reflexivity|].
  destruct (Ascii.eqb a "+"); simpl; [discriminate|].
  intros H. rewrite IH by exact H. reflexivity.
Qed.


Lemma split_pair (k v : string) :
  split "=" (Str.encodeURIComponent k ++ "=" ++ Str.encodeURIComponent v)
  = [Str.encodeURIComponent k; Str.encodeURIComponent v].
Proof.
  destruct (encoded_free k) as (_ & Hk & _), (encoded_free v) as (_ & Hv & _).
  change ("=" ++ Str.encodeURIComponent v)%string
    with (String "=" (Str.encodeURIComponent v)).
  rewrite split_app by exact Hk.
  rewrite split_no_separator by exact Hv. reflexivity.
Qed.

Lemma pair_free (k v : string) :
  Str.has_char "&" (Str.encodeURIComponent k ++ "=" ++ Str.encodeURIComponent v)
  = false.
Proof.
  destruct (encoded_free k) as (Hk & _), (encoded_free v) as (Hv & _).
  rewrite !has_char_app, Hk, Hv. reflexivity.
Qed.

Lemma getUriEncodedVar_text (env : Env) (name : string) (v : value) :
  getUriEncodedVar env name (if is_undefined v then VStr EmptyString else v)
  = (Str.encodeURIComponent name ++ "="
     ++ Str.encodeURIComponent (param_text env v))%string.
Proof. destruct v as [| |[]| | |]; reflexivity. Qed.

(** ** Payload order *)

Section Ordering.

Variable env : Env.

Lemma getUriEncodedVar_undefined (name : string) (v : value) :
  getUriEncodedVar env name (if is_undefined v then VStr EmptyString else v)
  = getUriEncodedVar env name v.
Proof. destruct v; reflexivity. Qed.

Lemma take_priority_spec (names : list string) :
  NoDup names ->
  forall d,
    take_priority env names d
    = (map (pair_of env d) (filter (fun n => has n d) names),
       delete_all names d).
Proof.
  induction 1 as [|n names Hnotin Hnd IH]; intros d; simpl.
  - f_equal. unfold delete_all. simpl.
    induction d as [|kv d IHd]; simpl; congruence.
  - unfold has at 1. destruct (get n d) as [v|] eqn:Hget.
    + rewrite IH, delete_all_cons. f_equal. simpl. f_equal.
      * unfold pair_of, read. rewrite Hget.
        apply getUriEncodedVar_undefined.
      * assert (Hother : forall n', In n' names ->
                   get n' (delete n d) = get n' d).
        { intros n' Hin. apply get_delete_other. congruence. }
        rewrite (filter_ext_in (fun n0 => has n0 (delete n d))
                               (fun n0 => has n0 d)).
        2:{ intros n' Hin. unfold has. rewrite Hother; auto. }
        apply map_ext_in. intros n' Hin. apply filter_In in Hin.
        unfold pair_of, read. rewrite Hother; tauto.
    + rewrite IH, <- delete_all_cons, delete_absent; auto.
Qed.

End Ordering.

Lemma nth_replace_nth {A : Type} (n : nat) (x dflt : A) (l : list A) :
  nth n (replace_nth n x l) dflt = if (n <? length l)%nat then x else dflt.
Proof.
  revert n. induction l as [|y l IH]; intros [|n]; simpl; auto.
Qed.

Lemma read_write_heap (r : nat) (names : list string) (st : State) :
  read_heap r (write_heap r (delete_all names (read_heap r st)) st)
  = delete_all names (read_heap r st).
Proof.
  unfold read_heap, write_heap. simpl. rewrite nth_replace_nth.
  destruct (Nat.ltb_spec r (length (heap st))) as [Hlt|Hge]; auto.
  rewrite (nth_overflow (heap st) []) by lia. reflexivity.
Qed.

Lemma beacon_params_ordered (env : Env) (st : State) (data : nat) :
  NoDup (keys (varPriority_first st)) ->
  NoDup (keys (varPriority_last st)) ->
  returned (beacon_params env data st)
  = Some (ordered_params env (priority_names (varPriority_first st))
            (priority_names (varPriority_last st)) (read_heap data st)).
Proof.
  intros HF HL. apply NoDup_keys_for_in in HF, HL. unfold priority_names.
  set (F := keys (for_in (varPriority_first st))) in *.
  set (L := keys (for_in (varPriority_last st))) in *.
  set (d := read_heap data st).
  unfold beacon_params, bind, getVarsOfPriority.
  change ((-1 =? 0)%Z) with false. change ((-1 =? -1)%Z) with true.
  change ((1 =? 0)%Z) with false. change ((1 =? -1)%Z) with false.
  change ((1 =? 1)%Z) with true. change ((0 =? 0)%Z) with true.
  cbv iota. fold F d. rewrite (take_priority_spec env F HF d).
  set (st1 := write_heap data (delete_all F d) st).
  assert (Hr1 : read_heap data st1 = delete_all F d)
    by apply read_write_heap.
  change (varPriority_last st1) with (varPriority_last st). fold L.
  rewrite Hr1, (take_priority_spec env L HL).
  pose proof (read_write_heap data L st1) as Hr2. rewrite Hr1 in Hr2.
  cbv iota beta. rewrite Hr2.
  unfold ret, returned, ordered_params, priority_first, priority_last, remaining.
  f_equal. f_equal. f_equal.
  - unfold take_all. apply map_ext. intros [k v]. simpl.
    apply getUriEncodedVar_undefined.
  - rewrite (filter_ext_in (fun n => has n (delete_all F d))
                           (fun n => has n d && negb (mem n F))).
    2:{ intros n _. unfold has. rewrite get_delete_all.
        destruct (mem n F), (get n d); reflexivity. }
    apply map_ext_in. intros n Hin. apply filter_In in Hin.
    destruct Hin as [_ Hin]. apply andb_true_iff in Hin. destruct Hin as [_ Hm].
    unfold pair_of, read. rewrite get_delete_all.
    destruct (mem n F); [discriminate|reflexivity].
Qed.


(** The priority lists keep their names apart: [setVarPriority] never
    enters a name twice. *)
Lemma keys_set_NoDup {A : Type} (k : string) (v : A) (o : obj A) :
  NoDup (keys o) -> NoDup (keys (set k v o)).
Proof.
  unfold keys. induction o as [|[k0 v0] o IH]; simpl; intros H.
  - constructor; [tauto|constructor].
  - inversion H as [|x l Hnotin Hnd]; subst.
    destruct (String.eqb_spec k0 k) as [->|Hne]; simpl.
    + constructor; assumption.
    + constructor; [|apply IH; assumption].
      intros Hin. apply Hnotin. clear - Hin Hne.
      induction o as [|[k1 v1] o IHo]; simpl in *.
      * destruct Hin as [Hin|[]]. congruence.
      * destruct (String.eqb_spec k1 k) as [->|Hk]; simpl in *; tauto.
Qed.

Lemma setVarPriority_keeps_names_apart (name : string) (pri : value) (st : State) :
  NoDup (keys (varPriority_first st)) -> NoDup (keys (varPriority_last st)) ->
  NoDup (keys (varPriority_first (final (setVarPriority name pri st))))
  /\ NoDup (keys (varPriority_last (final (setVarPriority name pri st)))).
Proof.
  intros HF HL. unfold setVarPriority.
  destruct pri; simpl; auto.
  destruct (Z.abs n =? 1)%Z; simpl; auto.
  destruct (n =? -1)%Z; simpl; auto using keys_set_NoDup.
Qed.





(** ** Frames: what a step leaves alone *)

Section Frames.

Context {X : Type} (proj : State -> X).

Lemma preserves_ret {A : Type} (a : A) : preserves proj (ret a).
Proof. intros st. reflexivity. Qed.

Lemma preserves_throw {A : Type} : preserves proj (@throw A).
Proof. intros st. reflexivity. Qed.

Lemma preserves_gets {A : Type} (f : State -> A) : preserves proj (gets f).
Proof. intros st. reflexivity. Qed.

Lemma preserves_modify (f : State -> State) :
  (forall st, proj (f st) = proj st) -> preserves proj (modify f).
Proof. intros H st. apply H. Qed.

Lemma preserves_bind {A B : Type} (m : M A) (k : A -> M B) :
  preserves proj m -> (forall a, preserves proj (k a)) ->
  preserves proj (bind m k).
Proof.
  intros Hm Hk st. unfold bind. specialize (Hm st).
  destruct (m st) as [a st'|st']; simpl in *.
  - rewrite Hk. exact Hm.
  - exact Hm.
Qed.

Lemma preserves_try_catch {A : Type} (m h : M A) :
  preserves proj m -> preserves proj h -> preserves proj (try_catch m h).
Proof.
  intros Hm Hh st. unfold try_catch. specialize (Hm st).
  destruct (m st) as [a st'|st']; simpl in *.
  - exact Hm.
  - rewrite Hh. exact Hm.
Qed.

End Frames.

Lemma total_ret {A : Type} (a : A) : total (ret a).
Proof. intros st. reflexivity. Qed.

Lemma total_gets {A : Type} (f : State -> A) : total (gets f).
Proof. intros st. reflexivity. Qed.

Lemma total_modify (f : State -> State) : total (modify f).
Proof. intros st. reflexivity. Qed.

Lemma total_bind {A B : Type} (m : M A) (k : A -> M B) :
  total m -> (forall a, total (k a)) -> total (bind m k).
Proof.
  intros Hm Hk st. unfold bind. specialize (Hm st).
  destruct (m st) as [a st'|st']; simpl in *; [apply Hk|discriminate].
Qed.

Ltac split_cases :=
  repeat match goal with
         | |- context [if ?b then _ else _] => destruct b
         | |- context [match ?x with _ => _ end] => destruct x
         end.

Ltac frame_step :=
  lazymatch goal with
  | |- preserves _ (bind _ _) => apply preserves_bind; [|intros ?]
  | |- preserves _ (ret _) => apply preserves_ret
  | |- preserves _ throw => apply preserves_throw
  | |- preserves _ (gets _) => apply preserves_gets
  | |- preserves _ (try_catch _ _) => apply preserves_try_catch
  | |- preserves _ (modify _) =>
      apply preserves_modify; intros ?; split_cases;
      first [reflexivity | solve [auto]]
  | |- preserves _ (when ?b _) => unfold when; destruct b
  | |- preserves _ (if ?b then _ else _) => destruct b
  | |- preserves _ (match ?x with _ => _ end) => destruct x
  end.

Ltac total_step :=
  lazymatch goal with
  | |- total (bind _ _) => apply total_bind; [|intros ?]
  | |- total (ret _) => apply total_ret
  | |- total (gets _) => apply total_gets
  | |- total (modify _) => apply total_modify
  | |- total (when ?b _) => unfold when; destruct b
  | |- total (if ?b then _ else _) => destruct b
  | |- total (match ?x with _ => _ end) => destruct x
  end.

(** Steps that only touch the variables, the heap, the error tally, the
    subscriber lists and the logs of calls and DOM events. *)
Section EventFrames.

Context {X : Type} (proj : State -> X).
Hypothesis proj_vars : forall v st, proj (with_vars v st) = proj st.
Hypothesis proj_heap : forall h st, proj (with_heap h st) = proj st.
Hypothesis proj_errors : forall x st, proj (with_errors x st) = proj st.
Hypothesis proj_events : forall e st, proj (with_events e st) = proj st.
Hypothesis proj_call : forall c st, proj (push_call c st) = proj st.
Hypothesis proj_dom : forall e st, proj (push_dom_event e st) = proj st.
Hypothesis proj_singles :
  forall x st, proj (with_singleBeaconVars x st) = proj st.

Variable env : Env.

Lemma set_var_pres k v : preserves proj (set_var k v).
Proof. unfold set_var. frame_step. Qed.

Lemma delete_var_pres k : preserves proj (delete_var k).
Proof. unfold delete_var. frame_step. Qed.

Lemma removeVar_pres params : preserves proj (removeVar params).
Proof. unfold removeVar. frame_step. Qed.

Lemma alloc_pres o : preserves proj (alloc o).
Proof. intros st. simpl. auto. Qed.

Lemma cleanupURL_pres url : preserves proj (cleanupURL env url).
Proof. unfold cleanupURL. repeat frame_step. Qed.

Lemma url_fields_pres spa : preserves proj (url_fields env spa).
Proof.
  unfold url_fields.
  frame_step; [frame_step|].
  frame_step; [frame_step; [apply set_var_pres|frame_step]|].
  frame_step; [frame_step|].
  frame_step; [apply cleanupURL_pres|].
  frame_step; [apply set_var_pres|].
  frame_step; [frame_step|].
  frame_step; [frame_step; [apply set_var_pres|frame_step]|].
  frame_step; [frame_step|].
  frame_step; [frame_step; [apply delete_var_pres|frame_step]|].
  frame_step; [|apply delete_var_pres].
  frame_step; [apply cleanupURL_pres|apply set_var_pres].
Qed.

Lemma clear_single_use_pres : preserves proj clear_single_use.
Proof.
  unfold clear_single_use.
  frame_step; [apply removeVar_pres|].
  frame_step; [frame_step|].
  frame_step; [|frame_step].
  match goal with |- preserves _ (fold_right _ _ ?l) => induction l as [|n l IH] end;
    simpl.
  - frame_step.
  - frame_step; [apply removeVar_pres|exact IH].
Qed.

Lemma elapsed_since_pres t k : preserves proj (elapsed_since env t k).
Proof.
  unfold elapsed_since. destruct t; [|frame_step].
  frame_step; [apply set_var_pres|frame_step].
Qed.

(** The derived fields, for an observation that does not see the beacon
    counter. *)
Lemma derived_fields_pres :
  (forall n st, proj (with_beaconsSent n st) = proj st) ->
  preserves proj (derived_fields env).
Proof.
  intros proj_sent. unfold derived_fields.
  frame_step; [apply set_var_pres|].
  frame_step.
  { frame_step; [|frame_step].
    repeat (frame_step; [apply set_var_pres|]). apply set_var_pres. }
  frame_step.
  { frame_step; [|frame_step].
    frame_step; [apply set_var_pres|].
    frame_step; apply elapsed_since_pres. }
  frame_step; [apply set_var_pres|].
  frame_step; [apply set_var_pres|].
  frame_step; [frame_step; [apply set_var_pres|frame_step]|].
  frame_step; [apply preserves_modify; intros st; apply proj_sent|].
  frame_step; [frame_step|].
  frame_step; [apply set_var_pres|].
  frame_step; [frame_step; [apply set_var_pres|frame_step]|].
  frame_step; [frame_step|].
  frame_step; [frame_step; [apply set_var_pres|frame_step]|].
  apply preserves_modify. intros st. apply proj_errors.
Qed.

Lemma addError_pres err src : preserves proj (addError env err src).
Proof.
  unfold addError. destruct (errors_plugin env); [frame_step|].
  apply preserves_modify. intros st. apply proj_errors.
Qed.

Lemma write_data_pres d o st : proj (write_data d o st) = proj st.
Proof. destruct d; simpl; auto. unfold write_heap. auto. Qed.

Lemma call_handler_pres e d i h : preserves proj (call_handler env e d i h).
Proof.
  unfold call_handler.
  frame_step; [apply preserves_modify; intros st; apply proj_call|].
  frame_step; [frame_step|]. frame_step.
  frame_step; [apply preserves_modify; apply write_data_pres|].
  frame_step; [apply addError_pres|frame_step].
Qed.

Lemma call_handlers_pres e d hs :
  forall i, preserves proj (call_handlers env e d i hs).
Proof.
  induction hs as [|h hs IH]; intros i; simpl.
  - frame_step.
  - frame_step; [apply call_handler_pres|apply IH].
Qed.

(** An event fired with a flush that is itself framed. *)
Lemma fireEvent_with_pres flush e d :
  preserves proj flush -> preserves proj (fireEvent_with env flush e d).
Proof.
  intros Hflush. unfold fireEvent_with.
  frame_step; [frame_step|]. frame_step; [frame_step|].
  frame_step.
  { frame_step; [apply preserves_modify; intros st; apply proj_dom|frame_step]. }
  frame_step.
  { frame_step; [frame_step; [exact Hflush|frame_step]|frame_step]. }
  frame_step; [frame_step|].
  frame_step; [apply call_handlers_pres|].
  apply preserves_modify. intros st. apply proj_events.
Qed.

Lemma getVarsOfPriority_pres data pri :
  preserves proj (getVarsOfPriority env data pri).
Proof.
  intros st. unfold getVarsOfPriority.
  destruct (pri =? 0)%Z; [reflexivity|].
  destruct (pri =? -1)%Z.
  { destruct (take_priority env _ _). simpl. unfold write_heap. auto. }
  destruct (pri =? 1)%Z; [|reflexivity].
  destruct (take_priority env _ _). simpl. unfold write_heap. auto.
Qed.

Lemma beacon_params_pres data : preserves proj (beacon_params env data).
Proof.
  unfold beacon_params.
  repeat (frame_step; [apply getVarsOfPriority_pres|]). frame_step.
Qed.

End EventFrames.

Section CoordinatorFrames.

Variable env : Env.

Lemma alloc_frame o : preserves coord_sent (alloc o).
Proof. apply alloc_pres; reflexivity. Qed.

Lemma fireEvent_with_frame flush e d :
  preserves coord_sent flush ->
  preserves coord_sent (fireEvent_with env flush e d).
Proof. apply fireEvent_with_pres; reflexivity. Qed.

Lemma beacon_params_frame data : preserves coord_sent (beacon_params env data).
Proof. apply beacon_params_pres; reflexivity. Qed.

Lemma no_flush_frame : preserves coord_sent (ret false : M bool).
Proof. frame_step. Qed.

Lemma sendXhrPostBeacon_frame ctx body :
  preserves coord_sent (sendXhrPostBeacon env ctx body).
Proof. unfold sendXhrPostBeacon. repeat frame_step. Qed.

Lemma sendBeaconData_frame data : preserves coord_sent (sendBeaconData env data).
Proof.
  unfold sendBeaconData.
  frame_step; [frame_step|]. frame_step; [frame_step|].
  frame_step; [frame_step|]. frame_step; [frame_step|].
  frame_step; [frame_step|]. frame_step; [frame_step|].
  frame_step; [apply fireEvent_with_frame, no_flush_frame|].
  frame_step; [apply beacon_params_frame|].
  frame_step; [repeat frame_step|].
  frame_step; [frame_step|].
  frame_step; [repeat frame_step|].
  frame_step; [frame_step|].
  frame_step; [repeat frame_step|].
  frame_step; [|frame_step].
  frame_step; apply sendXhrPostBeacon_frame.
Qed.

Lemma url_fields_frame spa : preserves coord_sent (url_fields env spa).
Proof. apply url_fields_pres; reflexivity. Qed.

Lemma clear_single_use_frame : preserves coord_sent clear_single_use.
Proof. apply clear_single_use_pres; reflexivity. Qed.

(** The derived fields leave the coordinator's own fields alone, count
    one more beacon, and never raise. *)
Lemma counts_ret {A : Type} (a : A) : counts 0 (ret a).
Proof.
  intros st. exists a, st. repeat split. symmetry. apply Z.add_0_r.
Qed.

Lemma counts_gets {A : Type} (f : State -> A) : counts 0 (gets f).
Proof.
  intros st. exists (f st), st. repeat split. symmetry. apply Z.add_0_r.
Qed.

Lemma counts_modify (d : Z) (f : State -> State) :
  (forall st, coord (f st) = coord st
              /\ beaconsSent (f st) = (beaconsSent st + d)%Z) ->
  counts d (modify f).
Proof. intros H st. exists tt, (f st). split; [reflexivity|apply H]. Qed.

Lemma counts_bind {A B : Type} (a b c : Z) (m : M A) (k : A -> M B) :
  counts a m -> (forall x, counts b (k x)) -> c = (a + b)%Z ->
  counts c (bind m k).
Proof.
  intros Hm Hk -> st. destruct (Hm st) as [x [st1 [E1 [C1 S1]]]].
  destruct (Hk x st1) as [y [st2 [E2 [C2 S2]]]].
  exists y, st2. unfold bind. rewrite E1, E2. repeat split.
  - congruence.
  - rewrite S2, S1. symmetry. apply Z.add_assoc.
Qed.

Lemma counts_set_var k v : counts 0 (set_var k v).
Proof.
  unfold set_var. apply counts_modify. intros st. split; [reflexivity|].
  simpl. symmetry. apply Z.add_0_r.
Qed.

Lemma counts_when b m : counts 0 m -> counts 0 (when b m).
Proof. intros H. destruct b; simpl; [exact H|apply counts_ret]. Qed.

Lemma counts_seq {A B : Type} (m : M A) (k : M B) :
  counts 0 m -> counts 0 k -> counts 0 (bind m (fun _ => k)).
Proof. intros Hm Hk. eapply counts_bind; eauto. Qed.

Lemma counts_elapsed_since t k : counts 0 (elapsed_since env t k).
Proof.
  unfold elapsed_since. destruct t; [|apply counts_ret].
  apply counts_when, counts_set_var.
Qed.

Lemma derived_fields_counts : counts 1 (derived_fields env).
Proof.
  unfold derived_fields.
  eapply counts_bind; [apply counts_set_var|intros _|].
  eapply counts_bind;
    [apply counts_when; repeat apply counts_seq; apply counts_set_var
    |intros _|].
  eapply counts_bind;
    [apply counts_when; repeat apply counts_seq;
     first [apply counts_set_var|apply counts_elapsed_since]
    |intros _|].
  eapply counts_bind; [apply counts_set_var|intros _|].
  eapply counts_bind; [apply counts_set_var|intros _|].
  eapply counts_bind; [apply counts_when, counts_set_var|intros _|].
  eapply (counts_bind 1 0);
    [apply counts_modify; intros st; split; reflexivity|intros _|].
  eapply counts_bind; [apply counts_gets|intros n|].
  eapply counts_bind; [apply counts_set_var|intros _|].
  eapply counts_bind; [apply counts_when, counts_set_var|intros _|].
  eapply counts_bind; [apply counts_gets|intros errs|].
  eapply counts_bind; [apply counts_when, counts_set_var|intros _|].
  apply (counts_modify 0). intros st. split; [reflexivity|].
  simpl. symmetry. apply Z.add_0_r.
  all: reflexivity.
Qed.

End CoordinatorFrames.

(** ** Steps that always return *)

Section Totality.

Variable env : Env.

Lemma total_alloc o : total (alloc o).
Proof. intros st. reflexivity. Qed.

Lemma total_addError err src : total (addError env err src).
Proof. unfold addError. repeat total_step. Qed.

Lemma total_call_handler e d i h : total (call_handler env e d i h).
Proof.
  unfold call_handler. total_step; [total_step|].
  total_step; [total_step|]. total_step.
  total_step; [total_step|]. total_step; [apply total_addError|total_step].
Qed.

Lemma total_call_handlers e d hs : forall i, total (call_handlers env e d i hs).
Proof.
  induction hs as [|h hs IH]; intros i; simpl.
  - total_step.
  - total_step; [apply total_call_handler|apply IH].
Qed.

Lemma total_fireEvent_with flush e d :
  total flush -> total (fireEvent_with env flush e d).
Proof.
  intros Hflush. unfold fireEvent_with.
  total_step; [total_step|]. total_step; [total_step|].
  total_step; [repeat total_step|].
  total_step.
  { total_step; [total_step; [exact Hflush|total_step]|total_step]. }
  total_step; [total_step|].
  total_step; [apply total_call_handlers|total_step].
Qed.

Lemma total_removeVar params : total (removeVar params).
Proof. unfold removeVar. total_step. Qed.

Lemma total_clear_single_use : total clear_single_use.
Proof.
  unfold clear_single_use.
  total_step; [apply total_removeVar|].
  total_step; [total_step|].
  total_step; [|total_step].
  match goal with |- total (fold_right _ _ ?l) => induction l as [|n l IH] end;
    simpl.
  - total_step.
  - total_step; [apply total_removeVar|exact IH].
Qed.

Lemma counts_of_total {A : Type} (m : M A) :
  total m -> preserves coord_sent m -> counts 0 m.
Proof.
  intros Ht Hp st. specialize (Ht st). specialize (Hp st).
  destruct (m st) as [a st'|st']; [|discriminate].
  exists a, st'. simpl in Hp.
  pose proof (f_equal fst Hp) as Hc. pose proof (f_equal snd Hp) as Hs.
  simpl in Hc, Hs. repeat split; auto.
  rewrite Hs. symmetry. apply Z.add_0_r.
Qed.

Lemma counts_before_beacon :
  counts 0 (fireEvent_with env (ret false) "before_beacon" DLive).
Proof.
  apply counts_of_total.
  - apply total_fireEvent_with, total_ret.
  - apply fireEvent_with_frame, no_flush_frame.
Qed.

Lemma counts_clear_single_use : counts 0 clear_single_use.
Proof.
  apply counts_of_total;
    [apply total_clear_single_use|apply clear_single_use_frame].
Qed.

Lemma counts_alloc o : counts 0 (alloc o).
Proof. apply counts_of_total; [apply total_alloc|apply alloc_frame]. Qed.

End Totality.

(** ** Running a sequence step by step *)

Lemma bind_gets {A B : Type} (f : State -> A) (k : A -> M B) (st : State) :
  bind (gets f) k st = k (f st) st.
Proof. reflexivity. Qed.

Lemma bind_modify {B : Type} (f : State -> State) (k : unit -> M B) (st : State) :
  bind (modify f) k st = k tt (f st).
Proof. reflexivity. Qed.

Lemma bind_ret {A B : Type} (a : A) (k : A -> M B) (st : State) :
  bind (ret a) k st = k a st.
Proof. reflexivity. Qed.

Lemma bind_normal {A B : Type} (m : M A) (k : A -> M B) (st st' : State) (a : A) :
  m st = Normal a st' -> bind m k st = k a st'.
Proof. intros H. unfold bind. rewrite H. reflexivity. Qed.

Lemma bind_thrown {A B : Type} (m : M A) (k : A -> M B) (st st' : State) :
  m st = Thrown st' -> bind m k st = Thrown st'.
Proof. intros H. unfold bind. rewrite H. reflexivity. Qed.

Lemma bind_assoc {A B C : Type} (m : M A) (k : A -> M B) (h : B -> M C)
    (st : State) :
  bind (bind m k) h st = bind m (fun a => bind (k a) h) st.
Proof. unfold bind. destruct (m st); reflexivity. Qed.

Lemma final_then_ret {A B : Type} (m : M A) (b : B) (st : State) :
  final (bind m (fun _ => ret b) st) = final (m st).
Proof. unfold bind. destruct (m st); reflexivity. Qed.

Lemma coord_fields (a b : State) :
  coord a = coord b ->
  beaconQueued a = beaconQueued b /\ flushes a = flushes b
  /\ tasks a = tasks b
  /\ hasSentPageLoadBeacon a = hasSentPageLoadBeacon b
  /\ beacon_url_override a = beacon_url_override b.
Proof. unfold coord. intros H. injection H as -> -> -> -> ->. auto. Qed.

Lemma coord_sent_fields (a b : State) :
  coord_sent a = coord_sent b -> coord a = coord b /\ beaconsSent a = beaconsSent b.
Proof. unfold coord_sent. intros H. injection H as H1 H2. unfold coord. split; congruence. Qed.

Ltac trivial_run st :=
  simpl; unfold keep; destruct (hasSentPageLoadBeacon st); simpl;
  repeat match goal with |- _ /\ _ => split end;
  auto; try lia; try congruence;
  try (exists 0%nat; symmetry; apply app_nil_r).

(** What one run of [real_sendBeacon] does to the coordinator's fields. *)
Lemma real_sendBeacon_effect (env : Env) (st : State) :
  let st' := final (real_sendBeacon env st) in
  beaconQueued st' = false
  /\ flushes st' = (flushes st + (if beaconQueued st then 1 else 0))%nat
  /\ beacon_url_override st' = beacon_url_override st
  /\ beaconsSent st'
     = (beaconsSent st + (if reaches_bookkeeping env st then 1 else 0))%Z
  /\ hasSentPageLoadBeacon st'
     = hasSentPageLoadBeacon st || sets_latch env st
  /\ exists ref,
       tasks st'
       = tasks st ++ (if sets_latch env st
                      then [TaskFirePageLoadBeacon ref] else []).
Proof.
  intros st'. subst st'. unfold real_sendBeacon, sets_latch, reaches_bookkeeping.
  rewrite bind_gets.
  destruct (beaconQueued st) eqn:Hq; cbn [negb andb]; cbv iota.
  2:{ trivial_run st. }
  rewrite !bind_modify. fold (after_guard st). rewrite bind_gets.
  change (vars (after_guard st)) with (vars st).
  destruct (plugins_complete env (vars st)) eqn:Hp; cbn [negb andb]; cbv iota.
  2:{ trivial_run st. }
  destruct (dom_available env) eqn:Hd; cbn [negb andb]; cbv iota.
  2:{ trivial_run st. }
  pose proof (url_fields_frame env (isSPA (vars st)) (after_guard st)) as Hu.
  destruct (url_fields env (isSPA (vars st)) (after_guard st)) as [[] s2|s2] eqn:Eu;
    simpl in Hu; apply coord_sent_fields in Hu; destruct Hu as [Hu Su];
    apply coord_fields in Hu; destruct Hu as (Q2 & F2 & T2 & L2 & O2);
    simpl in Q2, F2, T2, L2, O2, Su; unfold keep in *.
  2:{ rewrite (bind_thrown _ _ _ _ Eu). simpl final.
      rewrite Q2, F2, T2, L2, O2, Su. trivial_run st. }
  rewrite (bind_normal _ _ _ _ _ Eu).
  destruct (derived_fields_counts env s2) as [[] [s3 [E3 [C3 S3]]]].
  rewrite (bind_normal _ _ _ _ _ E3).
  destruct (counts_before_beacon env s3) as [[] [s4 [E4 [C4 S4]]]].
  rewrite (bind_normal _ _ _ _ _ E4). rewrite bind_gets.
  destruct (counts_alloc (vars s4) s4) as [ref [s5 [E5 [C5 S5]]]].
  rewrite (bind_normal _ _ _ _ _ E5).
  destruct (counts_clear_single_use s5) as [[] [s6 [E6 [C6 S6]]]].
  rewrite (bind_normal _ _ _ _ _ E6). rewrite bind_gets.
  apply coord_fields in C3, C4, C5, C6.
  destruct C3 as (Q3 & F3 & T3 & L3 & O3), C4 as (Q4 & F4 & T4 & L4 & O4),
    C5 as (Q5 & F5 & T5 & L5 & O5), C6 as (Q6 & F6 & T6 & L6 & O6).
  assert (HL : hasSentPageLoadBeacon s6 = hasSentPageLoadBeacon st) by congruence.
  rewrite HL. cbn [raised negb andb]. rewrite andb_true_r.
  set (c := negb (hasSentPageLoadBeacon st) && isPageLoad (vars st)).
  set (s7 := if c then push_task (TaskFirePageLoadBeacon ref)
                         (with_hasSentPageLoadBeacon true s6) else s6).
  assert (E7 : when c (modify (with_hasSentPageLoadBeacon true);;;
                       setImmediate (TaskFirePageLoadBeacon ref)) s6
               = Normal tt s7).
  { unfold s7. destruct c; reflexivity. }
  rewrite (bind_normal _ _ _ _ _ E7).
  assert (Hfin : coord_sent (final ((if rate_limited env then ret false
                   else sendBeaconData env ref;;; ret true) s7)) = coord_sent s7).
  { destruct (rate_limited env); [reflexivity|].
    rewrite final_then_ret. apply sendBeaconData_frame. }
  apply coord_sent_fields in Hfin. destruct Hfin as [Hfin Sfin].
  apply coord_fields in Hfin. destruct Hfin as (Qf & Ff & Tf & Lf & Of).
  rewrite Qf, Ff, Tf, Lf, Of, Sfin.
  assert (Q7 : beaconQueued s7 = beaconQueued s6) by (unfold s7; destruct c; reflexivity).
  assert (F7 : flushes s7 = flushes s6) by (unfold s7; destruct c; reflexivity).
  assert (O7 : beacon_url_override s7 = beacon_url_override s6)
    by (unfold s7; destruct c; reflexivity).
  assert (S7 : beaconsSent s7 = beaconsSent s6) by (unfold s7; destruct c; reflexivity).
  assert (L7 : hasSentPageLoadBeacon s7 = hasSentPageLoadBeacon s6 || c)
    by (unfold s7; destruct c; simpl; [rewrite orb_true_r|rewrite orb_false_r];
        reflexivity).
  assert (T7 : tasks s7 = tasks s6 ++ (if c then [TaskFirePageLoadBeacon ref] else []))
    by (unfold s7; destruct c; simpl; [|rewrite app_nil_r]; reflexivity).
  repeat match goal with |- _ /\ _ => split end.
  - congruence.
  - rewrite F7, F6, F5, F4, F3, F2. lia.
  - congruence.
  - rewrite S7, S6, S5, S4, S3, Su. lia.
  - rewrite L7. congruence.
  - exists ref. rewrite T7. congruence.
Qed.

(** ** Coalescing of flush requests *)

Lemma real_sendBeacon_idle (env : Env) (st : State) :
  beaconQueued st = false -> real_sendBeacon env st = Normal false st.
Proof.
  intros H. unfold real_sendBeacon. rewrite bind_gets, H. reflexivity.
Qed.

Lemma fireEvent_idle (env : Env) (e : string) (d : event_data) (st : State) :
  beaconQueued st = false ->
  fireEvent env e d st = fireEvent_with env (ret false) e d st.
Proof.
  intros H. unfold fireEvent, fireEvent_with. rewrite !bind_gets.
  destruct (negb (has (canonical e) (events st))); [reflexivity|].
  destruct (get (canonical e) public_events) as [p|].
  - rewrite !bind_modify.
    destruct (negb (canonical e =? "before_beacon") && negb (canonical e =? "beacon"));
      [|reflexivity].
    unfold bind. rewrite real_sendBeacon_idle by exact H. reflexivity.
  - rewrite !bind_ret.
    destruct (negb (canonical e =? "before_beacon") && negb (canonical e =? "beacon"));
      [|reflexivity].
    unfold bind. rewrite real_sendBeacon_idle by exact H. reflexivity.
Qed.

Lemma fireEvent_idle_frame (env : Env) (e : string) (d : event_data) (st : State) :
  beaconQueued st = false ->
  coord_sent (final (fireEvent env e d st)) = coord_sent st.
Proof.
  intros H. rewrite fireEvent_idle by exact H.
  apply fireEvent_with_frame, no_flush_frame.
Qed.

Lemma sendBeacon_effect (a : option string) (st : State) :
  let st' := final (sendBeacon a st) in
  returned (sendBeacon a st) = Some true
  /\ beaconQueued st' = true
  /\ tasks st' = tasks st ++ (if beaconQueued st then [] else [TaskRealSendBeacon])
  /\ flushes st' = flushes st
  /\ wire st' = wire st
  /\ beaconsSent st' = beaconsSent st.
Proof.
  unfold sendBeacon.
  destruct a as [u|]; [destruct (negb (u =? EmptyString))|];
    rewrite ?bind_modify, ?bind_ret, bind_gets; simpl;
    destruct (beaconQueued st) eqn:Hq; simpl; rewrite ?app_nil_r; auto 10.
Qed.

Lemma sendBeacon_each_queued (args : list (option string)) :
  forall st,
    beaconQueued st = true ->
    let st' := sendBeacon_each args st in
    beaconQueued st' = true /\ tasks st' = tasks st /\ flushes st' = flushes st.
Proof.
  induction args as [|a args IH]; intros st Hq; simpl; auto.
  destruct (sendBeacon_effect a st) as (_ & Q & T & F & _).
  rewrite Hq, app_nil_r in T.
  destruct (IH _ Q) as (Q' & T' & F'). repeat split; congruence.
Qed.

Lemma run_tasks_done (env : Env) (fuel : nat) (st : State) :
  tasks st = [] -> run_tasks env fuel st = st.
Proof. intros H. destruct fuel; simpl; [|rewrite H]; reflexivity. Qed.

Lemma run_tasks_step (env : Env) (fuel : nat) (st : State) (t : task)
    (rest : list task) :
  tasks st = t :: rest ->
  run_tasks env (S fuel) st = run_tasks env fuel (run_next env st).
Proof. intros H. simpl. rewrite H. reflexivity. Qed.

Lemma sendBeacon_queued (a : option string) (st : State) :
  beaconQueued st = true -> sendBeacon a st = Normal true (store_override a st).
Proof.
  intros Hq. unfold sendBeacon, store_override.
  destruct a as [u|]; [destruct (u =? EmptyString)|]; cbn [negb];
    rewrite ?bind_modify, ?bind_ret, bind_gets; simpl; rewrite Hq; reflexivity.
Qed.

Lemma sendBeacon_override (a : option string) (st : State) :
  beacon_url_override (final (sendBeacon a st))
  = beacon_url_override (store_override a st).
Proof.
  unfold sendBeacon, store_override.
  destruct a as [u|]; [destruct (u =? EmptyString)|]; cbn [negb];
    rewrite ?bind_modify, ?bind_ret, bind_gets; simpl;
    destruct (beaconQueued st); reflexivity.
Qed.

Lemma sendBeacon_each_override (args : list (option string)) :
  forall st,
    beacon_url_override (sendBeacon_each args st)
    = last_override args (beacon_url_override st).
Proof.
  induction args as [|a args IH]; intros st; [reflexivity|].
  cbn [sendBeacon_each fold_left last_override].
  change (fold_left (fun s a0 => final (sendBeacon a0 s)) args
            (final (sendBeacon a st)))
    with (sendBeacon_each args (final (sendBeacon a st))).
  rewrite IH, sendBeacon_override. unfold store_override, last_override.
  destruct a as [u|]; [destruct (u =? EmptyString)|]; reflexivity.
Qed.

Lemma sendBeacon_each_quiet (args : list (option string)) :
  forall st, wire (sendBeacon_each args st) = wire st
             /\ beaconsSent (sendBeacon_each args st) = beaconsSent st.
Proof.
  induction args as [|a args IH]; intros st; [split; reflexivity|].
  cbn [sendBeacon_each fold_left].
  change (fold_left (fun s a0 => final (sendBeacon a0 s)) args
            (final (sendBeacon a st)))
    with (sendBeacon_each args (final (sendBeacon a st))).
  destruct (sendBeacon_effect a st) as (_ & _ & _ & _ & W & N).
  destruct (IH (final (sendBeacon a st))) as [W' N']. split; congruence.
Qed.

(** *** The queue, run to its end *)

Section Queue.

Variable env : Env.

Lemma flushed_frame (a a' b b' : State) :
  coord_sent a' = coord_sent a -> coord_sent b' = coord_sent b ->
  flushed a' b -> flushed a b'.
Proof.
  intros Ha Hb (Q & F & N & extra & T & Hl).
  apply coord_sent_fields in Ha, Hb. destruct Ha as [Ha Na], Hb as [Hb Nb].
  apply coord_fields in Ha, Hb.
  destruct Ha as (Qa & Fa & Ta & _), Hb as (Qb & Fb & Tb & _).
  unfold flushed. rewrite Qb, Fb, Nb, Tb, <- Fa, <- Na, <- Ta.
  split; [exact Q|]. split; [exact F|]. split; [exact N|].
  exists extra. split; assumption.
Qed.

Lemma real_sendBeacon_flushed (st : State) :
  beaconQueued st = true -> flushed st (final (real_sendBeacon env st)).
Proof.
  intros Hq.
  destruct (real_sendBeacon_effect env st) as (Q & F & _ & N & _ & [ref T]).
  rewrite Hq in F. unfold flushed.
  split; [exact Q|]. split; [rewrite F; lia|]. split.
  - rewrite N. destruct (reaches_bookkeeping env st); lia.
  - eexists. split; [exact T|]. destruct (sets_latch env st); simpl; lia.
Qed.

Lemma after_flush_frame (c : string) (d : event_data) :
  preserves coord_sent
    (handlers <- gets (handlers_of c) ;;
     call_handlers env c d 0 handlers ;;;
     modify (fun st =>
       with_events
         (set c (filter (fun h => negb (once h)) (handlers_of c st)) (events st))
         st)).
Proof.
  frame_step; [frame_step|].
  frame_step; [apply call_handlers_pres; reflexivity|frame_step].
Qed.

(** An event fired while a flush is queued forces that flush, unless the
    event is not registered or is one of the two the flush fires. *)
Lemma fireEvent_queued (e : string) (d : event_data) (st : State) :
  beaconQueued st = true ->
  coord_sent (final (fireEvent env e d st)) = coord_sent st
  \/ flushed st (final (fireEvent env e d st)).
Proof.
  intros Hq. unfold fireEvent, fireEvent_with. rewrite bind_gets.
  set (c := canonical e).
  destruct (has c (events st)); cbn [negb]; [|left; reflexivity].
  assert (Hgo : forall s1,
    coord_sent s1 = coord_sent st ->
    let r := bind (if negb (c =? "before_beacon") && negb (c =? "beacon")
                   then real_sendBeacon env ;;; ret tt else ret tt)
               (fun _ =>
                  handlers <- gets (handlers_of c) ;;
                  call_handlers env c d 0 handlers ;;;
                  modify (fun st =>
                    with_events
                      (set c (filter (fun h => negb (once h)) (handlers_of c st))
                           (events st)) st)) s1 in
    coord_sent (final r) = coord_sent st \/ flushed st (final r)).
  { intros s1 H1. cbv zeta.
    destruct (negb (c =? "before_beacon") && negb (c =? "beacon")).
    - right. rewrite bind_assoc.
      assert (Q1 : beaconQueued s1 = true).
      { apply coord_sent_fields in H1. destruct H1 as [H1 _].
        apply coord_fields in H1. destruct H1 as [H1 _]. congruence. }
      pose proof (real_sendBeacon_flushed s1 Q1) as Hf.
      destruct (real_sendBeacon env s1) as [b s2|s2] eqn:E2; cbn [final] in Hf.
      + rewrite (bind_normal _ _ _ _ _ E2), bind_ret.
        apply (flushed_frame st s1 s2); [exact H1| |exact Hf].
        apply after_flush_frame.
      + rewrite (bind_thrown _ _ _ _ E2). cbn [final].
        apply (flushed_frame st s1 s2); [exact H1|reflexivity|exact Hf].
    - left. rewrite bind_ret. rewrite <- H1. apply after_flush_frame. }
  destruct (get c public_events) as [p|]; rewrite ?bind_modify, ?bind_ret;
    apply Hgo; reflexivity.
Qed.

Lemma run_task_idle (t : task) (st : State) :
  beaconQueued st = false ->
  coord_sent (final (run_task env t st)) = coord_sent st.
Proof.
  intros Hq. destruct t as [|ref|f a b c]; cbn [run_task].
  - assert (Ea : alloc [] st
                 = Normal (length (heap st)) (with_heap (heap st ++ [[]]) st))
      by reflexivity.
    rewrite (bind_normal _ _ _ _ _ Ea), final_then_ret.
    rewrite real_sendBeacon_idle by exact Hq. reflexivity.
  - assert (Ea : alloc [] st
                 = Normal (length (heap st)) (with_heap (heap st ++ [[]]) st))
      by reflexivity.
    rewrite (bind_normal _ _ _ _ _ Ea).
    rewrite fireEvent_idle_frame by exact Hq. reflexivity.
  - assert (Hp : preserves coord_sent (run_task env (TaskCallback f a b c))).
    { cbn [run_task]. frame_step.
      { frame_step; [frame_step|].
        frame_step; [apply alloc_frame|frame_step]. }
      frame_step; [frame_step|]. frame_step; frame_step. }
    apply Hp.
Qed.

Lemma run_task_queued (t : task) (st : State) :
  beaconQueued st = true ->
  (coord_sent (final (run_task env t st)) = coord_sent st
   /\ t <> TaskRealSendBeacon)
  \/ flushed st (final (run_task env t st)).
Proof.
  intros Hq. destruct t as [|ref|f a b c]; cbn [run_task].
  - right.
    assert (Ea : alloc [] st
                 = Normal (length (heap st)) (with_heap (heap st ++ [[]]) st))
      by reflexivity.
    rewrite (bind_normal _ _ _ _ _ Ea), final_then_ret.
    eapply (flushed_frame st (with_heap (heap st ++ [[]]) st));
      [reflexivity|reflexivity|].
    apply real_sendBeacon_flushed. exact Hq.
  - assert (Ea : alloc [] st
                 = Normal (length (heap st)) (with_heap (heap st ++ [[]]) st))
      by reflexivity.
    rewrite (bind_normal _ _ _ _ _ Ea).
    destruct (fireEvent_queued "page_load_beacon" (DRef ref)
                (with_heap (heap st ++ [[]]) st) Hq) as [H|H].
    + left. split; [exact H|discriminate].
    + right. eapply (flushed_frame st (with_heap (heap st ++ [[]]) st));
        [reflexivity|reflexivity|exact H].
  - left. split; [|discriminate].
    assert (Hp : preserves coord_sent (run_task env (TaskCallback f a b c))).
    { cbn [run_task]. frame_step.
      { frame_step; [frame_step|].
        frame_step; [apply alloc_frame|frame_step]. }
      frame_step; [frame_step|]. frame_step; frame_step. }
    apply Hp.
Qed.

(** With no flush queued the queue runs dry without flushing. *)
Lemma drain_idle (fuel : nat) :
  forall st,
    beaconQueued st = false -> (length (tasks st) <= fuel)%nat ->
    let s := run_tasks env fuel st in
    tasks s = [] /\ beaconQueued s = false /\ flushes s = flushes st
    /\ beaconsSent s = beaconsSent st.
Proof.
  induction fuel as [|fuel IH]; intros st Hq Hl; cbn [run_tasks].
  - destruct (tasks st); [auto|simpl in Hl; lia].
  - destruct (tasks st) as [|t rest] eqn:Ht; [auto|].
    unfold run_next. rewrite Ht.
    pose proof (run_task_idle t (with_tasks rest st) Hq) as Hf.
    apply coord_sent_fields in Hf. destruct Hf as [Hf N].
    apply coord_fields in Hf. destruct Hf as (Q & F & T & _).
    cbn in Q, F, T, N. unfold keep in *.
    destruct (IH (final (run_task env t (with_tasks rest st)))) as (A & B & C & D).
    + congruence.
    + rewrite T. simpl in Hl. lia.
    + cbv zeta in *. repeat split; congruence.
Qed.

(** With a flush queued and its task pending, the queue runs dry and the
    flush runs exactly once. *)
Lemma drain_queued (fuel : nat) :
  forall st,
    beaconQueued st = true -> In TaskRealSendBeacon (tasks st) ->
    (length (tasks st) + 1 <= fuel)%nat ->
    let s := run_tasks env fuel st in
    tasks s = [] /\ beaconQueued s = false /\ flushes s = S (flushes st)
    /\ (beaconsSent st <= beaconsSent s <= beaconsSent st + 1)%Z.
Proof.
  induction fuel as [|fuel IH]; intros st Hq Hin Hl; [lia|].
  cbn [run_tasks].
  destruct (tasks st) as [|t rest] eqn:Ht; [contradiction|].
  unfold run_next. rewrite Ht. simpl in Hl.
  destruct (run_task_queued t (with_tasks rest st) Hq) as [[Hf Hne]|Hf].
  - apply coord_sent_fields in Hf. destruct Hf as [Hf N].
    apply coord_fields in Hf. destruct Hf as (Q & F & T & _).
    cbn in Q, F, T, N. unfold keep in *.
    destruct (IH (final (run_task env t (with_tasks rest st)))) as (A & B & C & D).
    + congruence.
    + rewrite T. destruct Hin as [Hin|Hin]; [congruence|exact Hin].
    + rewrite T. lia.
    + cbv zeta in *. rewrite F, N in *. auto.
  - destruct Hf as (Q & F & N & extra & T & He).
    cbn in F, N, T. unfold keep in *.
    destruct (drain_idle fuel (final (run_task env t (with_tasks rest st))))
      as (A & B & C & D).
    + exact Q.
    + rewrite T, length_app. lia.
    + cbv zeta in *. rewrite C, D. auto.
Qed.

End Queue.

(** A second request, made while the first is queued and carrying an
    override, is not a no-op: it schedules nothing, but the one flush that
    runs goes to the override and not to the configured URL. *)
Lemma override_while_queued_redirects :
  beaconQueued requested_once = true
  /\ tasks requested_again = tasks requested_once
  /\ requested_again <> requested_once
  /\ beacon_url_override requested_once = None
  /\ beacon_url_override requested_again = Some "http://other.example/o"
  /\ wire (run_tasks plain_env 5 requested_once)
     = [ViaImage "http://b.example/b?u=http%3A%2F%2Fsite.example%2F&v=1.0&ua.plt=p&ua.vnd=v&n=1"]
  /\ wire (run_tasks plain_env 5 requested_again)
     = [ViaImage "http://other.example/o?u=http%3A%2F%2Fsite.example%2F&v=1.0&ua.plt=p&ua.vnd=v&n=1"].
Proof.
  repeat split. intros H. apply (f_equal beacon_url_override) in H.
  discriminate H.
Qed.

(** C2, amended.  Calling [sendBeacon] N >= 1 times in a row, from a state
    with no beacon queued, schedules [real_sendBeacon] exactly once: the
    first call sets the flag and schedules the flush, the others find the
    flag set and schedule nothing.  They are not all no-ops, though: a call
    that carries an override stores it, also while the flag is set, so the
    override in force when the flush runs is the last one given by any of
    the calls; a call without override made while the flag is set changes
    nothing.  No flush runs during the calls.  Running the task queue
    afterwards, whatever else is pending in it, empties it and executes the
    flush exactly once: one run past the guard, and at most one beacon
    number taken.  A [real_sendBeacon] that finds the flag cleared returns
    [false] and changes nothing. *)
Theorem sendBeacon_coalesces (env : Env) (args : list (option string)) (st : State) :
  (1 <= length args)%nat ->
  beaconQueued st = false ->
  let st' := sendBeacon_each args st in
  tasks st' = tasks st ++ [TaskRealSendBeacon]
  /\ beaconQueued st' = true
  /\ flushes st' = flushes st
  /\ wire st' = wire st
  /\ beaconsSent st' = beaconsSent st
  /\ beacon_url_override st' = last_override args (beacon_url_override st)
  /\ (forall a s, beaconQueued s = true ->
        sendBeacon a s = Normal true (store_override a s))
  /\ (forall fuel, (length (tasks st) + 2 <= fuel)%nat ->
        let s := run_tasks env fuel st' in
        tasks s = [] /\ beaconQueued s = false
        /\ flushes s = S (flushes st)
        /\ (beaconsSent st <= beaconsSent s <= beaconsSent st + 1)%Z)
  /\ (forall s, beaconQueued s = false -> real_sendBeacon env s = Normal false s).
Proof.
  intros Hn Hq st'.
  destruct args as [|a args]; [simpl in Hn; lia|].
  assert (Ho : beacon_url_override st'
               = last_override (a :: args) (beacon_url_override st))
    by apply sendBeacon_each_override.
  destruct (sendBeacon_each_quiet (a :: args) st) as [W N]. fold st' in W, N.
  subst st'. cbn [sendBeacon_each fold_left] in *.
  change (fold_left (fun s a0 => final (sendBeacon a0 s)) args
            (final (sendBeacon a st)))
    with (sendBeacon_each args (final (sendBeacon a st))) in *.
  destruct (sendBeacon_effect a st) as (_ & Q1 & T1 & F1 & _).
  rewrite Hq in T1.
  destruct (sendBeacon_each_queued args _ Q1) as (Q & T & F).
  rewrite T1 in T. rewrite F1 in F.
  set (sq := sendBeacon_each args (final (sendBeacon a st))) in *.
  split; [exact T|]. split; [exact Q|]. split; [exact F|].
  split; [exact W|]. split; [exact N|]. split; [exact Ho|].
  split; [intros a0 s; apply sendBeacon_queued|].
  split; [|intros s; apply real_sendBeacon_idle].
  intros fuel Hfuel.
  destruct (drain_queued env fuel sq Q) as (A & B & C & D).
  - rewrite T. apply in_or_app. right. left. reflexivity.
  - rewrite T, length_app. simpl. lia.
  - cbv zeta. rewrite F, N in *. auto.
Qed.

Lemma sendBeacon_coalesces_witness :
  (1 <= length [None; Some "http://other.example/"; None])%nat
  /\ beaconQueued init_state = false
  /\ tasks (sendBeacon_each [None; Some "http://other.example/"; None] init_state)
     = tasks init_state ++ [TaskRealSendBeacon].
Proof.
  assert (Hn : (1 <= length [None; Some "http://other.example/"; None])%nat)
    by (simpl; lia).
  split; [exact Hn|split; [reflexivity|]].
  exact (proj1 (sendBeacon_coalesces plain_env
                  [None; Some "http://other.example/"; None] init_state
                  Hn eq_refl)).
Defined.

(** ** Transport *)

Lemma returns_preserving {A X : Type} (proj : State -> X) (m : M A) :
  total m -> preserves proj m ->
  forall st, exists a st', m st = Normal a st' /\ proj st' = proj st.
Proof.
  intros Ht Hp st. specialize (Ht st). specialize (Hp st).
  destruct (m st) as [a st'|st']; [|discriminate].
  exists a, st'. split; auto.
Qed.

Lemma total_getVarsOfPriority env data pri : total (getVarsOfPriority env data pri).
Proof.
  intros st. unfold getVarsOfPriority.
  destruct (pri =? 0)%Z; [reflexivity|].
  destruct (pri =? -1)%Z; [destruct (take_priority env _ _); reflexivity|].
  destruct (pri =? 1)%Z; [destruct (take_priority env _ _)|]; reflexivity.
Qed.

Lemma total_beacon_params env data : total (beacon_params env data).
Proof.
  unfold beacon_params.
  repeat (total_step; [apply total_getVarsOfPriority|]). total_step.
Qed.

Lemma sendXhrPostBeacon_spec env ctx body st :
  let r := sendXhrPostBeacon env ctx body st in
  (exists t,
     wire (final r) = wire st ++ [t]
     /\ goes_to (beacon_url st) t
     /\ xhr_attempts [t] = [(ctx, xhr_faults env ctx)])
  /\ raised r = faulty (xhr_faults env ctx)
  /\ beacon_url (final r) = beacon_url st
  /\ beacon_url_override (final r) = beacon_url_override st.
Proof.
  unfold sendXhrPostBeacon. rewrite bind_gets.
  destruct (xhr_faults env ctx) eqn:Hf; destruct (beacon_auth_token env);
    rewrite ?bind_assoc, ?bind_modify, ?bind_gets, ?bind_ret;
    try destruct (beacon_auth_key st); simpl;
    (split; [eexists; repeat split|auto]).
Qed.

Lemma prefix_app_self (a b : string) : exists q, (a ++ b)%string = (a ++ q)%string.
Proof. exists b. reflexivity. Qed.

Lemma sendBeaconData_transport (env : Env) (data : nat) (st : State) :
  let r := sendBeaconData env data st in
  beacon_url_override (final r) = beacon_url_override st
  /\ exists new,
       wire (final r) = wire st ++ new
       /\ Forall (goes_to (effective_url env (flush_target st))) new
       /\ retry_shape env new (raised r).
Proof.
  unfold sendBeaconData. rewrite bind_modify, bind_gets.
  set (s1 := with_beacon_url _ st).
  change (beacon_url s1) with (flush_target st).
  set (target := flush_target st).
  assert (Hnone : forall (b : bool) (s : State),
            route s = route s1 ->
            beacon_url_override (final (ret b s)) = beacon_url_override st
            /\ exists new, wire (final (ret b s)) = wire st ++ new
                 /\ Forall (goes_to (effective_url env target)) new
                 /\ retry_shape env new (raised (ret b s))).
  { intros b s Hs. unfold route in Hs. injection Hs as _ Hw Ho. simpl.
    split; [exact Ho|]. exists []. rewrite app_nil_r.
    split; [exact Hw|]. split; [constructor|]. left. reflexivity. }
  destruct (target =? EmptyString); [apply Hnone; reflexivity|].
  destruct (negb (beaconUrlAllowed env target)); [apply Hnone; reflexivity|].
  rewrite bind_gets.
  destruct (match get "length" (read_heap data s1) with
            | Some (VNum 0) => true | _ => false end);
    [apply Hnone; reflexivity|].
  destruct (returns_preserving route
              (fireEvent_with env (ret false) "beacon" (DRef data))) with (st := s1)
    as [[] [s2 [E2 R2]]].
  { apply total_fireEvent_with, total_ret. }
  { apply fireEvent_with_pres; try reflexivity. frame_step. }
  rewrite (bind_normal _ _ _ _ _ E2).
  destruct (returns_preserving route (beacon_params env data)) with (st := s2)
    as [params [s3 [E3 R3]]].
  { apply total_beacon_params. }
  { apply beacon_params_pres; reflexivity. }
  rewrite (bind_normal _ _ _ _ _ E3).
  set (burl := effective_url env target).
  set (s4 := if beacon_url_force_https env && prefix "//" target
             then with_beacon_url ("https:" ++ target)%string s3 else s3).
  assert (E4 : when (beacon_url_force_https env && prefix "//" target)
                    (modify (with_beacon_url ("https:" ++ target))) s3
               = Normal tt s4).
  { unfold s4. destruct (beacon_url_force_https env && prefix "//" target);
      reflexivity. }
  rewrite (bind_normal _ _ _ _ _ E4), bind_gets.
  assert (R13 : route s3 = route s1) by congruence.
  unfold route in R13. injection R13 as U3 W3 O3.
  change (beacon_url s1) with target in U3.
  change (wire s1) with (wire st) in W3.
  change (beacon_url_override s1) with (beacon_url_override st) in O3.
  assert (U4 : beacon_url s4 = burl).
  { unfold s4, burl, effective_url.
    destruct (beacon_url_force_https env && prefix "//" target); auto. }
  assert (W4 : wire s4 = wire st).
  { unfold s4. destruct (beacon_url_force_https env && prefix "//" target); auto. }
  assert (O4 : beacon_url_override s4 = beacon_url_override st).
  { unfold s4. destruct (beacon_url_force_https env && prefix "//" target); auto. }
  rewrite U4. clearbody s4. clear E4 E3 E2 R2 R3 Hnone.
  set (body := with_initiator (Str.join "&" params)).
  set (url := (burl ++ (if Str.has_char "?" burl then "&" else "?")
                    ++ Str.join "&" params)%string).
  set (useImg := if negb (xhr_available env) then true else _).
  assert (Htail : forall s pre,
            beacon_url s = burl -> wire s = wire st ++ pre ->
            beacon_url_override s = beacon_url_override st ->
            Forall (goes_to burl) pre -> xhr_attempts pre = [] ->
            let r := (if useImg
                      then if image_throws env then ret false
                           else modify (push_wire (ViaImage url));;; ret true
                      else try_catch (sendXhrPostBeacon env PrimaryWindow body)
                                     (sendXhrPostBeacon env BoomerangFrame body);;;
                           ret true) s in
            beacon_url_override (final r) = beacon_url_override st
            /\ exists new, wire (final r) = wire st ++ new
                 /\ Forall (goes_to burl) new
                 /\ retry_shape env new (raised r)).
  { intros s pre Us Ws Os Fpre Xpre. destruct useImg.
    - destruct (image_throws env); simpl.
      + split; [exact Os|]. exists pre. repeat split; auto. left. exact Xpre.
      + split; [exact Os|]. exists (pre ++ [ViaImage url]).
        rewrite Ws, app_assoc. split; [reflexivity|]. split.
        * apply Forall_app. split; auto. constructor; [|constructor].
          apply prefix_app_self.
        * left. unfold xhr_attempts in *. rewrite flat_map_app, Xpre.
          reflexivity.
    - unfold bind, try_catch.
      destruct (sendXhrPostBeacon_spec env PrimaryWindow body s)
        as ((tp & Wp & Gp & Xp) & Rp & Up & Op).
      rewrite Us in Gp.
      destruct (sendXhrPostBeacon env PrimaryWindow body s) as [[] sp|sp] eqn:Ep;
        simpl in Wp, Rp, Up, Op.
      + simpl. split; [congruence|]. exists (pre ++ [tp]).
        rewrite Wp, Ws, app_assoc. split; [reflexivity|]. split.
        * apply Forall_app. split; auto.
        * right. left. unfold xhr_attempts in *.
          rewrite flat_map_app, Xpre, Xp. simpl.
          split; [reflexivity|]. split; [symmetry; exact Rp|reflexivity].
      + destruct (sendXhrPostBeacon_spec env BoomerangFrame body sp)
          as ((tf & Wf & Gf & Xf) & Rf & Uf & Of).
        rewrite Up, Us in Gf.
        destruct (sendXhrPostBeacon env BoomerangFrame body sp) as [[] sf|sf] eqn:Ef;
          simpl in Wf, Rf, Uf, Of; simpl;
          (split; [congruence|]);
          exists (pre ++ [tp; tf]);
          rewrite Wf, Wp, Ws, <- !app_assoc;
          (split; [reflexivity|]);
          (split; [apply Forall_app; split; auto|]);
          right; right; unfold xhr_attempts in *;
          change [tp; tf] with ([tp] ++ [tf]);
          rewrite !flat_map_app, Xpre, Xp, Xf; simpl; auto. }
  assert (Hnil : Forall (goes_to burl) []) by constructor.
  destruct (native_sendBeacon env) as [enqueue|].
  2:{ rewrite bind_ret. cbv iota.
      apply (Htail s4 []); auto. rewrite app_nil_r. exact W4. }
  destruct (negb (beacon_type env =? "GET") &&
            match beacon_auth_token env with Some _ => false | None => true end &&
            negb (beacon_disable_sendbeacon env)).
  2:{ rewrite bind_ret. cbv iota.
      apply (Htail s4 []); auto. rewrite app_nil_r. exact W4. }
  rewrite bind_assoc, bind_modify, bind_ret.
  set (sb := ViaSendBeacon burl (body ++ "&sb=1")
               (enqueue burl (body ++ "&sb=1")%string)).
  destruct (enqueue burl (body ++ "&sb=1")%string) eqn:Hok.
  - simpl. split; [exact O4|]. exists [sb]. rewrite W4.
    split; [reflexivity|]. split.
    + constructor; [reflexivity|constructor].
    + left. reflexivity.
  - apply (Htail (push_wire sb s4) [sb]); auto.
    + simpl. rewrite W4. reflexivity.
    + constructor; [reflexivity|constructor].
Qed.

(** ** Variable store *)

Lemma has_set {A : Type} (k k' : string) (v : A) (o : obj A) :
  has k (set k' v o) = (k' =? k) || has k o.
Proof.
  unfold has. induction o as [|[k0 v0] o IH]; simpl.
  - destruct (k' =? k); reflexivity.
  - destruct (String.eqb_spec k0 k') as [->|Hne]; simpl.
    + destruct (k' =? k); reflexivity.
    + destruct (String.eqb_spec k0 k) as [->|Hk].
      * rewrite orb_true_r. reflexivity.
      * exact IH.
Qed.


Lemma has_delete_all (k : string) (names : list string) (d : obj value) :
  has k (delete_all names d) = has k d && negb (mem k names).
Proof.
  unfold has. rewrite get_delete_all.
  destruct (mem k names), (get k d); reflexivity.
Qed.

Lemma delete_all_nil (d : obj value) : delete_all [] d = d.
Proof.
  unfold delete_all. simpl. induction d as [|kv d IHd]; simpl; congruence.
Qed.

Lemma removeVar_vars (params : list string) (st : State) :
  vars (final (removeVar params st)) = delete_all params (vars st).
Proof.
  unfold removeVar. simpl. generalize (vars st) as d.
  induction params as [|n ps IH]; intros d; simpl.
  - symmetry. apply delete_all_nil.
  - rewrite <- delete_all_cons, <- IH. f_equal.
    unfold has. destruct (get n d) eqn:Hg; auto.
    symmetry. apply delete_absent. exact Hg.
Qed.

Lemma clear_single_use_vars (st : State) :
  vars (final (clear_single_use st))
  = delete_all (keys (singleBeaconVars st)) (delete_all ["qt"; "pgu"] (vars st)).
Proof.
  unfold clear_single_use.
  assert (E1 : removeVar ["qt"; "pgu"] st = Normal tt (final (removeVar ["qt"; "pgu"] st)))
    by reflexivity.
  rewrite (bind_normal _ _ _ _ _ E1), bind_gets.
  rewrite <- removeVar_vars.
  change (singleBeaconVars (final (removeVar ["qt"; "pgu"] st)))
    with (singleBeaconVars st).
  generalize (final (removeVar ["qt"; "pgu"] st)) as s.
  generalize (keys (singleBeaconVars st)) as names.
  induction names as [|n names IH]; intros s.
  - rewrite delete_all_nil. reflexivity.
  - cbn [fold_right].
    assert (En : removeVar [n] s = Normal tt (final (removeVar [n] s))) by reflexivity.
    rewrite bind_assoc, (bind_normal _ _ _ _ _ En).
    rewrite IH, removeVar_vars.
    unfold delete_all. rewrite filter_filter. apply filter_ext.
    intros [k v]. simpl. rewrite orb_false_r.
    destruct (k =? n), (existsb (String.eqb k) names); reflexivity.
Qed.



(** ** Event bus *)

Lemma strict_eq_refl (v : value) : strict_eq v v = true.
Proof.
  destruct v; simpl; auto.
  - destruct b; reflexivity.
  - apply Z.eqb_refl.
  - apply String.eqb_refl.
  - apply Nat.eqb_refl.
Qed.

Lemma get_set_same {A : Type} (k : string) (v : A) (o : obj A) :
  get k (set k v o) = Some v.
Proof.
  induction o as [|[k0 v0] o IH]; simpl.
  - rewrite String.eqb_refl. reflexivity.
  - destruct (String.eqb_spec k0 k) as [->|Hne]; simpl.
    + rewrite String.eqb_refl. reflexivity.
    + destruct (String.eqb_spec k0 k); [congruence|exact IH].
Qed.

Lemma subscribe_found (env : Env) (e : string) (f : nat) (d s o : value)
    (st : State) :
  has (canonical e) (events st) = true ->
  existsb (fun h => (fn h =? f)%nat && strict_eq (cb_data h) d
                    && strict_eq (scope h) s)
          (handlers_of (canonical e) st) = true ->
  subscribe env e f d s o st = Normal tt st.
Proof.
  intros Hreg Hex. unfold subscribe.
  rewrite bind_modify, Hreg, bind_gets, Hex. reflexivity.
Qed.

Lemma subscribe_registers (env : Env) (e : string) (f : nat) (d s o : value)
    (st : State) :
  truthy d = true -> truthy s = true \/ s = VNull ->
  let st1 := final (subscribe env e f d s o st) in
  has (canonical e) (events st1) = true
  /\ existsb (fun h => (fn h =? f)%nat && strict_eq (cb_data h) d
                       && strict_eq (scope h) s)
             (handlers_of (canonical e) st1) = true.
Proof.
  intros Hd Hs st1. subst st1. unfold subscribe.
  set (c := canonical e).
  set (same := fun h : handler =>
                 (fn h =? f)%nat && strict_eq (cb_data h) d && strict_eq (scope h) s).
  rewrite bind_modify, bind_gets.
  set (sa := if has c (events st) then st else with_events (set c [] (events st)) st).
  assert (Hreg : has c (events sa) = true).
  { unfold sa. destruct (has c (events st)) eqn:Hh; [exact Hh|].
    simpl. rewrite has_set, String.eqb_refl. reflexivity. }
  destruct (existsb same (handlers_of c sa)) eqn:Hex.
  - simpl final. split; assumption.
  - rewrite Hd, bind_ret, bind_modify.
    set (h := {| fn := f; cb_data := d; scope := or_else s VNull; once := truthy o |}).
    set (sb := with_events (set c (handlers_of c sa ++ [h]) (events sa)) sa).
    assert (Hsame : same h = true).
    { unfold same, h. simpl. rewrite Nat.eqb_refl, strict_eq_refl. simpl.
      destruct Hs as [Hs| ->]; [|reflexivity].
      unfold or_else. rewrite Hs. apply strict_eq_refl. }
    assert (Hdone : forall s' : State,
              events s' = events sb ->
              has c (events s') = true
              /\ existsb same (handlers_of c s') = true).
    { intros s' He. split.
      - rewrite He. unfold sb. simpl. rewrite has_set, String.eqb_refl.
        reflexivity.
      - assert (Hh : handlers_of c s' = handlers_of c sa ++ [h]).
        { unfold handlers_of at 1. rewrite He. unfold sb. simpl.
          rewrite get_set_same. reflexivity. }
        rewrite Hh, existsb_app. simpl. rewrite Hsame, orb_true_r. reflexivity. }
    destruct ((c =? "page_ready") && onloadfired env && autorun env);
      destruct ((c =? "page_unload") || (c =? "before_unload"));
      try destruct (c =? "page_unload");
      unfold setImmediate; rewrite ?bind_modify, ?bind_ret;
      simpl final; apply Hdone; reflexivity.
Qed.

(** Where the check of [subscribe] does work: the callback data is stored as
    it was given when it is truthy, and the scope when it is truthy or
    [null]; subscribing the same triple again is then a no-op. *)
Lemma subscribe_again_noop (env : Env) (e : string) (f : nat)
    (d s o : value) (st : State) :
  truthy d = true -> truthy s = true \/ s = VNull ->
  let st1 := final (subscribe env e f d s o st) in
  subscribe env e f d s o st1 = Normal tt st1.
Proof.
  intros Hd Hs st1.
  destruct (subscribe_registers env e f d s o st Hd Hs) as [Hreg Hex].
  apply subscribe_found; assumption.
Qed.

Lemma strict_eq_truthy (a b : value) :
  strict_eq a b = true -> truthy a = truthy b.
Proof.
  destruct a, b; simpl; try discriminate; auto.
  - intros H. apply Bool.eqb_prop in H. exact H.
  - intros H. apply Z.eqb_eq in H. subst. reflexivity.
  - intros H. apply String.eqb_eq in H. subst. reflexivity.
Qed.

(** Where it does not: callback data that is left out, or falsy, is never
    found again, because every stored record holds truthy data; each such
    call appends one more record, with a new object for the data. *)
Lemma subscribe_without_data_appends (env : Env) (e : string) (f : nat)
    (d s o : value) (st : State) :
  truthy d = false ->
  Forall (fun h => truthy (cb_data h) = true) (handlers_of (canonical e) st) ->
  handlers_of (canonical e) (final (subscribe env e f d s o st))
  = handlers_of (canonical e) st
      ++ [{| fn := f; cb_data := VObj (length (heap st));
             scope := or_else s VNull; once := truthy o |}].
Proof.
  intros Hd Hall. unfold subscribe.
  set (c := canonical e) in *.
  set (same := fun h : handler =>
                 (fn h =? f)%nat && strict_eq (cb_data h) d && strict_eq (scope h) s).
  rewrite bind_modify, bind_gets.
  set (sa := if has c (events st) then st else with_events (set c [] (events st)) st).
  assert (Hsa : handlers_of c sa = handlers_of c st).
  { unfold sa, handlers_of, has.
    destruct (get c (events st)) eqn:Hg; simpl; rewrite ?Hg, ?get_set_same;
      reflexivity. }
  assert (Hheap : heap sa = heap st).
  { unfold sa. destruct (has c (events st)); reflexivity. }
  assert (Hex : existsb same (handlers_of c sa) = false).
  { rewrite Hsa. clear - Hall Hd. induction Hall as [|h l Hh _ IH]; simpl; auto.
    rewrite IH, orb_false_r. unfold same.
    destruct (strict_eq (cb_data h) d) eqn:Heq.
    - apply strict_eq_truthy in Heq. congruence.
    - rewrite andb_false_r. reflexivity. }
  rewrite Hex, Hd.
  assert (Ea : alloc [] sa = Normal (length (heap sa)) (with_heap (heap sa ++ [[]]) sa))
    by reflexivity.
  rewrite bind_assoc, (bind_normal _ _ _ _ _ Ea), bind_ret, bind_modify.
  set (h := {| fn := f; cb_data := VObj (length (heap sa));
               scope := or_else s VNull; once := truthy o |}).
  set (sb := with_events _ _).
  assert (Hsb : handlers_of c sb = handlers_of c st ++ [h]).
  { unfold sb, handlers_of at 1. simpl. rewrite get_set_same.
    change (handlers_of c (with_heap (heap sa ++ [[]]) sa)) with (handlers_of c sa).
    rewrite Hsa. reflexivity. }
  rewrite <- Hheap. fold h. rewrite <- Hsb.
  destruct ((c =? "page_ready") && onloadfired env && autorun env);
    destruct ((c =? "page_unload") || (c =? "before_unload"));
    try destruct (c =? "page_unload");
    unfold setImmediate; rewrite ?bind_modify, ?bind_ret; reflexivity.
Qed.

(** C3. Subscribing the same callback twice for the same event with callback
    data and scope left out registers it twice, and one fire of the event
    calls it twice: the stored record holds a fresh object for the missing
    data and [null] for the missing scope, which the check compares with
    [undefined]. *)
Theorem subscribe_twice_calls_twice :
  map fn (handlers_of "spa_navigation" subscribed_once) = [7%nat]
  /\ map fn (handlers_of "spa_navigation" subscribed_twice) = [7%nat; 7%nat]
  /\ map c_fn (calls (final (fireEvent plain_env "spa_navigation" DOpaque
                               subscribed_twice)))
     = [7%nat; 7%nat].
Proof. repeat split. Qed.

(** ** The beacon counter *)

(** A rate-limited flush, and a flush on a page without beacon URL, send
    nothing and still take a beacon number. *)
Lemma rate_limited_flush_is_counted :
  returned (real_sendBeacon limited_env queued_state) = Some false
  /\ wire (final (real_sendBeacon limited_env queued_state)) = []
  /\ beaconsSent queued_state = 0%Z
  /\ beaconsSent (final (real_sendBeacon limited_env queued_state)) = 1%Z
  /\ beacon_url (with_beaconQueued true init_state) = EmptyString
  /\ wire (final (real_sendBeacon plain_env (with_beaconQueued true init_state))) = []
  /\ beaconsSent (final (real_sendBeacon plain_env (with_beaconQueued true init_state)))
     = 1%Z.
Proof. repeat split. Qed.

(** C4, amended.  [beaconsSent] never decreases.  A run of
    [real_sendBeacon] adds exactly one to it when the run gets past the
    queued guard, the readiness of the plugins, the check of the browser and
    the URL fields, and nothing otherwise; this happens before the rate
    limit and the beacon URL are looked at, so those do not matter.
    [sendBeaconData] itself never changes the counter. *)
Theorem beaconsSent_counts_bookkeeping (env : Env) (st : State) :
  beaconsSent (final (real_sendBeacon env st))
  = (beaconsSent st + (if reaches_bookkeeping env st then 1 else 0))%Z
  /\ (beaconsSent st <= beaconsSent (final (real_sendBeacon env st)))%Z
  /\ (forall data s, beaconsSent (final (sendBeaconData env data s)) = beaconsSent s).
Proof.
  destruct (real_sendBeacon_effect env st) as (_ & _ & _ & S & _).
  split; [exact S|]. split.
  - rewrite S. destruct (reaches_bookkeeping env st); lia.
  - intros data s. pose proof (sendBeaconData_frame env data s) as H.
    apply coord_sent_fields in H. tauto.
Qed.

(** ** The empty payload *)

(** C5. An empty snapshot is transmitted: the check reads the property
    [length] of the object, which a snapshot does not have.  With a GET-able
    URL the image is requested with an empty query, with POST the body is
    the page marker alone.  The same happens in a flush whose
    [before_beacon] subscriber has removed every variable.  The check only
    stops a snapshot that has a variable named [length] whose value is 0. *)
Theorem empty_snapshot_is_sent :
  returned (sendBeaconData plain_env 0 (snapshot_state [])) = Some true
  /\ wire (final (sendBeaconData plain_env 0 (snapshot_state [])))
     = [ViaImage "http://b.example/b?"]
  /\ wire (final (sendBeaconData post_env 0 (snapshot_state [])))
     = [ViaXhr PrimaryWindow "http://b.example/b" None false
               "&http.initiator=page" NoFault]
  /\ read_heap 1 (final (real_sendBeacon clearing_env watched_state)) = []
  /\ wire (final (real_sendBeacon clearing_env watched_state))
     = [ViaImage "http://b.example/b?"]
  /\ returned (sendBeaconData plain_env 0 (snapshot_state [("length", VNum 0)]))
     = Some false
  /\ wire (final (sendBeaconData plain_env 0 (snapshot_state [("length", VNum 0)])))
     = [].
Proof. repeat split. Qed.

(** ** The page marker *)

(** C9. A snapshot without an [http.initiator] variable but with the text
    [http.initiator] in a value is posted without the page marker: the test
    looks for the text in the joined parameters, not for the variable.  For
    a snapshot free of the text the marker is appended to the body that is
    posted and is absent from the image URL. *)
Theorem initiator_text_suppresses_marker :
  has "http.initiator" [("x", VStr "http.initiator")] = false
  /\ wire (final (sendBeaconData post_env 0
                    (snapshot_state [("x", VStr "http.initiator")])))
     = [ViaXhr PrimaryWindow "http://b.example/b" None false
               "x=http.initiator" NoFault]
  /\ wire (final (sendBeaconData post_env 0 (snapshot_state [("a", VNum 1)])))
     = [ViaXhr PrimaryWindow "http://b.example/b" None false
               "a=1&http.initiator=page" NoFault]
  /\ wire (final (sendBeaconData plain_env 0 (snapshot_state [("a", VNum 1)])))
     = [ViaImage "http://b.example/b?a=1"].
Proof. repeat split. Qed.

(** ** Where a flush sends *)

Section RouteFrames.

Variable env : Env.

Lemma route_steps :
  (forall spa, preserves route (url_fields env spa))
  /\ preserves route (derived_fields env)
  /\ preserves route (fireEvent_with env (ret false) "before_beacon" DLive)
  /\ preserves route clear_single_use.
Proof.
  split; [|split; [|split]].
  - intros spa. apply url_fields_pres; reflexivity.
  - apply derived_fields_pres; reflexivity.
  - apply fireEvent_with_pres; try reflexivity. frame_step.
  - apply clear_single_use_pres; reflexivity.
Qed.

(** A run of [real_sendBeacon] either stops before the transport or ends
    with [sendBeaconData] on the snapshot, called in a state that has the
    beacon URL, the override and the network log of the start. *)
Lemma real_sendBeacon_route (st : State) :
  exists s',
    route s' = route st
    /\ (final (real_sendBeacon env st) = s'
        \/ exists ref,
             final (real_sendBeacon env st) = final (sendBeaconData env ref s')).
Proof.
  destruct route_steps as (Hurl & Hder & Hfire & Hclear).
  unfold real_sendBeacon. rewrite bind_gets.
  destruct (beaconQueued st) eqn:Hq; cbn [negb]; cbv iota.
  2:{ exists st. split; [reflexivity|left; reflexivity]. }
  rewrite !bind_modify. fold (after_guard st). rewrite bind_gets.
  change (vars (after_guard st)) with (vars st).
  destruct (plugins_complete env (vars st)); cbn [negb]; cbv iota.
  2:{ exists (after_guard st). split; [reflexivity|left; reflexivity]. }
  destruct (dom_available env); cbn [negb]; cbv iota.
  2:{ exists (after_guard st). split; [reflexivity|left; reflexivity]. }
  pose proof (Hurl (isSPA (vars st)) (after_guard st)) as R2.
  destruct (url_fields env (isSPA (vars st)) (after_guard st)) as [[] s2|s2] eqn:Eu;
    simpl in R2.
  2:{ rewrite (bind_thrown _ _ _ _ Eu). exists s2.
      split; [exact R2|left; reflexivity]. }
  rewrite (bind_normal _ _ _ _ _ Eu).
  destruct (derived_fields_counts env s2) as [[] [s3 [E3 _]]].
  pose proof (Hder s2) as R3. rewrite E3 in R3. simpl in R3.
  rewrite (bind_normal _ _ _ _ _ E3).
  destruct (counts_before_beacon env s3) as [[] [s4 [E4 _]]].
  pose proof (Hfire s3) as R4. rewrite E4 in R4. simpl in R4.
  rewrite (bind_normal _ _ _ _ _ E4). rewrite bind_gets.
  destruct (counts_alloc (vars s4) s4) as [ref [s5 [E5 _]]].
  assert (R5 : route s5 = route s4).
  { unfold alloc in E5. injection E5 as _ <-. reflexivity. }
  rewrite (bind_normal _ _ _ _ _ E5).
  destruct (counts_clear_single_use s5) as [[] [s6 [E6 _]]].
  pose proof (Hclear s5) as R6. rewrite E6 in R6. simpl in R6.
  rewrite (bind_normal _ _ _ _ _ E6). rewrite bind_gets.
  set (c := negb (hasSentPageLoadBeacon s6) && isPageLoad (vars st)).
  set (s7 := if c then push_task (TaskFirePageLoadBeacon ref)
                         (with_hasSentPageLoadBeacon true s6) else s6).
  assert (E7 : when c (modify (with_hasSentPageLoadBeacon true);;;
                       setImmediate (TaskFirePageLoadBeacon ref)) s6
               = Normal tt s7).
  { unfold s7. destruct c; reflexivity. }
  rewrite (bind_normal _ _ _ _ _ E7).
  assert (R7 : route s7 = route s6) by (unfold s7; destruct c; reflexivity).
  assert (R1 : route (after_guard st) = route st) by reflexivity.
  exists s7. split; [congruence|].
  destruct (rate_limited env); [left; reflexivity|].
  right. exists ref. apply final_then_ret.
Qed.

(** Every transmission of a flush is addressed to the override when there
    is one, to [beacon_url] otherwise. *)
Lemma real_sendBeacon_destination (st : State) :
  exists new,
    wire (final (real_sendBeacon env st)) = wire st ++ new
    /\ Forall (goes_to (effective_url env (flush_target st))) new.
Proof.
  destruct (real_sendBeacon_route st) as [s' [R [E|[ref E]]]]; rewrite E;
    unfold route in R; injection R as U W O.
  - exists []. rewrite app_nil_r. split; [exact W|constructor].
  - destruct (sendBeaconData_transport env ref s') as (_ & new & Hw & Hall & _).
    exists new. rewrite Hw, W. split; [reflexivity|].
    replace (flush_target st) with (flush_target s'); [exact Hall|].
    unfold flush_target. rewrite U, O. reflexivity.
Qed.

End RouteFrames.

(** ** The override *)

(** An override given to one [sendBeacon]: the beacon of that flush and
    the beacon of the next one, requested without override, both go to
    it. *)
Lemma override_reaches_next_flush :
  beacon_url configured_state = "http://b.example/b"
  /\ wire after_override_flush
     = [ViaImage "http://override.example/o?u=http%3A%2F%2Fsite.example%2F&v=1.0&ua.plt=p&ua.vnd=v&n=1"]
  /\ wire after_next_flush
     = [ViaImage "http://override.example/o?u=http%3A%2F%2Fsite.example%2F&v=1.0&ua.plt=p&ua.vnd=v&n=1";
        ViaImage "http://override.example/o?u=http%3A%2F%2Fsite.example%2F&v=1.0&ua.plt=p&ua.vnd=v&n=2"]
  /\ beacon_url after_next_flush = "http://override.example/o"
  /\ beacon_url_override after_next_flush = Some "http://override.example/o".
Proof. repeat split. Qed.

(** C6, amended.  An override passed to [sendBeacon] is stored and never
    cleared: a later [sendBeacon] without override keeps it, a flush keeps
    it, and every transmission of every flush made while it is stored goes
    to the override (made https when it is protocol-relative and https is
    forced), not to the configured [beacon_url].  Only another override
    replaces it. *)
Theorem override_is_never_cleared (env : Env) (st : State) (u : string) :
  beacon_url_override st = Some u -> u <> EmptyString ->
  beacon_url_override (final (sendBeacon None st)) = Some u
  /\ beacon_url_override (final (real_sendBeacon env st)) = Some u
  /\ (exists new,
        wire (final (real_sendBeacon env st)) = wire st ++ new
        /\ Forall (goes_to (effective_url env u)) new)
  /\ (forall data,
        beacon_url_override (final (sendBeaconData env data st)) = Some u)
  /\ (forall u', u' <> EmptyString ->
        beacon_url_override (final (sendBeacon (Some u') st)) = Some u').
Proof.
  intros Ho Hu.
  assert (Ht : flush_target st = u).
  { unfold flush_target. rewrite Ho. apply String.eqb_neq in Hu. rewrite Hu.
    reflexivity. }
  split; [|split; [|split; [|split]]].
  - unfold sendBeacon. rewrite bind_ret, bind_gets.
    destruct (beaconQueued st); simpl; exact Ho.
  - destruct (real_sendBeacon_effect env st) as (_ & _ & O & _). congruence.
  - rewrite <- Ht. apply real_sendBeacon_destination.
  - intros data.
    destruct (sendBeaconData_transport env data st) as (O & _). congruence.
  - intros u' Hu'. unfold sendBeacon. apply String.eqb_neq in Hu'.
    rewrite Hu'. cbn [negb]. rewrite bind_modify, bind_gets.
    change (beaconQueued (with_beacon_url_override (Some u') st))
      with (beaconQueued st).
    destruct (beaconQueued st); reflexivity.
Qed.

Lemma override_is_never_cleared_witness :
  beacon_url_override after_override_flush = Some "http://override.example/o"
  /\ "http://override.example/o" <> EmptyString
  /\ beacon_url_override (final (sendBeacon None after_override_flush))
     = Some "http://override.example/o".
Proof.
  assert (Ho : beacon_url_override after_override_flush
               = Some "http://override.example/o") by reflexivity.
  assert (Hu : "http://override.example/o" <> EmptyString) by discriminate.
  split; [exact Ho|split; [exact Hu|]].
  exact (proj1 (override_is_never_cleared plain_env after_override_flush
                  "http://override.example/o" Ho Hu)).
Defined.

(** ** The page-load latch *)

Section Latch.

Variable env : Env.

Lemma latch_kept_refl st : latch_kept st st.
Proof. intros H. exact H. Qed.

Lemma latch_kept_trans a b c : latch_kept a b -> latch_kept b c -> latch_kept a c.
Proof. unfold latch_kept. auto. Qed.

Lemma latch_kept_frame a b : coord_sent b = coord_sent a -> latch_kept a b.
Proof.
  intros H. apply coord_sent_fields in H. destruct H as [H _].
  apply coord_fields in H. unfold latch_kept. intuition congruence.
Qed.

Lemma respects_of_preserves {A : Type} (m : M A) :
  preserves coord_sent m -> respects latch_kept m.
Proof. intros H st. apply latch_kept_frame, H. Qed.

Lemma respects_bind {A B : Type} (m : M A) (k : A -> M B) :
  respects latch_kept m -> (forall a, respects latch_kept (k a)) ->
  respects latch_kept (bind m k).
Proof.
  intros Hm Hk st. unfold bind. specialize (Hm st).
  destruct (m st) as [a st'|st']; simpl in *; [|exact Hm].
  eapply latch_kept_trans; [exact Hm|apply Hk].
Qed.

Lemma real_sendBeacon_latch_kept : respects latch_kept (real_sendBeacon env).
Proof.
  intros st H. destruct (real_sendBeacon_effect env st) as (_ & _ & _ & _ & L & _).
  rewrite L, H. reflexivity.
Qed.

Lemma fireEvent_latch_kept e d : respects latch_kept (fireEvent env e d).
Proof.
  unfold fireEvent, fireEvent_with.
  apply respects_bind; [apply respects_of_preserves; frame_step|intros registered].
  destruct (negb registered); [apply respects_of_preserves; frame_step|].
  apply respects_bind; [apply respects_of_preserves; repeat frame_step|intros _].
  apply respects_bind.
  { destruct (negb (canonical e =? "before_beacon") && negb (canonical e =? "beacon"));
      [|apply respects_of_preserves; frame_step].
    apply respects_bind; [apply real_sendBeacon_latch_kept|intros _].
    apply respects_of_preserves. frame_step. }
  intros _.
  apply respects_of_preserves.
  frame_step; [frame_step|].
  frame_step; [apply call_handlers_pres; reflexivity|frame_step].
Qed.

Lemma run_task_latch_kept t : respects latch_kept (run_task env t).
Proof.
  destruct t as [|ref|f a b c]; simpl.
  - apply respects_bind; [apply respects_of_preserves, alloc_frame|intros _].
    apply respects_bind; [apply real_sendBeacon_latch_kept|intros _].
    apply respects_of_preserves. frame_step.
  - apply respects_bind; [apply respects_of_preserves, alloc_frame|intros _].
    apply fireEvent_latch_kept.
  - apply respects_of_preserves.
    frame_step.
    { frame_step; [frame_step|].
      frame_step; [apply alloc_frame|frame_step]. }
    frame_step; [frame_step|]. frame_step; frame_step.
Qed.

Lemma run_next_latch_kept st : latch_kept st (run_next env st).
Proof.
  unfold run_next. destruct (tasks st) as [|t rest]; [apply latch_kept_refl|].
  eapply latch_kept_trans; [|apply run_task_latch_kept].
  intros H. exact H.
Qed.

Lemma run_tasks_latch_kept fuel : forall st, latch_kept st (run_tasks env fuel st).
Proof.
  induction fuel as [|fuel IH]; intros st; simpl; [apply latch_kept_refl|].
  destruct (tasks st) as [|t rest] eqn:Ht; [apply latch_kept_refl|].
  eapply latch_kept_trans; [apply run_next_latch_kept|apply IH].
Qed.

End Latch.

Lemma isPageLoad_cases (v : obj value) :
  isPageLoad v = true
  <-> read "http.initiator" v = VUndefined
      \/ read "http.initiator" v = VStr "spa"
      \/ read "http.initiator" v = VStr "spa_hard".
Proof.
  unfold isPageLoad, isSPA, inArray, BEACON_TYPE_SPAS.
  destruct (read "http.initiator" v) as [| |b|n|s|r]; cbn -[String.eqb];
    try (split; [discriminate|intros [H|[H|H]]; discriminate]).
  - split; auto.
  - rewrite !orb_false_r. split.
    + intros H. apply orb_true_iff in H.
      destruct H as [H|H]; apply String.eqb_eq in H; subst; auto.
    + intros [H|[H|H]]; try discriminate; injection H as <-;
        rewrite String.eqb_refl; auto using orb_true_r.
Qed.

(** A flush whose initiator is [spa] sets the latch and schedules the
    notification; a flush whose initiator is the empty string sends its
    beacon and does neither. *)
Lemma latch_set_by_spa_flush :
  hasSentPageLoadBeacon (flush_state [("http.initiator", VStr "spa")]) = false
  /\ hasSentPageLoadBeacon
       (final (real_sendBeacon plain_env (flush_state [("http.initiator", VStr "spa")])))
     = true
  /\ tasks (final (real_sendBeacon plain_env
                     (flush_state [("http.initiator", VStr "spa")])))
     = [TaskFirePageLoadBeacon 0]
  /\ wire (final (real_sendBeacon plain_env (flush_state [("http.initiator", VStr EmptyString)])))
     = [ViaImage "http://b.example/b?http.initiator=&u=http%3A%2F%2Fsite.example%2F&v=1.0&ua.plt=p&ua.vnd=v&n=1"]
  /\ hasSentPageLoadBeacon
       (final (real_sendBeacon plain_env (flush_state [("http.initiator", VStr EmptyString)])))
     = false
  /\ tasks (final (real_sendBeacon plain_env (flush_state [("http.initiator", VStr EmptyString)])))
     = [].
Proof. repeat split. Qed.

(** C7, amended.  [hasSentPageLoadBeacon] is a one-way latch: no flush, no
    event and nothing the task queue runs resets it.  Only a flush sets it,
    and only one that finds it unset, gets as far as the bookkeeping and
    whose variable [http.initiator] is undefined or names an SPA navigation
    ([spa], [spa_hard]); an empty string does not count, such a flush sets
    nothing.  The [page_load_beacon] notification is scheduled only by the
    flush that sets the latch, once; a flush that finds the latch set
    schedules nothing.  A flush that meets these conditions does set the
    latch and schedule the notification when nothing cuts it short: no
    subscriber of [before_beacon], and no map of the coordinator with a
    property named [hasOwnProperty]. *)
Theorem page_load_latch (env : Env) (st : State) :
  let st' := final (real_sendBeacon env st) in
  latch_kept st st'
  /\ (forall fuel, latch_kept st (run_tasks env fuel st))
  /\ (forall e d, latch_kept st (final (fireEvent env e d st)))
  /\ (hasSentPageLoadBeacon st = false -> hasSentPageLoadBeacon st' = true ->
      reaches_bookkeeping env st = true /\ isPageLoad (vars st) = true)
  /\ (isPageLoad (vars st) = true
      <-> read "http.initiator" (vars st) = VUndefined
          \/ read "http.initiator" (vars st) = VStr "spa"
          \/ read "http.initiator" (vars st) = VStr "spa_hard")
  /\ (read "http.initiator" (vars st) = VStr EmptyString ->
      hasSentPageLoadBeacon st' = hasSentPageLoadBeacon st
      /\ tasks st' = tasks st)
  /\ (tasks st' = tasks st
      \/ exists ref,
           tasks st' = tasks st ++ [TaskFirePageLoadBeacon ref]
           /\ hasSentPageLoadBeacon st = false
           /\ hasSentPageLoadBeacon st' = true)
  /\ (hasSentPageLoadBeacon st = true -> tasks st' = tasks st)
  /\ (sets_latch env st = true ->
      handlers_of "before_beacon" st = [] -> unshadowed st = true ->
      hasSentPageLoadBeacon st' = true
      /\ exists ref, tasks st' = tasks st ++ [TaskFirePageLoadBeacon ref]).
Proof.
  intros st'. subst st'.
  destruct (real_sendBeacon_effect env st) as (_ & _ & _ & _ & L & [ref T]).
  split; [apply real_sendBeacon_latch_kept|].
  split; [intros fuel; apply run_tasks_latch_kept|].
  split; [intros e d; apply fireEvent_latch_kept|].
  split.
  { intros H0 H1. rewrite L, H0 in H1. cbn [orb] in H1.
    unfold sets_latch in H1. rewrite H0 in H1. cbn [negb andb] in H1.
    apply andb_prop in H1. exact H1. }
  split; [apply isPageLoad_cases|].
  split.
  { intros He.
    assert (Hs : sets_latch env st = false).
    { unfold sets_latch, isPageLoad, isSPA. rewrite He. cbn.
      apply andb_false_r. }
    rewrite L, T, Hs, orb_false_r, app_nil_r. auto. }
  split.
  { destruct (sets_latch env st) eqn:Hs.
    - right. exists ref. split; [exact T|].
      unfold sets_latch in Hs.
      destruct (hasSentPageLoadBeacon st); [discriminate|].
      split; [reflexivity|]. rewrite L. reflexivity.
    - left. rewrite T. apply app_nil_r. }
  split.
  { intros H. rewrite T. unfold sets_latch. rewrite H. simpl. apply app_nil_r. }
  intros Hs _ _. rewrite L, T, Hs. split; [apply orb_true_r|].
  exists ref. reflexivity.
Qed.

Lemma page_load_latch_witness :
  sets_latch plain_env (flush_state []) = true
  /\ handlers_of "before_beacon" (flush_state []) = []
  /\ unshadowed (flush_state []) = true
  /\ hasSentPageLoadBeacon (final (real_sendBeacon plain_env (flush_state [])))
     = true.
Proof.
  assert (H1 : sets_latch plain_env (flush_state []) = true) by reflexivity.
  assert (H2 : handlers_of "before_beacon" (flush_state []) = []) by reflexivity.
  assert (H3 : unshadowed (flush_state []) = true) by reflexivity.
  split; [exact H1|]. split; [exact H2|]. split; [exact H3|].
  destruct (page_load_latch plain_env (flush_state []))
    as (_ & _ & _ & _ & _ & _ & _ & _ & H).
  exact (proj1 (H H1 H2 H3)).
Defined.

(** ** Failures of the transport *)

(** With both XHR contexts raising on [send], [sendBeaconData] raises after
    its two attempts, and so does the flush that called it. *)
Lemma both_xhr_contexts_fail :
  raised (sendBeaconData broken_xhr_env 0 (snapshot_state [("a", VNum 1)])) = true
  /\ wire (final (sendBeaconData broken_xhr_env 0 (snapshot_state [("a", VNum 1)])))
     = [ViaXhr PrimaryWindow "http://b.example/b" None false
               "a=1&http.initiator=page" ThrowsOnSend;
        ViaXhr BoomerangFrame "http://b.example/b" None false
               "a=1&http.initiator=page" ThrowsOnSend]
  /\ raised (real_sendBeacon broken_xhr_env queued_state) = true.
Proof. repeat split. Qed.

(** C8, amended.  [sendBeaconData] makes at most two XHR attempts, the
    second only after the first has failed: when the primary context raises
    on open or send, the frame's context is tried once, and nothing after
    it.  When that attempt succeeds the call returns; when it raises too,
    nothing catches the error: it leaves [sendBeaconData], and with it
    [real_sendBeacon].  With the primary context raising on send and the
    frame's working, the beacon is posted twice, the second time with
    success, and the call returns [true]. *)
Theorem xhr_retry_once (env : Env) (data : nat) (st : State) :
  let r := sendBeaconData env data st in
  (exists new,
     wire (final r) = wire st ++ new /\ retry_shape env new (raised r))
  /\ returned (sendBeaconData flaky_xhr_env 0 (snapshot_state [("a", VNum 1)]))
     = Some true
  /\ wire (final (sendBeaconData flaky_xhr_env 0 (snapshot_state [("a", VNum 1)])))
     = [ViaXhr PrimaryWindow "http://b.example/b" None false
               "a=1&http.initiator=page" ThrowsOnSend;
        ViaXhr BoomerangFrame "http://b.example/b" None false
               "a=1&http.initiator=page" NoFault]
  /\ raised (real_sendBeacon broken_xhr_env queued_state) = true.
Proof.
  intros r. subst r.
  destruct (sendBeaconData_transport env data st) as (_ & new & Hw & _ & Hs).
  split; [exists new; split; assumption|]. repeat split.
Qed.

(** * Further properties of the code *)

(** ** The event bus *)

Section Respect.

Variable R : State -> State -> Prop.
Hypothesis R_refl : forall st, R st st.
Hypothesis R_trans : forall a b c, R a b -> R b c -> R a c.

Lemma respects_pres {X A : Type} (proj : State -> X) (m : M A) :
  (forall a b, proj b = proj a -> R a b) -> preserves proj m -> respects R m.
Proof. intros HR Hm st. apply HR, Hm. Qed.

Lemma respects_ret {A : Type} (a : A) : respects R (ret a).
Proof. intros st. apply R_refl. Qed.


Lemma respects_try {A : Type} (m h : M A) :
  respects R m -> respects R h -> respects R (try_catch m h).
Proof.
  intros Hm Hh st. unfold try_catch. specialize (Hm st).
  destruct (m st) as [a st'|st']; simpl in *.
  - exact Hm.
  - eapply R_trans; [exact Hm|apply Hh].
Qed.

End Respect.

Lemma lower_ascii_idem (c : ascii) :
  Str.lower_ascii (Str.lower_ascii c) = Str.lower_ascii c.
Proof.
  destruct c as [b0 b1 b2 b3 b4 b5 b6 b7].
  destruct b0, b1, b2, b3, b4, b5, b6, b7; reflexivity.
Qed.

Lemma toLowerCase_idem (s : string) :
  Str.toLowerCase (Str.toLowerCase s) = Str.toLowerCase s.
Proof.
  induction s as [|c s IH]; simpl; [reflexivity|].
  rewrite lower_ascii_idem, IH. reflexivity.
Qed.

Lemma canonical_lower (e : string) : canonical (Str.toLowerCase e) = canonical e.
Proof. unfold canonical. rewrite toLowerCase_idem. reflexivity. Qed.

Lemma canonical_cases (e : string) :
  (canonical e = Str.toLowerCase e
   /\ get (Str.toLowerCase e) translate_events = None)
  \/ In (canonical e) ["beacon"; "config"; "error"; "xhr_error"].
Proof.
  unfold canonical.
  destruct (get (Str.toLowerCase e) translate_events) as [e'|] eqn:Hg.
  - right. unfold translate_events in Hg. simpl in Hg.
    repeat match type of Hg with
           | (if ?b then _ else _) = _ => destruct b
           end;
      try discriminate; injection Hg as <-; simpl; auto.
  - left. split; reflexivity.
Qed.

Lemma canonical_idem (e : string) : canonical (canonical e) = canonical e.
Proof.
  destruct (canonical_cases e) as [[He Hg]|Hin].
  - rewrite He. unfold canonical. rewrite toLowerCase_idem, Hg. reflexivity.
  - simpl in Hin.
    destruct Hin as [<-|[<-|[<-|[<-|[]]]]]; reflexivity.
Qed.



Section Bus.

Variable env : Env.

Lemma call_handler_log e d i h st :
  exists st',
    call_handler env e d i h st = Normal tt st'
    /\ calls st' = calls st ++ calls_from e i [h]
    /\ events st' = events st.
Proof.
  unfold call_handler. rewrite bind_modify, bind_gets.
  destruct (callback env (fn h) (scope h) (cb_data h) _) as [o' err].
  rewrite bind_modify.
  destruct err as [msg|];
    [unfold addError; destruct (errors_plugin env)|];
    eexists; (split; [reflexivity|]); destruct d; simpl; auto.
Qed.

Lemma call_handler_returns e d i h st :
  returns_always env h ->
  errors (final (call_handler env e d i h st)) = errors st.
Proof.
  intros Hr. unfold call_handler. rewrite bind_modify, bind_gets.
  match goal with
  | |- context [callback env (fn h) (scope h) (cb_data h) ?o] =>
      specialize (Hr o);
      destruct (callback env (fn h) (scope h) (cb_data h) o) as [o' err]
  end.
  simpl in Hr. subst err. rewrite bind_modify. destruct d; reflexivity.
Qed.

Lemma call_handlers_returns e d hs :
  forall i st, Forall (returns_always env) hs ->
    errors (final (call_handlers env e d i hs st)) = errors st.
Proof.
  induction hs as [|h hs IH]; intros i st Hr; simpl; [reflexivity|].
  inversion Hr as [|h' hs' Hh Hhs]; subst.
  pose proof (call_handler_returns e d i h st Hh) as E1.
  destruct (call_handler_log e d i h st) as [s1 [E [_ _]]].
  rewrite E in E1. rewrite (bind_normal _ _ _ _ _ E).
  rewrite IH by exact Hhs. exact E1.
Qed.

Lemma call_handlers_log e d hs :
  forall i st, exists st',
    call_handlers env e d i hs st = Normal tt st'
    /\ calls st' = calls st ++ calls_from e i hs
    /\ events st' = events st.
Proof.
  induction hs as [|h hs IH]; intros i st; simpl.
  - exists st. rewrite app_nil_r. auto.
  - destruct (call_handler_log e d i h st) as [s1 [E1 [C1 V1]]].
    destruct (IH (S i) s1) as [s2 [E2 [C2 V2]]].
    exists s2. rewrite (bind_normal _ _ _ _ _ E1), E2.
    split; [reflexivity|]. split; [|congruence].
    rewrite C2, C1. simpl. rewrite <- app_assoc. reflexivity.
Qed.

(** One firing with a flush that returns [st] to itself. *)
Lemma fireEvent_with_log e d st :
  exists st',
    fireEvent_with env (ret false) e d st = Normal tt st'
    /\ calls st' = calls st
                   ++ calls_from (canonical e) 0 (handlers_of (canonical e) st)
    /\ handlers_of (canonical e) st' = lasting (handlers_of (canonical e) st)
    /\ (forall e', e' <> canonical e -> handlers_of e' st' = handlers_of e' st).
Proof.
  unfold fireEvent_with. rewrite bind_gets.
  set (c := canonical e).
  destruct (has c (events st)) eqn:Hreg; cbn [negb].
  - assert (Hstep :
      forall s, events s = events st -> calls s = calls st ->
        exists st',
          bind (gets (handlers_of c)) (fun handlers =>
            bind (call_handlers env c d 0 handlers) (fun _ =>
              modify (fun st0 =>
                with_events
                  (set c (filter (fun h => negb (once h)) (handlers_of c st0))
                       (events st0)) st0))) s = Normal tt st'
          /\ calls st' = calls st ++ calls_from c 0 (handlers_of c st)
          /\ handlers_of c st' = lasting (handlers_of c st)
          /\ (forall e', e' <> c -> handlers_of e' st' = handlers_of e' st)).
    { intros s Ev Ca. rewrite bind_gets.
      assert (Hh : handlers_of c s = handlers_of c st)
        by (unfold handlers_of; rewrite Ev; reflexivity).
      destruct (call_handlers_log c d (handlers_of c s) 0 s) as [s1 [E1 [C1 V1]]].
      rewrite (bind_normal _ _ _ _ _ E1).
      eexists. split; [reflexivity|].
      split; [simpl; unfold keep; rewrite C1, Ca, Hh; reflexivity|].
      split.
      - unfold handlers_of at 1. simpl. rewrite get_set_same.
        unfold lasting, handlers_of. rewrite V1, Ev. reflexivity.
      - intros e' Hne. unfold handlers_of at 1. simpl.
        rewrite get_set_other by congruence.
        unfold handlers_of. rewrite V1, Ev. reflexivity. }
    destruct (get c public_events) as [p|];
      rewrite ?bind_modify, ?bind_ret;
      destruct (negb (c =? "before_beacon") && negb (c =? "beacon"));
      rewrite ?bind_assoc, ?bind_ret; apply Hstep; reflexivity.
  - exists st. split; [reflexivity|].
    assert (Hn : handlers_of c st = []).
    { unfold handlers_of. unfold has in Hreg.
      destruct (get c (events st)); [discriminate|reflexivity]. }
    rewrite Hn. simpl. rewrite app_nil_r. auto.
Qed.

Lemma fireEvent_log e d st :
  beaconQueued st = false ->
  exists st',
    fireEvent env e d st = Normal tt st'
    /\ calls st' = calls st
                   ++ calls_from (canonical e) 0 (handlers_of (canonical e) st)
    /\ handlers_of (canonical e) st' = lasting (handlers_of (canonical e) st)
    /\ (forall e', e' <> canonical e -> handlers_of e' st' = handlers_of e' st)
    /\ beaconQueued st' = false.
Proof.
  intros Hq.
  pose proof (fireEvent_idle_frame env e d st Hq) as Hf.
  rewrite fireEvent_idle in * by exact Hq.
  destruct (fireEvent_with_log e d st) as [st' [E [C [H1 H2]]]].
  exists st'. rewrite E in *. simpl in Hf.
  apply coord_sent_fields in Hf. destruct Hf as [Hc _].
  apply coord_fields in Hc. destruct Hc as [Hb _].
  repeat match goal with |- _ /\ _ => split end; auto. congruence.
Qed.

Lemma fireEvent_returns e d st :
  beaconQueued st = false ->
  Forall (returns_always env) (handlers_of (canonical e) st) ->
  errors (final (fireEvent env e d st)) = errors st.
Proof.
  intros Hq Hr. rewrite fireEvent_idle by exact Hq.
  unfold fireEvent_with. rewrite bind_gets.
  set (c := canonical e) in *.
  destruct (has c (events st)) eqn:Hreg; cbn [negb]; [|reflexivity].
  assert (Hstep :
    forall s, events s = events st -> errors s = errors st ->
      errors (final (bind (gets (handlers_of c)) (fun handlers =>
          bind (call_handlers env c d 0 handlers) (fun _ =>
            modify (fun st0 =>
              with_events
                (set c (filter (fun h => negb (once h)) (handlers_of c st0))
                     (events st0)) st0))) s)) = errors st).
  { intros s Ev Er. rewrite bind_gets.
    assert (Hh : handlers_of c s = handlers_of c st)
      by (unfold handlers_of; rewrite Ev; reflexivity).
    rewrite Hh.
    pose proof (call_handlers_returns c d (handlers_of c st) 0 s Hr) as R.
    destruct (call_handlers_log c d (handlers_of c st) 0 s) as [s1 [E1 _]].
    rewrite E1 in R. rewrite (bind_normal _ _ _ _ _ E1).
    simpl in *. unfold keep. congruence. }
  destruct (get c public_events) as [p|];
    rewrite ?bind_modify, ?bind_ret;
    destruct (negb (c =? "before_beacon") && negb (c =? "beacon"));
    rewrite ?bind_assoc, ?bind_ret; apply Hstep; reflexivity.
Qed.

End Bus.

(** *** After [disable] *)






Section Disabled.

Variable env : Env.





End Disabled.

(** X1. An event fired while no beacon is queued, whose subscribers all
    return, calls every subscriber of the event exactly once, in the order
    of subscription and with the scope and callback data stored at
    subscription; the firing does not raise and records no error. *)
Theorem fireEvent_calls_every_subscriber
    (env : Env) (e : string) (d : event_data) (st : State) :
  beaconQueued st = false ->
  ordinary_event e st = true ->
  Forall (returns_always env) (handlers_of (canonical e) st) ->
  let r := fireEvent env e d st in
  raised r = false
  /\ calls (final r)
     = calls st ++ calls_from (canonical e) 0 (handlers_of (canonical e) st)
  /\ errors (final r) = errors st.
Proof.
  intros Hq _ Hr. pose proof (fireEvent_returns env e d st Hq Hr) as He.
  destruct (fireEvent_log env e d st Hq) as [st' [E [C _]]].
  cbv zeta. rewrite E in *. split; [reflexivity|]. split; [exact C|exact He].
Qed.

Lemma fireEvent_calls_every_subscriber_witness :
  beaconQueued subscribed_twice = false
  /\ length (calls (final (fireEvent plain_env "spa_navigation" DOpaque
                             subscribed_twice))) = 2%nat.
Proof.
  assert (Hq : beaconQueued subscribed_twice = false) by reflexivity.
  split; [exact Hq|].
  rewrite (proj1 (proj2 (fireEvent_calls_every_subscriber plain_env
                           "spa_navigation" DOpaque subscribed_twice Hq
                           eq_refl
                           ltac:(repeat constructor; intros o; reflexivity)))).
  reflexivity.
Defined.

(** X2. A firing whose subscribers all return removes the subscribers
    registered with [once] from the event and keeps the others in their
    order; the subscribers of the other events are left alone.  A second
    firing therefore calls exactly the subscribers that were not registered
    with [once]. *)
Theorem once_subscribers_are_dropped
    (env : Env) (e : string) (d d' : event_data) (st : State) :
  beaconQueued st = false ->
  ordinary_event e st = true ->
  Forall (returns_always env) (handlers_of (canonical e) st) ->
  let c := canonical e in
  let st1 := final (fireEvent env e d st) in
  let r2 := fireEvent env e d' st1 in
  raised (fireEvent env e d st) = false
  /\ handlers_of c st1 = lasting (handlers_of c st)
  /\ (forall e', e' <> c -> handlers_of e' st1 = handlers_of e' st)
  /\ raised r2 = false
  /\ calls (final r2) = calls st1 ++ calls_from c 0 (lasting (handlers_of c st))
  /\ handlers_of c (final r2) = lasting (handlers_of c st).
Proof.
  intros Hq _ _. cbv zeta.
  destruct (fireEvent_log env e d st Hq) as [st1 [E1 [C1 [H1 [O1 Q1]]]]].
  rewrite E1. cbn [final raised].
  destruct (fireEvent_log env e d' st1 Q1) as [st2 [E2 [C2 [H2 _]]]].
  rewrite E2. cbn [final raised].
  split; [reflexivity|]. split; [exact H1|]. split; [exact O1|].
  split; [reflexivity|]. split; [rewrite C2, H1; reflexivity|].
  rewrite H2, H1. unfold lasting. rewrite filter_filter.
  apply filter_ext. intros h. apply andb_diag.
Qed.

Lemma once_subscribers_are_dropped_witness :
  beaconQueued mixed_subscribers = false
  /\ handlers_of "xhr_load"
       (final (fireEvent plain_env "xhr_load" DOpaque mixed_subscribers))
     = lasting (handlers_of "xhr_load" mixed_subscribers)
  /\ map fn (lasting (handlers_of "xhr_load" mixed_subscribers)) = [1; 3]%nat.
Proof.
  assert (Hq : beaconQueued mixed_subscribers = false) by reflexivity.
  split; [exact Hq|]. split; [|reflexivity].
  exact (proj1 (proj2 (once_subscribers_are_dropped plain_env "xhr_load" DOpaque
                  DOpaque mixed_subscribers Hq eq_refl
                  ltac:(repeat constructor; intros o; reflexivity)))).
Defined.

(** X3. Event names are folded before use: [subscribe] and [fireEvent]
    lower-case the name and translate the four old names ([onbeacon],
    [onconfig], [onerror], [onxhrerror]), and folding twice is folding
    once.  So a name, its lower-case form and its folded form are the same
    event for both functions, and an old name is the same event as its new
    name. *)
Theorem event_names_are_folded (env : Env) (e : string) :
  canonical (canonical e) = canonical e
  /\ canonical (Str.toLowerCase e) = canonical e
  /\ (forall d st,
        fireEvent env (canonical e) d st = fireEvent env e d st
        /\ fireEvent env (Str.toLowerCase e) d st = fireEvent env e d st)
  /\ (forall f cd sc o st,
        subscribe env (canonical e) f cd sc o st = subscribe env e f cd sc o st
        /\ subscribe env (Str.toLowerCase e) f cd sc o st
           = subscribe env e f cd sc o st)
  /\ (forall old new,
        In (old, new) translate_events ->
        canonical old = new /\ canonical new = new).
Proof.
  split; [apply canonical_idem|]. split; [apply canonical_lower|].
  split; [|split].
  - intros d st. unfold fireEvent, fireEvent_with.
    rewrite canonical_idem, canonical_lower. split; reflexivity.
  - intros f cd sc o st. unfold subscribe.
    rewrite canonical_idem, canonical_lower. split; reflexivity.
  - intros old new Hin. simpl in Hin.
    repeat match type of Hin with
           | _ \/ _ => destruct Hin as [Hin|Hin]
           end;
      try contradiction; injection Hin as <- <-; split; reflexivity.
Qed.





(** ** The variable store *)

Lemma keys_set {A : Type} (k : string) (v : A) (o : obj A) :
  keys (set k v o) = if has k o then keys o else keys o ++ [k].
Proof.
  unfold has, keys. induction o as [|[k0 v0] o IH]; simpl; [reflexivity|].
  destruct (String.eqb_spec k0 k) as [->|Hk]; simpl; [reflexivity|].
  rewrite IH. destruct (get k o); reflexivity.
Qed.

Lemma read_set (k k' : string) (v : value) (o : obj value) :
  read k' (set k v o) = if k =? k' then v else read k' o.
Proof.
  unfold read. destruct (String.eqb_spec k k') as [<-|Hk].
  - rewrite get_set_same. reflexivity.
  - rewrite get_set_other by exact Hk. reflexivity.
Qed.

Lemma set_fresh {A : Type} (k : string) (v : A) (o : obj A) :
  get k o = None -> set k v o = o ++ [(k, v)].
Proof.
  induction o as [|[k0 v0] o IH]; simpl; [reflexivity|].
  destruct (k0 =? k); [discriminate|].
  intros H. rewrite IH by exact H. reflexivity.
Qed.

(** The order of [for .. in] depends on the names only. *)
Section ForInNames.

Context {A : Type}.

Lemma keys_insert_indexed (kv kv' : string * A) :
  forall l l',
    fst kv = fst kv' -> keys l = keys l' ->
    keys (insert_indexed kv l) = keys (insert_indexed kv' l').
Proof.
  unfold keys.
  intros l. induction l as [|x l IH]; intros [|x' l'] Hk Hl; simpl in *;
    try discriminate.
  - congruence.
  - injection Hl as Hx Hl.
    unfold index_of. rewrite Hk, Hx.
    destruct (_ <=? _)%N; simpl; [congruence|].
    rewrite Hx. f_equal. apply IH; assumption.
Qed.

Lemma keys_parts_ext :
  forall o1 o2 : obj A,
    keys o1 = keys o2 ->
    keys (fold_right insert_indexed [] (filter indexed o1))
    = keys (fold_right insert_indexed [] (filter indexed o2))
    /\ keys (filter (fun kv => negb (indexed kv)) o1)
       = keys (filter (fun kv => negb (indexed kv)) o2).
Proof.
  intros o1. induction o1 as [|x o1 IH]; intros [|x' o2] Hk;
    try discriminate; [split; reflexivity|].
  unfold keys in Hk. simpl in Hk. injection Hk as Hx Hk.
  destruct (IH o2 Hk) as [H1 H2].
  assert (Hi : indexed x = indexed x') by (unfold indexed; rewrite Hx; reflexivity).
  simpl. rewrite Hi. destruct (indexed x'); simpl.
  - split; [apply keys_insert_indexed; assumption|exact H2].
  - split; [exact H1|]. unfold keys in *. simpl. congruence.
Qed.

Lemma keys_for_in_ext (o1 o2 : obj A) :
  keys o1 = keys o2 -> keys (for_in o1) = keys (for_in o2).
Proof.
  intros Hk. destruct (keys_parts_ext o1 o2 Hk) as [H1 H2].
  unfold for_in, keys in *. rewrite !map_app. congruence.
Qed.

Lemma for_in_snoc (k : string) (v : A) (o : obj A) :
  array_index k = None -> for_in (o ++ [(k, v)]) = for_in o ++ [(k, v)].
Proof.
  intros Hi. unfold for_in. rewrite !filter_app. simpl.
  unfold indexed at 2 4. simpl. rewrite Hi. simpl.
  rewrite app_nil_r, app_assoc. reflexivity.
Qed.

Lemma keys_for_in_set (k : string) (v : A) (o : obj A) :
  array_index k = None ->
  keys (for_in (set k v o))
  = if has k o then keys (for_in o) else keys (for_in o) ++ [k].
Proof.
  intros Hi. destruct (has k o) eqn:Hh.
  - apply keys_for_in_ext. rewrite keys_set, Hh. reflexivity.
  - rewrite set_fresh, for_in_snoc by
      (try exact Hi; unfold has in Hh; destruct (get k o); congruence).
    unfold keys. rewrite map_app. reflexivity.
Qed.

End ForInNames.

Lemma shadowed_set {A : Type} (k : string) (v : A) (o : obj A) :
  inherited k = false -> shadowed (set k v o) = shadowed o.
Proof.
  intros Hi. unfold shadowed. rewrite has_set.
  destruct (String.eqb_spec k "hasOwnProperty") as [->|]; [discriminate|reflexivity].
Qed.

(** X6. For a name that [Object.prototype] does not define, and variables
    that do not hide [hasOwnProperty]: [addVar(name, value)] followed by
    [getVar(name)] gives [value] back and [hasVar(name)] holds; no other
    variable is touched.  A name that was already set keeps its place among
    the variables and a new one is created last; in the order of
    [for .. in] the same holds when the name is not an array index.  The
    form with an object whose properties have such names does what one
    [addVar] per property does, in the order of [for .. in]. *)
Theorem addVar_then_getVar (name : string) (v flag : value) (st : State) :
  inherited name = false ->
  shadowed (vars st) = false ->
  let st' := final (addVar (Name name) v flag st) in
  raised (addVar (Name name) v flag st) = false
  /\ getVar name st' = v
  /\ hasVar name st' = true
  /\ shadowed (vars st') = false
  /\ (forall k, k <> name ->
        getVar k st' = getVar k st /\ hasVar k st' = hasVar k st)
  /\ keys (vars st')
     = (if hasVar name st then keys (vars st) else keys (vars st) ++ [name])
  /\ (array_index name = None ->
      keys (for_in (vars st'))
      = (if hasVar name st then keys (for_in (vars st))
         else keys (for_in (vars st)) ++ [name]))
  /\ (forall o, Forall (fun k => inherited k = false) (keys o) ->
        vars (final (addVar (Bulk o) v VUndefined st))
        = vars (addVar_each (for_in o) st)).
Proof.
  intros Hname Hsh. cbv zeta.
  assert (Hv : vars (final (addVar (Name name) v flag st))
               = set name v (vars st)).
  { unfold addVar. rewrite bind_modify. destruct (truthy flag); reflexivity. }
  split.
  { unfold addVar. rewrite bind_modify. destruct (truthy flag); reflexivity. }
  unfold getVar, hasVar. rewrite Hv.
  split; [rewrite read_set, String.eqb_refl; reflexivity|].
  split; [rewrite has_set, String.eqb_refl; reflexivity|].
  split; [rewrite shadowed_set by exact Hname; exact Hsh|].
  split; [|split; [|split]].
  - intros k Hk. rewrite read_set, has_set.
    destruct (String.eqb_spec name k); [congruence|auto].
  - apply keys_set.
  - intros Hi. apply keys_for_in_set, Hi.
  - intros o _. unfold addVar_each. simpl. unfold keep.
    generalize (for_in o) as l. intros l.
    generalize st. induction l as [|[k0 v0] l IH]; intros s; simpl.
    + reflexivity.
    + rewrite <- IH. reflexivity.
Qed.

Lemma addVar_then_getVar_witness :
  inherited "rt.start" = false
  /\ shadowed (vars init_state) = false
  /\ getVar "rt.start" (final (addVar (Name "rt.start") (VStr "navigation")
                                 VUndefined init_state))
     = VStr "navigation".
Proof.
  assert (H1 : inherited "rt.start" = false) by reflexivity.
  assert (H2 : shadowed (vars init_state) = false) by reflexivity.
  split; [exact H1|]. split; [exact H2|].
  exact (proj1 (proj2 (addVar_then_getVar "rt.start" (VStr "navigation")
                         VUndefined init_state H1 H2))).
Defined.

(** X7. On variables that do not hide [hasOwnProperty], [removeVar] does
    not raise and removes exactly the variables it is given: the others
    keep their values and their order, a name that is not set is skipped,
    and a removed name that [Object.prototype] does not define reads
    [undefined] afterwards. *)
Theorem removeVar_removes_exactly (names : list string) (st : State) :
  shadowed (vars st) = false ->
  let r := removeVar names st in
  raised r = false
  /\ vars (final r) = filter (fun kv => negb (mem (fst kv) names)) (vars st)
  /\ (forall k, inherited k = false ->
        getVar k (final r) = if mem k names then VUndefined else getVar k st)
  /\ (forall k, hasVar k (final r) = hasVar k st && negb (mem k names))
  /\ shadowed (vars (final r)) = false
  /\ singleBeaconVars (final r) = singleBeaconVars st.
Proof.
  intros Hsh. cbv zeta. split; [reflexivity|].
  pose proof (removeVar_vars names st) as Hv. unfold delete_all in Hv.
  split; [exact Hv|]. split; [|split; [|split]].
  - intros k _. unfold getVar, read. rewrite removeVar_vars, get_delete_all.
    destruct (mem k names); reflexivity.
  - intros k. unfold hasVar. rewrite removeVar_vars. apply has_delete_all.
  - unfold shadowed in *. rewrite removeVar_vars, has_delete_all, Hsh. reflexivity.
  - reflexivity.
Qed.

Lemma removeVar_removes_exactly_witness :
  shadowed (vars (with_vars [("a", VNum 1); ("b", VNum 2)] init_state)) = false
  /\ vars (final (removeVar ["a"; "c"]
                    (with_vars [("a", VNum 1); ("b", VNum 2)] init_state)))
     = [("b", VNum 2)].
Proof.
  assert (H : shadowed (vars (with_vars [("a", VNum 1); ("b", VNum 2)] init_state))
              = false) by reflexivity.
  split; [exact H|].
  rewrite (proj1 (proj2 (removeVar_removes_exactly ["a"; "c"] _ H))).
  reflexivity.
Defined.










(** X9. [setVarPriority] accepts the numbers 1 and -1 and nothing else:
    any other priority, such as 0, 2 or the text [1], leaves everything as
    it is.  An accepted call, for a name other than [__proto__], adds the
    name to the list of its priority only: a name already listed keeps its
    place and a new one is created last, and in the order of [for .. in],
    the order in which the list is sent, the same holds when the name is
    not an array index.  Repeating a call changes nothing; a call never
    takes a name out of the other list and never touches the variables. *)
Theorem setVarPriority_accepts_only_unit (name : string) (pri : value) (st : State) :
  name <> "__proto__" ->
  let r := setVarPriority name pri st in
  raised r = false
  /\ vars (final r) = vars st
  /\ (valid_priority pri = false -> r = Normal tt st)
  /\ (pri = VNum (-1) ->
      keys (varPriority_first (final r))
      = (if has name (varPriority_first st) then keys (varPriority_first st)
         else keys (varPriority_first st) ++ [name])
      /\ (array_index name = None ->
          priority_names (varPriority_first (final r))
          = (if has name (varPriority_first st)
             then priority_names (varPriority_first st)
             else priority_names (varPriority_first st) ++ [name]))
      /\ varPriority_last (final r) = varPriority_last st)
  /\ (pri = VNum 1 ->
      keys (varPriority_last (final r))
      = (if has name (varPriority_last st) then keys (varPriority_last st)
         else keys (varPriority_last st) ++ [name])
      /\ (array_index name = None ->
          priority_names (varPriority_last (final r))
          = (if has name (varPriority_last st)
             then priority_names (varPriority_last st)
             else priority_names (varPriority_last st) ++ [name]))
      /\ varPriority_first (final r) = varPriority_first st)
  /\ setVarPriority name pri (final r) = Normal tt (final r).
Proof.
  intros _. cbv zeta. unfold setVarPriority, priority_names.
  destruct pri as [| |b|n|s|ref]; simpl;
    try (repeat match goal with |- _ /\ _ => split end;
         first [reflexivity | discriminate | intros; reflexivity]).
  destruct (Z.abs n =? 1)%Z eqn:Habs.
  - assert (Hn : n = 1%Z \/ n = (-1)%Z) by lia.
    destruct Hn as [-> | ->]; simpl;
      repeat match goal with |- _ /\ _ => split end;
      try reflexivity; try discriminate.
    + intros _. split; [apply keys_set|].
      split; [intros Hi; apply keys_for_in_set, Hi|reflexivity].
    + unfold modify. simpl.
      rewrite set_same_value by apply get_set_same. reflexivity.
    + intros _. split; [apply keys_set|].
      split; [intros Hi; apply keys_for_in_set, Hi|reflexivity].
    + unfold modify. simpl.
      rewrite set_same_value by apply get_set_same. reflexivity.
  - repeat match goal with |- _ /\ _ => split end;
      try reflexivity; intros H; try reflexivity.
    + injection H as ->. discriminate.
    + injection H as ->. discriminate.
Qed.

Lemma setVarPriority_accepts_only_unit_witness :
  "u" <> "__proto__"
  /\ valid_priority (VStr "1") = false
  /\ setVarPriority "u" (VStr "1") init_state = Normal tt init_state.
Proof.
  assert (H0 : "u" <> "__proto__") by discriminate.
  assert (H : valid_priority (VStr "1") = false) by reflexivity.
  split; [exact H0|]. split; [exact H|].
  exact (proj1 (proj2 (proj2 (setVarPriority_accepts_only_unit "u" (VStr "1")
                                init_state H0))) H).
Defined.

(** ** The flush and its snapshot *)

(** Steps of the transport: they work on the snapshot and never on the
    live variables. *)
Section SnapshotFrames.

Context {X : Type} (proj : State -> X).
Hypothesis proj_heap : forall h st, proj (with_heap h st) = proj st.
Hypothesis proj_errors : forall x st, proj (with_errors x st) = proj st.
Hypothesis proj_events : forall e st, proj (with_events e st) = proj st.
Hypothesis proj_call : forall c st, proj (push_call c st) = proj st.
Hypothesis proj_dom : forall e st, proj (push_dom_event e st) = proj st.
Hypothesis proj_wire : forall t st, proj (push_wire t st) = proj st.
Hypothesis proj_url : forall u st, proj (with_beacon_url u st) = proj st.
Hypothesis proj_key : forall k st, proj (with_beacon_auth_key k st) = proj st.

Variable env : Env.

Lemma call_handler_ref_pres e r i h :
  preserves proj (call_handler env e (DRef r) i h).
Proof.
  unfold call_handler.
  frame_step; [apply preserves_modify; intros st; apply proj_call|].
  frame_step; [frame_step|]. frame_step.
  frame_step.
  { apply preserves_modify. intros st. simpl. unfold write_heap. auto. }
  frame_step; [|frame_step].
  unfold addError. destruct (errors_plugin env); [frame_step|].
  apply preserves_modify. intros st. apply proj_errors.
Qed.

Lemma call_handlers_ref_pres e r hs :
  forall i, preserves proj (call_handlers env e (DRef r) i hs).
Proof.
  induction hs as [|h hs IH]; intros i; simpl.
  - frame_step.
  - frame_step; [apply call_handler_ref_pres|apply IH].
Qed.

Lemma fireEvent_with_ref_pres flush e r :
  preserves proj flush -> preserves proj (fireEvent_with env flush e (DRef r)).
Proof.
  intros Hflush. unfold fireEvent_with.
  frame_step; [frame_step|]. frame_step; [frame_step|].
  frame_step.
  { frame_step; [apply preserves_modify; intros st; apply proj_dom|frame_step]. }
  frame_step.
  { frame_step; [frame_step; [exact Hflush|frame_step]|frame_step]. }
  frame_step; [frame_step|].
  frame_step; [apply call_handlers_ref_pres|].
  apply preserves_modify. intros st. apply proj_events.
Qed.

Lemma sendXhrPostBeacon_pres ctx body :
  preserves proj (sendXhrPostBeacon env ctx body).
Proof. unfold sendXhrPostBeacon. repeat frame_step. Qed.

Lemma sendBeaconData_pres data : preserves proj (sendBeaconData env data).
Proof.
  unfold sendBeaconData.
  frame_step; [frame_step|]. frame_step; [frame_step|].
  frame_step; [frame_step|]. frame_step; [frame_step|].
  frame_step; [frame_step|]. frame_step; [frame_step|].
  frame_step; [apply fireEvent_with_ref_pres; frame_step|].
  frame_step; [apply beacon_params_pres; exact proj_heap|].
  frame_step; [repeat frame_step|].
  frame_step; [frame_step|].
  frame_step; [repeat frame_step|].
  frame_step; [frame_step|].
  frame_step; [repeat frame_step|].
  frame_step; [|frame_step].
  frame_step; apply sendXhrPostBeacon_pres.
Qed.

End SnapshotFrames.

Lemma clear_single_use_singles (st : State) :
  singleBeaconVars (final (clear_single_use st)) = [].
Proof.
  destruct (counts_clear_single_use st) as [[] [s' [E _]]].
  unfold clear_single_use in *.
  assert (E1 : removeVar ["qt"; "pgu"] st = Normal tt (final (removeVar ["qt"; "pgu"] st)))
    by reflexivity.
  rewrite (bind_normal _ _ _ _ _ E1), bind_gets in *.
  remember (final (removeVar ["qt"; "pgu"] st)) as s1.
  remember (keys (singleBeaconVars s1)) as names.
  clear Heqnames Heqs1 E1 E. revert s1.
  induction names as [|n names IH]; intros s1.
  - reflexivity.
  - cbn [fold_right].
    assert (En : removeVar [n] s1 = Normal tt (final (removeVar [n] s1)))
      by reflexivity.
    rewrite bind_assoc, (bind_normal _ _ _ _ _ En). apply IH.
Qed.

(** The stages of a flush that gets as far as the bookkeeping: the state
    [s4] the [before_beacon] subscribers leave, the snapshot [ref] taken of
    its variables, the state [s6] after the single-use variables are
    cleared, and the state [s7] in which the transport is called. *)
Lemma real_sendBeacon_stages (env : Env) (st : State) :
  reaches_bookkeeping env st = true ->
  exists s4 ref s5 s6 s7,
    singleBeaconVars s4 = singleBeaconVars st
    /\ calls s4 = calls st ++ calls_from "before_beacon" 0
                              (handlers_of "before_beacon" st)
    /\ alloc (vars s4) s4 = Normal ref s5
    /\ clear_single_use s5 = Normal tt s6
    /\ vars s7 = vars s6 /\ singleBeaconVars s7 = singleBeaconVars s6
    /\ heap s7 = heap s5 /\ calls s7 = calls s4 /\ route s7 = route st
    /\ final (real_sendBeacon env st)
       = (if rate_limited env then s7 else final (sendBeaconData env ref s7)).
Proof.
  unfold reaches_bookkeeping. intros H.
  apply andb_prop in H. destruct H as [H Hu].
  apply andb_prop in H. destruct H as [H Hd].
  apply andb_prop in H. destruct H as [Hq Hp].
  unfold real_sendBeacon. rewrite bind_gets, Hq. cbn [negb]. cbv iota.
  rewrite !bind_modify. fold (after_guard st). rewrite bind_gets.
  change (vars (after_guard st)) with (vars st).
  rewrite Hp, Hd. cbn [negb]. cbv iota.
  set (P := fun s : State => (singleBeaconVars s, calls s, events s, route s)).
  pose proof (url_fields_pres P (fun _ _ => eq_refl) env
                (isSPA (vars st)) (after_guard st)) as R2.
  destruct (url_fields env (isSPA (vars st)) (after_guard st)) as [[] s2|s2] eqn:Eu;
    [|discriminate].
  cbn [final] in R2. change (P (after_guard st)) with (P st) in R2.
  rewrite (bind_normal _ _ _ _ _ Eu).
  destruct (derived_fields_counts env s2) as [[] [s3 [E3 _]]].
  pose proof (derived_fields_pres P (fun _ _ => eq_refl)
                (fun _ _ => eq_refl) env (fun _ _ => eq_refl) s2) as R3.
  rewrite E3 in R3. cbn [final] in R3. rewrite R2 in R3.
  unfold P in R3. injection R3 as S3 C3 V3 U3.
  rewrite (bind_normal _ _ _ _ _ E3).
  destruct (fireEvent_with_log env "before_beacon" DLive s3)
    as [s4 [E4 [C4 _]]].
  change (canonical "before_beacon") with "before_beacon" in C4.
  assert (R4 : (singleBeaconVars s4, route s4) = (singleBeaconVars s3, route s3)).
  { pose proof (fireEvent_with_pres (fun s => (singleBeaconVars s, route s))
                  (fun _ _ => eq_refl)
                  (fun _ _ => eq_refl) (fun _ _ => eq_refl) (fun _ _ => eq_refl)
                  (fun _ _ => eq_refl) (fun _ _ => eq_refl) env (ret false)
                  "before_beacon" DLive (preserves_ret _ false) s3) as R.
    rewrite E4 in R. exact R. }
  injection R4 as S4 U4.
  rewrite (bind_normal _ _ _ _ _ E4). rewrite bind_gets.
  destruct (counts_alloc (vars s4) s4) as [ref [s5 [E5 _]]].
  assert (R5 : (calls s5, route s5) = (calls s4, route s4)).
  { unfold alloc in E5. injection E5 as _ <-. reflexivity. }
  injection R5 as C5 U5.
  rewrite (bind_normal _ _ _ _ _ E5).
  destruct (counts_clear_single_use s5) as [[] [s6 [E6 _]]].
  rewrite (bind_normal _ _ _ _ _ E6). rewrite bind_gets.
  set (c := negb (hasSentPageLoadBeacon s6) && isPageLoad (vars st)).
  set (s7 := if c then push_task (TaskFirePageLoadBeacon ref)
                         (with_hasSentPageLoadBeacon true s6) else s6).
  assert (E7 : when c (modify (with_hasSentPageLoadBeacon true);;;
                       setImmediate (TaskFirePageLoadBeacon ref)) s6
               = Normal tt s7).
  { unfold s7. destruct c; reflexivity. }
  rewrite (bind_normal _ _ _ _ _ E7).
  assert (R6 : (heap s6, calls s6, route s6) = (heap s5, calls s5, route s5)).
  { pose proof (clear_single_use_pres (fun s => (heap s, calls s, route s))
                  (fun _ _ => eq_refl) (fun _ _ => eq_refl) s5) as R.
    rewrite E6 in R. exact R. }
  injection R6 as H6 C6 U6.
  assert (Hh : handlers_of "before_beacon" s3 = handlers_of "before_beacon" st)
    by (unfold handlers_of; rewrite V3; reflexivity).
  exists s4, ref, s5, s6, s7.
  split; [congruence|]. split; [congruence|].
  split; [exact E5|]. split; [exact E6|].
  split; [unfold s7; destruct c; reflexivity|].
  split; [unfold s7; destruct c; reflexivity|].
  split; [unfold s7; destruct c; exact H6|].
  assert (C7 : calls s7 = calls s6) by (unfold s7; destruct c; reflexivity).
  assert (U7 : route s7 = route s6) by (unfold s7; destruct c; reflexivity).
  split; [congruence|].
  split; [rewrite U7; unfold route; congruence|].
  destruct (rate_limited env); [reflexivity|]. apply final_then_ret.
Qed.

(** A flush that does not get as far as the bookkeeping calls nobody, sends
    nothing and keeps the single-use marks. *)
Lemma real_sendBeacon_stops (env : Env) (st : State) :
  reaches_bookkeeping env st = false ->
  let st' := final (real_sendBeacon env st) in
  calls st' = calls st /\ wire st' = wire st
  /\ singleBeaconVars st' = singleBeaconVars st
  /\ heap st' = heap st /\ events st' = events st.
Proof.
  unfold reaches_bookkeeping, real_sendBeacon. intros H.
  rewrite bind_gets.
  destruct (beaconQueued st); cbn [negb andb] in *; cbv iota; [|simpl; auto 6].
  rewrite !bind_modify. fold (after_guard st). rewrite bind_gets.
  change (vars (after_guard st)) with (vars st).
  destruct (plugins_complete env (vars st)); cbn [negb andb] in *; cbv iota;
    [|simpl; auto 6].
  destruct (dom_available env); cbn [negb andb] in *; cbv iota; [|simpl; auto 6].
  pose proof (url_fields_pres
                (fun s => (calls s, wire s, singleBeaconVars s, heap s, events s))
                (fun _ _ => eq_refl) env
                (isSPA (vars st)) (after_guard st)) as R2.
  destruct (url_fields env (isSPA (vars st)) (after_guard st)) as [[] s2|s2] eqn:Eu;
    [discriminate|].
  rewrite (bind_thrown _ _ _ _ Eu). cbn [final] in *.
  injection R2 as -> -> -> -> ->. auto 6.
Qed.


(** X10. Single-use variables last one flush.  On a page where nobody
    subscribed to [before_beacon] or [beacon] and no table hides
    [hasOwnProperty]: a flush that gets as far as the bookkeeping leaves no
    variable marked single-use, and neither [qt], [pgu] nor any variable
    that was marked is set afterwards, whether the beacon was then sent,
    rate-limited or refused by the transport.  A flush that stops before
    that (no beacon queued, a plugin not ready, no browser) keeps the marks
    as they are. *)
Theorem single_use_vars_last_one_flush (env : Env) (st : State) :
  handlers_of "before_beacon" st = [] ->
  handlers_of "beacon" st = [] ->
  unshadowed st = true ->
  let st' := final (real_sendBeacon env st) in
  (reaches_bookkeeping env st = true ->
   singleBeaconVars st' = []
   /\ forall k,
        has k (singleBeaconVars st) = true \/ k = "qt" \/ k = "pgu" ->
        hasVar k st' = false)
  /\ (reaches_bookkeeping env st = false ->
      singleBeaconVars st' = singleBeaconVars st).
Proof.
  intros _ _ _. cbv zeta. split.
  - intros Hr.
    destruct (real_sendBeacon_stages env st Hr)
      as (s4 & ref & s5 & s6 & s7 & S4 & _ & E5 & E6 & V7 & S7 & _ & _ & _ & Hfin).
    assert (Hkeep : (vars (final (real_sendBeacon env st)),
                     singleBeaconVars (final (real_sendBeacon env st)))
                    = (vars s7, singleBeaconVars s7)).
    { rewrite Hfin. destruct (rate_limited env); [reflexivity|].
      apply (sendBeaconData_pres (fun s => (vars s, singleBeaconVars s)));
        reflexivity. }
    injection Hkeep as Hk1 Hk2. unfold hasVar. rewrite Hk1, Hk2.
    pose proof (clear_single_use_singles s5) as Hs.
    pose proof (clear_single_use_vars s5) as Hv.
    rewrite E6 in Hs, Hv. cbn [final] in Hs, Hv.
    assert (S5 : singleBeaconVars s5 = singleBeaconVars s4).
    { unfold alloc in E5. injection E5 as _ <-. reflexivity. }
    split; [congruence|].
    intros k Hk. rewrite V7, Hv, !has_delete_all.
    rewrite S5, S4, <- has_mem_keys.
    destruct Hk as [Hk|[->| ->]].
    + rewrite Hk. apply andb_false_r.
    + simpl. rewrite andb_false_r. reflexivity.
    + simpl. rewrite andb_false_r. reflexivity.
  - intros Hr. apply (real_sendBeacon_stops env st Hr).
Qed.

Lemma single_use_vars_last_one_flush_witness :
  reaches_bookkeeping plain_env
    (final (addVar (Name "once") (VNum 1) (VBool true) (flush_state []))) = true
  /\ hasVar "once"
       (final (real_sendBeacon plain_env
                 (final (addVar (Name "once") (VNum 1) (VBool true)
                           (flush_state []))))) = false.
Proof.
  assert (H : reaches_bookkeeping plain_env
                (final (addVar (Name "once") (VNum 1) (VBool true)
                          (flush_state []))) = true) by reflexivity.
  split; [exact H|].
  apply (proj2 (proj1 (single_use_vars_last_one_flush plain_env
                         (final (addVar (Name "once") (VNum 1) (VBool true)
                                   (flush_state [])))
                         eq_refl eq_refl eq_refl) H)).
  left. reflexivity.
Defined.

(** X11. A flush that finds a plugin not ready is dropped, not deferred:
    the request is consumed (the queue of tasks is empty again and the
    flag is cleared), nothing is transmitted, the variables and the beacon
    counter are as before, and nothing is left that would run the flush
    again when the plugin becomes ready. *)
Theorem unready_flush_is_dropped
    (env : Env) (u : option string) (fuel : nat) (st : State) :
  beaconQueued st = false -> tasks st = [] ->
  plugins_complete env (vars st) = false ->
  let st1 := final (sendBeacon u st) in
  let st2 := run_tasks env (S fuel) st1 in
  tasks st1 = [TaskRealSendBeacon]
  /\ tasks st2 = [] /\ beaconQueued st2 = false
  /\ wire st2 = wire st /\ vars st2 = vars st
  /\ beaconsSent st2 = beaconsSent st
  /\ flushes st2 = S (flushes st).
Proof.
  intros Hq Ht Hp. cbv zeta.
  destruct (sendBeacon_effect u st) as (_ & Q1 & T1 & F1 & W1 & N1).
  rewrite Hq, Ht in T1. simpl in T1.
  assert (V1 : vars (final (sendBeacon u st)) = vars st).
  { unfold sendBeacon.
    destruct u as [x|]; [destruct (negb (x =? EmptyString))|];
      rewrite ?bind_modify, ?bind_ret, bind_gets; simpl;
      rewrite Hq; reflexivity. }
  set (st1 := final (sendBeacon u st)) in *.
  split; [exact T1|].
  rewrite (run_tasks_step env fuel st1 _ _ T1).
  assert (Hnext : run_next env st1
                  = after_guard (with_heap (heap st1 ++ [[]]) (with_tasks [] st1))).
  { unfold run_next. rewrite T1. unfold run_task.
    assert (Ea : alloc [] (with_tasks [] st1)
                 = Normal (length (heap st1))
                     (with_heap (heap st1 ++ [[]]) (with_tasks [] st1)))
      by reflexivity.
    rewrite (bind_normal _ _ _ _ _ Ea), final_then_ret.
    unfold real_sendBeacon. rewrite bind_gets.
    change (beaconQueued (with_heap _ (with_tasks [] st1))) with (beaconQueued st1).
    rewrite Q1. cbn [negb]. cbv iota.
    rewrite !bind_modify, bind_gets.
    change (vars (count_flush (with_beaconQueued false
              (with_heap (heap st1 ++ [[]]) (with_tasks [] st1)))))
      with (vars st1).
    rewrite V1, Hp. reflexivity. }
  rewrite Hnext, run_tasks_done by reflexivity.
  simpl. unfold keep. rewrite W1, V1, N1, F1. auto 10.
Qed.

Lemma unready_flush_is_dropped_witness :
  beaconQueued configured_state = false
  /\ tasks configured_state = []
  /\ plugins_complete waiting_env (vars configured_state) = false
  /\ tasks (run_tasks waiting_env 1 (final (sendBeacon None configured_state)))
     = [].
Proof.
  assert (H1 : beaconQueued configured_state = false) by reflexivity.
  assert (H2 : tasks configured_state = []) by reflexivity.
  assert (H3 : plugins_complete waiting_env (vars configured_state) = false)
    by reflexivity.
  split; [exact H1|]. split; [exact H2|]. split; [exact H3|].
  exact (proj1 (proj2 (unready_flush_is_dropped waiting_env None 0
                         configured_state H1 H2 H3))).
Defined.

Lemma calls_from_event (e : string) (hs : list handler) :
  forall i, Forall (fun c => c_event c = e) (calls_from e i hs).
Proof.
  induction hs as [|h hs IH]; intros i; simpl; constructor; auto.
Qed.

Lemma sendBeaconData_no_destination (env : Env) (data : nat) (st : State) :
  flush_target st = EmptyString \/ beaconUrlAllowed env (flush_target st) = false ->
  sendBeaconData env data st
  = Normal false (with_beacon_url (flush_target st) st).
Proof.
  intros H. unfold sendBeaconData. rewrite bind_modify, bind_gets.
  fold (flush_target st).
  change (beacon_url (with_beacon_url (flush_target st) st))
    with (flush_target st).
  destruct (flush_target st =? EmptyString) eqn:He; [reflexivity|].
  destruct H as [H|H]; [rewrite H in He; discriminate|].
  rewrite H. reflexivity.
Qed.

(** X12. A flush with nowhere to go transmits nothing: when neither an
    override nor a beacon URL is set, or the URL is not on the allow-list,
    the network sees nothing and no [beacon] subscriber is called (the only
    subscribers called are those of [before_beacon]).  The beacon is
    counted all the same. *)
Theorem flush_without_destination (env : Env) (st : State) :
  flush_target st = EmptyString \/ beaconUrlAllowed env (flush_target st) = false ->
  let st' := final (real_sendBeacon env st) in
  wire st' = wire st
  /\ (exists new,
        calls st' = calls st ++ new
        /\ Forall (fun c => c_event c = "before_beacon") new)
  /\ beaconsSent st'
     = (beaconsSent st + (if reaches_bookkeeping env st then 1 else 0))%Z.
Proof.
  intros Hdest. cbv zeta.
  destruct (real_sendBeacon_effect env st) as (_ & _ & _ & N & _).
  split; [|split; [|exact N]].
  - destruct (real_sendBeacon_route env st) as [s' [R [E|[ref E]]]]; rewrite E;
      unfold route in R; injection R as U W O; [exact W|].
    rewrite sendBeaconData_no_destination; [exact W|].
    unfold flush_target in *. rewrite U, O. exact Hdest.
  - destruct (reaches_bookkeeping env st) eqn:Hr.
    + destruct (real_sendBeacon_stages env st Hr)
        as (s4 & ref & s5 & s6 & s7 & _ & C4 & _ & _ & _ & _ & _ & C7 & R7 & Hfin).
      exists (calls_from "before_beacon" 0 (handlers_of "before_beacon" st)).
      split; [|apply calls_from_event].
      rewrite Hfin. unfold route in R7. injection R7 as U W O.
      destruct (rate_limited env); [congruence|].
      rewrite sendBeaconData_no_destination.
      * simpl. congruence.
      * unfold flush_target in *. rewrite U, O. exact Hdest.
    + exists []. rewrite app_nil_r. split; [|constructor].
      apply (real_sendBeacon_stops env st Hr).
Qed.

Lemma flush_without_destination_witness :
  (flush_target (with_beaconQueued true init_state) = EmptyString
   \/ beaconUrlAllowed plain_env (flush_target (with_beaconQueued true init_state))
      = false)
  /\ wire (final (real_sendBeacon plain_env (with_beaconQueued true init_state)))
     = wire (with_beaconQueued true init_state).
Proof.
  assert (H : flush_target (with_beaconQueued true init_state) = EmptyString
              \/ beaconUrlAllowed plain_env
                   (flush_target (with_beaconQueued true init_state)) = false)
    by (left; reflexivity).
  split; [exact H|].
  exact (proj1 (flush_without_destination plain_env _ H)).
Defined.

(** ** Transport: the choice of a mechanism *)

(** [sendBeaconData] either stops at one of its three guards, or fires
    [beacon], serialises the snapshot and hands the result to the second
    half of the function, in a state that has the network log and the
    authorization key of the start. *)
Lemma sendBeaconData_delivery (env : Env) (data : nat) (st : State) :
  let target := flush_target st in
  if has_destination env data st
  then exists params s4,
         beacon_url s4 = effective_url env target
         /\ wire s4 = wire st
         /\ beacon_auth_key s4 = beacon_auth_key st
         /\ sendBeaconData env data st
            = deliver env (effective_url env target) (Str.join "&" params) s4
  else sendBeaconData env data st = Normal false (with_beacon_url target st).
Proof.
  cbv zeta. unfold has_destination, sendBeaconData.
  rewrite bind_modify, bind_gets.
  fold (flush_target st). set (target := flush_target st).
  set (s1 := with_beacon_url target st).
  change (beacon_url s1) with target.
  destruct (target =? EmptyString); cbn [negb andb]; [reflexivity|].
  destruct (beaconUrlAllowed env target); cbn [negb andb]; [|reflexivity].
  rewrite bind_gets. change (read_heap data s1) with (read_heap data st).
  fold (declares_empty (read_heap data st)).
  destruct (declares_empty (read_heap data st)); cbn [negb]; [reflexivity|].
  set (P := fun s : State => (beacon_url s, wire s, beacon_auth_key s)).
  destruct (returns_preserving P
              (fireEvent_with env (ret false) "beacon" (DRef data))) with (st := s1)
    as [[] [s2 [E2 R2]]].
  { apply total_fireEvent_with, total_ret. }
  { apply fireEvent_with_pres; try reflexivity. frame_step. }
  rewrite (bind_normal _ _ _ _ _ E2).
  destruct (returns_preserving P (beacon_params env data)) with (st := s2)
    as [params [s3 [E3 R3]]].
  { apply total_beacon_params. }
  { apply beacon_params_pres; reflexivity. }
  rewrite (bind_normal _ _ _ _ _ E3).
  set (s4 := if beacon_url_force_https env && prefix "//" target
             then with_beacon_url ("https:" ++ target)%string s3 else s3).
  assert (E4 : when (beacon_url_force_https env && prefix "//" target)
                    (modify (with_beacon_url ("https:" ++ target))) s3
               = Normal tt s4).
  { unfold s4. destruct (beacon_url_force_https env && prefix "//" target);
      reflexivity. }
  rewrite (bind_normal _ _ _ _ _ E4), bind_gets.
  assert (R13 : P s3 = P s1) by congruence.
  unfold P in R13. injection R13 as U3 W3 K3.
  assert (U4 : beacon_url s4 = effective_url env target).
  { unfold s4, effective_url.
    destruct (beacon_url_force_https env && prefix "//" target); auto. }
  exists params, s4. rewrite U4.
  split; [reflexivity|].
  split; [unfold s4; destruct (beacon_url_force_https env && prefix "//" target);
          exact W3|].
  split; [unfold s4; destruct (beacon_url_force_https env && prefix "//" target);
          exact K3|].
  reflexivity.
Qed.

(** What one XHR attempt puts on the wire. *)
Lemma sendXhrPostBeacon_wire (env : Env) (ctx : xhr_context) (body : string)
    (st : State) :
  let r := sendXhrPostBeacon env ctx body st in
  wire (final r)
  = wire st ++ [ViaXhr ctx (beacon_url st)
                  (match xhr_faults env ctx, beacon_auth_token env with
                   | ThrowsOnOpen, _ | _, None => None
                   | _, Some token => Some (auth_header st, token)
                   end)
                  (match xhr_faults env ctx with
                   | ThrowsOnOpen => false
                   | _ => beacon_with_credentials env
                   end)
                  body (xhr_faults env ctx)]
  /\ raised r = faulty (xhr_faults env ctx)
  /\ beacon_url (final r) = beacon_url st
  /\ auth_header (final r) = auth_header st.
Proof.
  unfold sendXhrPostBeacon, auth_header. rewrite bind_gets.
  destruct (xhr_faults env ctx) eqn:Hf; destruct (beacon_auth_token env);
    rewrite ?bind_assoc, ?bind_modify, ?bind_gets, ?bind_ret;
    destruct (beacon_auth_key st) eqn:Hk; simpl; rewrite ?Hk; auto.
Qed.

Lemma deliver_planned (env : Env) (burl pj : string) (s : State) :
  beacon_url s = burl ->
  let r := deliver env burl pj s in
  wire (final r) = wire s ++ fst (planned env (auth_header s) burl pj)
  /\ returned r = snd (planned env (auth_header s) burl pj).
Proof.
  intros Hu. cbv zeta.
  assert (Hfall : forall s' pre,
    beacon_url s' = burl -> auth_header s' = auth_header s ->
    wire s' = wire s ++ pre ->
    let fallback :=
      if prefers_image env (image_url burl pj) then
        if image_throws env then ([], Some false)
        else ([ViaImage (image_url burl pj)], Some true)
      else if faulty (xhr_faults env PrimaryWindow) then
        ([xhr_record env (auth_header s) burl (with_initiator pj) PrimaryWindow;
          xhr_record env (auth_header s) burl (with_initiator pj) BoomerangFrame],
         if faulty (xhr_faults env BoomerangFrame) then None else Some true)
      else ([xhr_record env (auth_header s) burl (with_initiator pj) PrimaryWindow],
            Some true) in
    let r := (if prefers_image env (image_url burl pj)
              then if image_throws env then ret false
                   else modify (push_wire (ViaImage (image_url burl pj)));;; ret true
              else try_catch
                     (sendXhrPostBeacon env PrimaryWindow (with_initiator pj))
                     (sendXhrPostBeacon env BoomerangFrame (with_initiator pj));;;
                   ret true) s' in
    wire (final r) = wire s ++ pre ++ fst fallback
    /\ returned r = snd fallback).
  { intros s' pre Us Hs Ws. cbv zeta.
    destruct (prefers_image env (image_url burl pj)).
    - destruct (image_throws env); simpl; unfold keep; rewrite Ws.
      + rewrite app_nil_r. auto.
      + rewrite <- app_assoc. auto.
    - unfold bind, try_catch.
      destruct (sendXhrPostBeacon_wire env PrimaryWindow (with_initiator pj) s')
        as (Wp & Rp & Up & Hp).
      fold (xhr_record env (auth_header s') (beacon_url s') (with_initiator pj)
              PrimaryWindow) in Wp.
      rewrite Us, Hs in Wp.
      destruct (sendXhrPostBeacon env PrimaryWindow (with_initiator pj) s')
        as [[] sp|sp] eqn:Ep; cbn [final raised] in Wp, Rp, Up, Hp.
      + rewrite <- Rp. simpl. rewrite Wp, Ws, <- app_assoc. auto.
      + rewrite <- Rp.
        destruct (sendXhrPostBeacon_wire env BoomerangFrame (with_initiator pj) sp)
          as (Wf & Rf & Uf & Hf).
        fold (xhr_record env (auth_header sp) (beacon_url sp) (with_initiator pj)
                BoomerangFrame) in Wf.
        rewrite Up, Us, Hp, Hs in Wf.
        destruct (sendXhrPostBeacon env BoomerangFrame (with_initiator pj) sp)
          as [[] sf|sf] eqn:Ef; cbn [final raised] in Wf, Rf;
          rewrite <- Rf; simpl; rewrite Wf, Wp, Ws, <- !app_assoc; auto. }
  unfold deliver, planned, tries_sendBeacon.
  fold (image_url burl pj). fold (prefers_image env (image_url burl pj)).
  destruct (native_sendBeacon env) as [enqueue|].
  2:{ rewrite bind_ret. cbv iota.
      apply (Hfall s []); auto. rewrite app_nil_r. reflexivity. }
  destruct (negb (beacon_type env =? "GET") &&
            match beacon_auth_token env with Some _ => false | None => true end &&
            negb (beacon_disable_sendbeacon env)).
  2:{ rewrite bind_ret. cbv iota.
      apply (Hfall s []); auto. rewrite app_nil_r. reflexivity. }
  rewrite bind_assoc, bind_modify, bind_ret. cbv zeta.
  destruct (enqueue burl (with_initiator pj ++ "&sb=1")%string) eqn:Hok.
  - simpl. auto.
  - cbv iota.
    apply (Hfall (push_wire (ViaSendBeacon burl (with_initiator pj ++ "&sb=1") false) s)
             [ViaSendBeacon burl (with_initiator pj ++ "&sb=1") false]); auto.
Qed.

(** What a call of [sendBeaconData] transmits and returns. *)
Lemma sendBeaconData_planned (env : Env) (data : nat) (st : State) :
  let r := sendBeaconData env data st in
  let burl := effective_url env (flush_target st) in
  if has_destination env data st
  then exists params,
         wire (final r)
         = wire st ++ fst (planned env (auth_header st) burl (Str.join "&" params))
         /\ returned r
            = snd (planned env (auth_header st) burl (Str.join "&" params))
  else wire (final r) = wire st /\ returned r = Some false.
Proof.
  cbv zeta. pose proof (sendBeaconData_delivery env data st) as H.
  cbv zeta in H. destruct (has_destination env data st).
  - destruct H as (params & s4 & U4 & W4 & K4 & E). exists params.
    rewrite E.
    destruct (deliver_planned env _ (Str.join "&" params) s4 U4) as [W R].
    unfold auth_header in *. rewrite K4, W4 in *. auto.
  - rewrite H. auto.
Qed.

Lemma raised_returned {A : Type} (r : result A) :
  raised r = match returned r with Some _ => false | None => true end.
Proof. destruct r; reflexivity. Qed.

Lemma with_events_same (st : State) : with_events (events st) st = st.
Proof. destruct st; reflexivity. Qed.

(* An event nobody subscribed to changes nothing but the log of DOM
   events. *)
Lemma fireEvent_with_no_handlers (env : Env) (e : string) (d : event_data)
    (s : State) :
  handlers_of (canonical e) s = [] ->
  exists s',
    fireEvent_with env (ret false) e d s = Normal tt s'
    /\ forall (X : Type) (proj : State -> X),
         (forall p st, proj (push_dom_event p st) = proj st) ->
         proj s' = proj s.
Proof.
  intros Hh. unfold fireEvent_with. rewrite bind_gets.
  set (c := canonical e) in *.
  destruct (has c (events s)) eqn:Hreg; cbn [negb].
  2:{ exists s. split; [reflexivity|auto]. }
  assert (Hget : get c (events s) = Some []).
  { unfold handlers_of in Hh. unfold has in Hreg.
    destruct (get c (events s)); [congruence|discriminate]. }
  assert (Htail : forall s0,
    events s0 = events s ->
    bind (if negb (c =? "before_beacon") && negb (c =? "beacon")
          then bind (ret false) (fun _ => ret tt) else ret tt)
      (fun _ =>
       bind (gets (handlers_of c)) (fun handlers =>
         bind (call_handlers env c d 0 handlers) (fun _ =>
           modify (fun st0 =>
             with_events
               (set c (filter (fun h => negb (once h)) (handlers_of c st0))
                    (events st0)) st0)))) s0
    = Normal tt s0).
  { intros s0 Ev.
    assert (H0 : handlers_of c s0 = [])
      by (unfold handlers_of; rewrite Ev, Hget; reflexivity).
    assert (Hset : set c [] (events s0) = events s0)
      by (apply set_same_value; rewrite Ev; exact Hget).
    destruct (negb (c =? "before_beacon") && negb (c =? "beacon"));
      rewrite ?bind_assoc, !bind_ret, bind_gets, H0; cbn [call_handlers];
      rewrite bind_ret; unfold modify; rewrite H0; cbn [filter];
      rewrite Hset, with_events_same; reflexivity. }
  destruct (get c public_events) as [p|].
  - rewrite bind_modify. exists (push_dom_event p s).
    split; [apply Htail; reflexivity|auto].
  - rewrite bind_ret. exists s. split; [apply Htail; reflexivity|auto].
Qed.

(* The payload of a snapshot that no [beacon] subscriber touches. *)
Lemma sendBeaconData_payload (env : Env) (data : nat) (st : State) :
  handlers_of "beacon" st = [] ->
  NoDup (keys (varPriority_first st)) ->
  NoDup (keys (varPriority_last st)) ->
  has_destination env data st = true ->
  let r := sendBeaconData env data st in
  let payload := payload_of env data st in
  wire (final r)
  = wire st ++ fst (planned env (auth_header st)
                      (effective_url env (flush_target st)) payload)
  /\ returned r
     = snd (planned env (auth_header st)
              (effective_url env (flush_target st)) payload).
Proof.
  intros Hh HF HL Hd. cbv zeta. unfold payload_of.
  unfold has_destination in Hd.
  apply andb_prop in Hd. destruct Hd as [Hd He].
  apply andb_prop in Hd. destruct Hd as [Ht Ha].
  unfold sendBeaconData. rewrite bind_modify, bind_gets.
  fold (flush_target st). set (target := flush_target st) in *.
  set (s1 := with_beacon_url target st).
  change (beacon_url s1) with target.
  apply negb_true_iff in Ht. rewrite Ht, Ha. cbn [negb].
  rewrite bind_gets. change (read_heap data s1) with (read_heap data st).
  fold (declares_empty (read_heap data st)).
  apply negb_true_iff in He. rewrite He.
  destruct (fireEvent_with_no_handlers env "beacon" (DRef data) s1 Hh)
    as [s2 [E2 R2]].
  rewrite (bind_normal _ _ _ _ _ E2).
  pose proof (R2 _ heap (fun _ _ => eq_refl)) as H2.
  pose proof (R2 _ varPriority_first (fun _ _ => eq_refl)) as P2.
  pose proof (R2 _ varPriority_last (fun _ _ => eq_refl)) as L2.
  pose proof (R2 _ beacon_auth_key (fun _ _ => eq_refl)) as K2.
  pose proof (R2 _ beacon_url (fun _ _ => eq_refl)) as U2.
  pose proof (R2 _ wire (fun _ _ => eq_refl)) as W2.
  change (heap s1) with (heap st) in H2.
  change (varPriority_first s1) with (varPriority_first st) in P2.
  change (varPriority_last s1) with (varPriority_last st) in L2.
  change (beacon_auth_key s1) with (beacon_auth_key st) in K2.
  change (beacon_url s1) with target in U2.
  change (wire s1) with (wire st) in W2.
  pose proof (beacon_params_ordered env s2 data) as Hp.
  rewrite P2, L2 in Hp. specialize (Hp HF HL).
  unfold read_heap in Hp at 1. rewrite H2 in Hp. fold (read_heap data st) in Hp.
  destruct (returns_preserving (fun s => (route s, beacon_auth_key s, beacon_url s))
              (beacon_params env data)) with (st := s2)
    as [params [s3 [E3 R3]]].
  { apply total_beacon_params. }
  { apply beacon_params_pres; reflexivity. }
  rewrite E3 in Hp. cbn [returned] in Hp. injection Hp as ->.
  rewrite (bind_normal _ _ _ _ _ E3).
  set (s4 := if beacon_url_force_https env && prefix "//" target
             then with_beacon_url ("https:" ++ target)%string s3 else s3).
  assert (E4 : when (beacon_url_force_https env && prefix "//" target)
                    (modify (with_beacon_url ("https:" ++ target))) s3
               = Normal tt s4).
  { unfold s4. destruct (beacon_url_force_https env && prefix "//" target);
      reflexivity. }
  rewrite (bind_normal _ _ _ _ _ E4), bind_gets.
  assert (W3 : wire s3 = wire s2)
    by (apply (f_equal (fun x => snd (fst (fst (fst x))))) in R3; exact R3).
  assert (K3 : beacon_auth_key s3 = beacon_auth_key s2)
    by (apply (f_equal (fun x => snd (fst x))) in R3; exact R3).
  assert (U3 : beacon_url s3 = beacon_url s2)
    by (apply (f_equal snd) in R3; exact R3).
  assert (U4 : beacon_url s4 = effective_url env target).
  { unfold s4, effective_url.
    destruct (beacon_url_force_https env && prefix "//" target);
      [reflexivity|]. rewrite U3, U2. reflexivity. }
  assert (W4 : wire s4 = wire st).
  { unfold s4. destruct (beacon_url_force_https env && prefix "//" target);
      simpl; unfold keep; congruence. }
  assert (K4 : auth_header s4 = auth_header st).
  { unfold auth_header, s4.
    destruct (beacon_url_force_https env && prefix "//" target);
      simpl; unfold keep; rewrite K3, K2; reflexivity. }
  rewrite U4.
  match goal with |- context [ordered_params env ?F ?L ?d] =>
    set (payload := Str.join "&" (ordered_params env F L d)) end.
  destruct (deliver_planned env (effective_url env target) payload s4 U4)
    as [W R].
  rewrite K4, W4 in *.
  exact (conj W R).
Qed.

Lemma ascii_only_app (a b : string) :
  ascii_only (a ++ b) = ascii_only a && ascii_only b.
Proof.
  induction a as [|c a IH]; simpl; [reflexivity|].
  rewrite IH. apply andb_assoc.
Qed.

Lemma ascii_only_encoded (s : string) :
  ascii_only (Str.encodeURIComponent s) = true.
Proof.
  induction s as [|c r IH]; [reflexivity|].
  rewrite encodeURIComponent_cons, ascii_only_app, IH, andb_true_r.
  each_ascii c; reflexivity.
Qed.

Lemma ascii_only_pair (env : Env) (name : string) (v : value) :
  ascii_only (getUriEncodedVar env name v) = true.
Proof.
  assert (H : exists t, getUriEncodedVar env name v
                        = (Str.encodeURIComponent name ++ "="
                           ++ Str.encodeURIComponent t)%string)
    by (destruct v as [| |[]| | |]; eexists; reflexivity).
  destruct H as [t ->].
  rewrite !ascii_only_app, !ascii_only_encoded. reflexivity.
Qed.

Lemma ascii_only_join (sep : string) (l : list string) :
  ascii_only sep = true -> Forall (fun p => ascii_only p = true) l ->
  ascii_only (Str.join sep l) = true.
Proof.
  intros Hs Hl. unfold Str.join.
  induction Hl as [|p l Hp Hl IH]; [reflexivity|].
  destruct l as [|q l]; [exact Hp|].
  change (String.concat sep (p :: q :: l))
    with (p ++ sep ++ String.concat sep (q :: l))%string.
  rewrite !ascii_only_app, Hp, Hs, IH. reflexivity.
Qed.

Lemma ascii_only_payload (env : Env) (data : nat) (st : State) :
  ascii_only (payload_of env data st) = true.
Proof.
  unfold payload_of. apply ascii_only_join; [reflexivity|].
  unfold ordered_params, priority_first, priority_last, pair_of.
  rewrite !Forall_app. repeat split; apply Forall_map, Forall_forall;
    intros x _; apply ascii_only_pair.
Qed.

(** X13. With [beacon_type] GET, or in a browser without XMLHttpRequest,
    what the transport transmits is never an XHR.  With GET, for a snapshot
    it can serialise and with nobody subscribed to [beacon], it does not
    raise and does not try [navigator.sendBeacon]: a beacon that has a
    destination is one image, whose URL is the beacon URL, the separator
    and the joined parameters, however long that is, and the call returns
    [true]; when the image cannot be built, or there is no destination,
    nothing is transmitted and the call returns [false]. *)
Theorem image_only_transport (env : Env) (data : nat) (st : State) :
  beacon_type env = "GET" \/ xhr_available env = false ->
  let r := sendBeaconData env data st in
  let url := image_url (effective_url env (flush_target st))
                       (payload_of env data st) in
  let sent := has_destination env data st && negb (image_throws env) in
  (exists new,
     wire (final r) = wire st ++ new
     /\ Forall (fun t => is_xhr t = false) new)
  /\ (beacon_type env = "GET" -> plain_delivery env data st ->
      raised r = false
      /\ returned r = Some sent
      /\ wire (final r) = wire st ++ (if sent then [ViaImage url] else [])).
Proof.
  intros H. cbv zeta. split.
  - pose proof (sendBeaconData_planned env data st) as P. cbv zeta in P.
    destruct (has_destination env data st).
    2:{ destruct P as [W R]. exists []. rewrite app_nil_r.
        split; [exact W|constructor]. }
    destruct P as (params & W & R).
    set (pj := Str.join "&" params) in *.
    set (burl := effective_url env (flush_target st)) in *.
    assert (Hp : prefers_image env (image_url burl pj) = true).
    { unfold prefers_image. destruct H as [H|H]; rewrite H; simpl.
      - destruct (negb (xhr_available env)); reflexivity.
      - reflexivity. }
    exists (fst (planned env (auth_header st) burl pj)).
    split; [exact W|]. unfold planned. rewrite Hp.
    destruct (tries_sendBeacon env) as [enq|];
      [destruct (enq burl _)|]; destruct (image_throws env); simpl;
      repeat constructor.
  - intros Hg (Hh & _ & HF & HL & _ & _). rewrite raised_returned.
    destruct (has_destination env data st) eqn:Hd.
    2:{ pose proof (sendBeaconData_planned env data st) as P. cbv zeta in P.
        rewrite Hd in P. destruct P as [W R]. rewrite R, W, app_nil_r. auto. }
    destruct (sendBeaconData_payload env data st Hh HF HL Hd) as [W R].
    rewrite R, W. unfold planned, tries_sendBeacon, prefers_image.
    rewrite Hg. simpl.
    destruct (native_sendBeacon env); destruct (negb (xhr_available env));
      destruct (image_throws env); simpl; auto.
Qed.

Lemma image_only_transport_witness :
  (beacon_type get_env = "GET" \/ xhr_available get_env = false)
  /\ exists new,
       wire (final (sendBeaconData get_env 0 (snapshot_state [("a", VNum 1)])))
       = wire (snapshot_state [("a", VNum 1)]) ++ new
       /\ Forall (fun t => is_xhr t = false) new.
Proof.
  assert (H : beacon_type get_env = "GET" \/ xhr_available get_env = false)
    by (left; reflexivity).
  split; [exact H|].
  exact (proj1 (image_only_transport get_env 0 (snapshot_state [("a", VNum 1)]) H)).
Defined.

(** X14. When an authorization token is configured, [navigator.sendBeacon]
    is never used, and every XHR that gets past [open] carries the token
    under the configured header name ([Authorization] when none is
    configured).  An image beacon, which is what AUTO uses for a short
    URL, carries no header at all. *)
Theorem auth_token_rules_out_sendBeacon
    (env : Env) (tok : string) (data : nat) (st : State) :
  beacon_auth_token env = Some tok ->
  exists new,
    wire (final (sendBeaconData env data st)) = wire st ++ new
    /\ Forall (carries_token (auth_header st) tok) new.
Proof.
  intros Ht.
  pose proof (sendBeaconData_planned env data st) as P. cbv zeta in P.
  destruct (has_destination env data st).
  2:{ destruct P as [W R]. exists []. rewrite app_nil_r.
      split; [exact W|constructor]. }
  destruct P as (params & W & R).
  eexists. split; [exact W|].
  unfold planned, tries_sendBeacon. rewrite Ht.
  rewrite andb_false_r. simpl andb.
  assert (Hx : forall ctx body,
            carries_token (auth_header st) tok
              (xhr_record env (auth_header st)
                 (effective_url env (flush_target st)) body ctx)).
  { intros ctx body. unfold xhr_record, carries_token. rewrite Ht.
    destruct (xhr_faults env ctx); auto. }
  destruct (native_sendBeacon env);
    destruct (prefers_image env _);
    try destruct (image_throws env);
    try destruct (faulty (xhr_faults env PrimaryWindow));
    cbn [fst];
    repeat first [apply Forall_nil
                 | apply Forall_cons; [first [apply Hx | exact I]|]].
Qed.

Lemma auth_token_rules_out_sendBeacon_witness :
  beacon_auth_token token_env = Some "secret"
  /\ exists new,
       wire (final (sendBeaconData token_env 0 (snapshot_state [("a", VNum 1)])))
       = wire (snapshot_state [("a", VNum 1)]) ++ new
       /\ Forall (carries_token
                    (auth_header (snapshot_state [("a", VNum 1)])) "secret") new.
Proof.
  assert (H : beacon_auth_token token_env = Some "secret") by reflexivity.
  split; [exact H|].
  exact (auth_token_rules_out_sendBeacon token_env "secret" 0
           (snapshot_state [("a", VNum 1)]) H).
Defined.

(** X15. When [navigator.sendBeacon] may be tried (it is there, the type
    is not GET, no token is configured and it is not disabled), the beacon
    has a destination, the snapshot can be serialised and nobody subscribed
    to [beacon], it is tried first, for the joined parameters with the page
    marker, followed by [&sb=1].  If the browser accepts it nothing else is
    transmitted and the call returns [true]; if not, the image or the XHR
    follows, for the same parameters and without [&sb=1]. *)
Theorem sendBeacon_api_comes_first
    (env : Env) (enqueue : string -> string -> bool) (data : nat) (st : State) :
  tries_sendBeacon env = Some enqueue ->
  has_destination env data st = true ->
  plain_delivery env data st ->
  let r := sendBeaconData env data st in
  let burl := effective_url env (flush_target st) in
  let pj := payload_of env data st in
  let body := (with_initiator pj ++ "&sb=1")%string in
  exists rest,
    wire (final r) = wire st ++ ViaSendBeacon burl body (enqueue burl body) :: rest
    /\ (enqueue burl body = true -> rest = [] /\ returned r = Some true)
    /\ Forall (falls_back burl pj) rest
    /\ (enqueue burl body = false -> image_throws env = false -> rest <> []).
Proof.
  intros Ht Hd (Hh & _ & HF & HL & _ & _). cbv zeta.
  destruct (sendBeaconData_payload env data st Hh HF HL Hd) as [W R].
  cbv zeta in W, R.
  set (pj := payload_of env data st) in *.
  set (burl := effective_url env (flush_target st)) in *.
  unfold planned in W, R. rewrite Ht in W, R. cbv zeta in W, R.
  destruct (enqueue burl (with_initiator pj ++ "&sb=1")%string) eqn:Hok.
  - exists []. split; [exact W|]. split; [auto|]. split; [constructor|].
    discriminate.
  - eexists. split; [exact W|]. split; [discriminate|].
    unfold xhr_record.
    destruct (prefers_image env (image_url burl pj));
      [destruct (image_throws env)|
       destruct (faulty (xhr_faults env PrimaryWindow))]; simpl.
    + split; [constructor|]. intros _ H. discriminate.
    + split; [repeat constructor|]. intros _ _. discriminate.
    + split; [repeat constructor|]. intros _ _. discriminate.
    + split; [repeat constructor|]. intros _ _. discriminate.
Qed.

Lemma plain_delivery_example (env : Env) :
  beacon_urls_allowed env = [] ->
  plain_delivery env 0 (snapshot_state [("a", VNum 1)]).
Proof.
  intros Ha. unfold plain_delivery.
  repeat split; try reflexivity; try exact Ha; constructor.
Defined.

Lemma sendBeacon_api_comes_first_witness :
  tries_sendBeacon sendBeacon_env = Some (fun _ _ => true)
  /\ has_destination sendBeacon_env 0 (snapshot_state [("a", VNum 1)]) = true
  /\ plain_delivery sendBeacon_env 0 (snapshot_state [("a", VNum 1)])
  /\ exists rest,
       wire (final (sendBeaconData sendBeacon_env 0
                      (snapshot_state [("a", VNum 1)])))
       = wire (snapshot_state [("a", VNum 1)])
         ++ ViaSendBeacon "http://b.example/b" "a=1&http.initiator=page&sb=1" true
            :: rest.
Proof.
  assert (H1 : tries_sendBeacon sendBeacon_env = Some (fun _ _ => true))
    by reflexivity.
  assert (H2 : has_destination sendBeacon_env 0 (snapshot_state [("a", VNum 1)])
               = true) by reflexivity.
  pose proof (plain_delivery_example sendBeacon_env eq_refl) as H3.
  split; [exact H1|]. split; [exact H2|]. split; [exact H3|].
  destruct (sendBeacon_api_comes_first sendBeacon_env (fun _ _ => true) 0
              (snapshot_state [("a", VNum 1)]) H1 H2 H3) as (rest & W & _).
  exists rest. exact W.
Defined.

(** X16. The 2000-character rule.  When the type is not GET, the browser
    has XMLHttpRequest, the beacon has a destination written in ASCII, the
    snapshot can be serialised and nobody subscribed to [beacon]: an image
    is only used for a URL of at most 2000 characters and never with POST;
    an XHR is only used when POST is asked for or the image URL would be
    longer than 2000 characters; and something is transmitted unless the
    image cannot be built.  The length that counts is that of the beacon
    URL, the separator and the joined parameters, which are ASCII, without
    the page marker that the body of the XHR may carry in addition. *)
Theorem get_length_limit (env : Env) (data : nat) (st : State) :
  beacon_type env <> "GET" -> xhr_available env = true ->
  has_destination env data st = true ->
  plain_delivery env data st ->
  ascii_only (flush_target st) = true ->
  let r := sendBeaconData env data st in
  let burl := effective_url env (flush_target st) in
  let pj := payload_of env data st in
  ascii_only (image_url burl pj) = true
  /\ exists new,
       wire (final r) = wire st ++ new
       /\ Forall (obeys_limit env burl pj) new
       /\ (image_throws env = false -> new <> []).
Proof.
  intros Hg Hx Hd (Hh & _ & HF & HL & _ & _) Hascii. cbv zeta.
  split.
  { unfold image_url, effective_url.
    destruct (beacon_url_force_https env && prefix "//" (flush_target st));
      destruct (Str.has_char "?" _);
      rewrite !ascii_only_app, Hascii, ascii_only_payload; reflexivity. }
  destruct (sendBeaconData_payload env data st Hh HF HL Hd) as [W R].
  cbv zeta in W, R.
  set (pj := payload_of env data st) in *.
  set (burl := effective_url env (flush_target st)) in *.
  eexists. split; [exact W|].
  unfold planned, prefers_image. rewrite Hx. cbn [negb].
  apply String.eqb_neq in Hg. rewrite Hg.
  assert (Himg : (beacon_type env =? "POST")
                 || (MAX_GET_LENGTH <? String.length (image_url burl pj))%nat = false ->
                 obeys_limit env burl pj (ViaImage (image_url burl pj))).
  { intros Hc. apply orb_false_elim in Hc. destruct Hc as [Hp Hl].
    apply String.eqb_neq in Hp. apply Nat.ltb_ge in Hl.
    simpl. auto. }
  assert (Hxhr : (beacon_type env =? "POST")
                 || (MAX_GET_LENGTH <? String.length (image_url burl pj))%nat = true ->
                 forall ctx,
                   obeys_limit env burl pj
                     (xhr_record env (auth_header st) burl (with_initiator pj) ctx)).
  { intros Hc ctx. apply orb_prop in Hc. simpl. split; [reflexivity|].
    destruct Hc as [Hp|Hl]; [left; apply String.eqb_eq, Hp|].
    right. apply Nat.ltb_lt, Hl. }
  destruct ((beacon_type env =? "POST")
            || (MAX_GET_LENGTH <? String.length (image_url burl pj))%nat) eqn:Hc;
    destruct (tries_sendBeacon env) as [enq|];
    try destruct (enq burl _);
    try destruct (image_throws env);
    try destruct (faulty (xhr_faults env PrimaryWindow));
    cbn [fst];
    (split;
     [repeat first [apply Forall_nil
                   | apply Forall_cons;
                     [first [apply Himg; reflexivity | apply Hxhr; reflexivity
                            | reflexivity]|]]
     |intros Hi; discriminate]).
Qed.

Lemma get_length_limit_witness :
  beacon_type post_env <> "GET" /\ xhr_available post_env = true
  /\ has_destination post_env 0 (snapshot_state [("a", VNum 1)]) = true
  /\ plain_delivery post_env 0 (snapshot_state [("a", VNum 1)])
  /\ ascii_only (flush_target (snapshot_state [("a", VNum 1)])) = true
  /\ exists new,
       wire (final (sendBeaconData post_env 0 (snapshot_state [("a", VNum 1)])))
       = wire (snapshot_state [("a", VNum 1)]) ++ new
       /\ Forall (obeys_limit post_env "http://b.example/b" "a=1") new
       /\ (image_throws post_env = false -> new <> []).
Proof.
  assert (H1 : beacon_type post_env <> "GET") by discriminate.
  assert (H2 : xhr_available post_env = true) by reflexivity.
  assert (H3 : has_destination post_env 0 (snapshot_state [("a", VNum 1)]) = true)
    by reflexivity.
  pose proof (plain_delivery_example post_env eq_refl) as H4.
  assert (H5 : ascii_only (flush_target (snapshot_state [("a", VNum 1)])) = true)
    by reflexivity.
  split; [exact H1|]. split; [exact H2|]. split; [exact H3|].
  split; [exact H4|]. split; [exact H5|].
  exact (proj2 (get_length_limit post_env 0 (snapshot_state [("a", VNum 1)])
                  H1 H2 H3 H4 H5)).
Defined.

(** ** Cookies and query strings *)









Lemma getQueryParamValue_loop_encoded (env : Env) (name : string) (l : obj value) :
  Str.encodeURIComponent name = name ->
  getQueryParamValue_loop name
    (map (fun kv => getUriEncodedVar env (fst kv)
                      (if is_undefined (snd kv) then VStr EmptyString else snd kv)) l)
  = match get name l with
    | Some v =>
        if well_formed (param_text env v) then Done (Some (param_text env v))
        else URIError
    | None => Done None
    end.
Proof.
  intros Hn.
  induction l as [|[k v] d IH]; [reflexivity|].
  cbn [map fst snd get getQueryParamValue_loop].
  rewrite getUriEncodedVar_text, split_pair. cbn [hd tl length].
  destruct (String.eqb_spec
              (Str.encodeURIComponent k ++ "="
               ++ Str.encodeURIComponent (param_text env v)) EmptyString) as [E|_].
  { exfalso. destruct (Str.encodeURIComponent k); discriminate. }
  destruct (String.eqb_spec k name) as [->|Hne].
  - rewrite Hn, String.eqb_refl.
    change (1 <? 2)%nat with true. cbv iota.
    change (Str.join "=" [Str.encodeURIComponent (param_text env v)])
      with (Str.encodeURIComponent (param_text env v)).
    destruct (encoded_free (param_text env v)) as (_ & _ & Hplus).
    rewrite plus_to_space_free by exact Hplus.
    rewrite decode_encoded.
    destruct (well_formed (param_text env v)); reflexivity.
  - destruct (String.eqb_spec (Str.encodeURIComponent k) name) as [E|_].
    { exfalso. apply Hne. apply encodeURIComponent_injective. congruence. }
    exact IH.
Qed.

Lemma get_In {A : Type} (k : string) (v : A) (o : obj A) :
  get k o = Some v -> In (k, v) o.
Proof.
  induction o as [|[k0 v0] o IH]; simpl; [discriminate|].
  destruct (String.eqb_spec k0 k) as [->|_].
  - intros H. injection H as ->. auto.
  - auto.
Qed.

Lemma serializable_get (env : Env) (d : obj value) (k : string) (v : value) :
  serializable env d = true -> get k d = Some v ->
  well_formed (param_text env v) = true /\ printable v = true.
Proof.
  unfold serializable. intros H Hg.
  apply andb_prop in H. destruct H as [_ H].
  rewrite forallb_forall in H. specialize (H _ (get_In _ _ _ Hg)).
  simpl in H. apply andb_prop in H. destruct H as [H Hp].
  apply andb_prop in H. destruct H as [_ Hw]. auto.
Qed.

(** X18. What the beacon sends can be read back.  From a location whose
    query string is made of the parameters of a snapshot that can be
    serialised, [getQueryParamValue] returns, for a name written with
    unreserved characters only, the text of the variable of that name when
    it is set, and [null] when it is not; the other parameters, whatever
    they hold and wherever [for .. in] puts them, make no difference. *)
Theorem beacon_parameter_reads_back (env : Env) (name : string) (d : obj value) :
  name <> EmptyString -> Str.encodeURIComponent name = name ->
  serializable env d = true ->
  getQueryParamValue name ("?" ++ Str.join "&" (take_all env d))
  = match get name d with
    | Some v => Done (Some (param_text env v))
    | None => Done None
    end.
Proof.
  intros Hne Hn Hs. unfold getQueryParamValue.
  apply String.eqb_neq in Hne. rewrite Hne.
  change (slice1 ("?" ++ Str.join "&" (take_all env d)))
    with (Str.join "&" (take_all env d)).
  assert (Hloop : getQueryParamValue_loop name (take_all env d)
                  = match get name d with
                    | Some v => Done (Some (param_text env v))
                    | None => Done None
                    end).
  { unfold take_all. rewrite getQueryParamValue_loop_encoded by exact Hn.
    rewrite get_for_in. destruct (get name d) as [v|] eqn:Hg; [|reflexivity].
    destruct (serializable_get env d name v Hs Hg) as [-> _]. reflexivity. }
  destruct (take_all env d) as [|p ps] eqn:Ht.
  { simpl in *. exact Hloop. }
  rewrite split_join.
  - exact Hloop.
  - discriminate.
  - rewrite <- Ht. apply Forall_forall. intros q Hin. unfold take_all in Hin.
    apply in_map_iff in Hin. destruct Hin as [[k v] [<- _]].
    cbn [fst snd]. rewrite getUriEncodedVar_text. apply pair_free.
Qed.

Lemma beacon_parameter_reads_back_witness :
  "rt.si" <> EmptyString /\ Str.encodeURIComponent "rt.si" = "rt.si"
  /\ serializable plain_env
       [("u", VStr "http://x/?a=1"); ("rt.si", VStr "id 7"); ("2", VNum 2)] = true
  /\ getQueryParamValue "rt.si" "?2=2&u=http%3A%2F%2Fx%2F%3Fa%3D1&rt.si=id%207"
     = Done (Some "id 7").
Proof.
  assert (H1 : "rt.si" <> EmptyString) by discriminate.
  assert (H2 : Str.encodeURIComponent "rt.si" = "rt.si") by reflexivity.
  assert (H3 : serializable plain_env
                 [("u", VStr "http://x/?a=1"); ("rt.si", VStr "id 7");
                  ("2", VNum 2)] = true) by reflexivity.
  split; [exact H1|]. split; [exact H2|]. split; [exact H3|].
  exact (beacon_parameter_reads_back plain_env "rt.si"
           [("u", VStr "http://x/?a=1"); ("rt.si", VStr "id 7"); ("2", VNum 2)]
           H1 H2 H3).
Defined.

(** ** [cleanupURL] with a limit, [pluginConfig] *)

Lemma length_substring (n : nat) (s : string) :
  String.length (String.substring 0 n s) = Nat.min n (String.length s).
Proof.
  revert s. induction n as [|n IH]; intros s.
  - destruct s; reflexivity.
  - destruct s as [|a r]; simpl; [reflexivity|]. rewrite IH. reflexivity.
Qed.

Lemma substring_prefix (n : nat) (s : string) :
  exists rest, s = (String.substring 0 n s ++ rest)%string.
Proof.
  revert s. induction n as [|n IH]; intros s.
  - exists s. destruct s; reflexivity.
  - destruct s as [|a r]; simpl; [exists EmptyString; reflexivity|].
    destruct (IH r) as [rest E]. exists rest. rewrite <- E. reflexivity.
Qed.

(** X19. [cleanupURL] with a limit, for a URL of ASCII characters on one
    line, returns a URL that fits the limit as it is, and otherwise a
    beginning of it followed by three dots.  The result is never longer
    than the limit plus three characters, but it can be longer than the
    limit: the URL is cut at its question mark when there is one before the
    limit, and [?...] is added to that, so a URL whose query starts just
    before the limit exceeds it by up to three characters.  When no
    question mark comes before the limit and the limit is at least 3 the
    result has exactly the length of the limit. *)
Theorem cleanupURL_limit_bound (env : Env) (url : string) (urlLimit : nat) :
  one_line url = true ->
  let cleaned := if strip_query_string env then redact_query url else url in
  let r := cleanupURL_limit env url urlLimit in
  String.length r <= urlLimit + 3
  /\ (url <> EmptyString -> String.length cleaned <= urlLimit -> r = cleaned)
  /\ (urlLimit < String.length cleaned -> url <> EmptyString ->
      exists n rest,
        cleaned = (String.substring 0 n cleaned ++ rest)%string
        /\ (r = (String.substring 0 n cleaned ++ "?...")%string
            \/ r = (String.substring 0 n cleaned ++ "...")%string))
  /\ (3 <= urlLimit -> urlLimit < String.length cleaned -> url <> EmptyString ->
      (forall q, String.index 0 "?" cleaned = Some q -> urlLimit <= q) ->
      String.length r = urlLimit)
  /\ String.length (cleanupURL_limit plain_env "ab?cdefgh" 3) = 6.
Proof.
  intros _. cbv zeta. unfold cleanupURL_limit.
  set (cleaned := if strip_query_string env then redact_query url else url).
  assert (Hcut : urlLimit < String.length cleaned ->
            String.length (String.substring 0 (urlLimit - 3) cleaned ++ "...")
            = urlLimit - 3 + 3).
  { intros H. rewrite length_sapp, length_substring. simpl. lia. }
  destruct (String.eqb_spec url EmptyString) as [->|Hne].
  { simpl. repeat match goal with |- _ /\ _ => split end;
      try congruence; try lia; reflexivity. }
  destruct (Nat.ltb_spec urlLimit (String.length cleaned)) as [Hlong|Hfit].
  2:{ repeat match goal with |- _ /\ _ => split end;
        try lia; try reflexivity; auto. }
  destruct (String.index 0 "?" cleaned) as [q|] eqn:Hq.
  - destruct (Nat.ltb_spec q urlLimit) as [Hql|Hql].
    + repeat match goal with |- _ /\ _ => split end.
      * rewrite length_sapp, length_substring. simpl. lia.
      * lia.
      * intros _ _. exists q. destruct (substring_prefix q cleaned) as [rest E].
        exists rest. auto.
      * intros _ _ _ H. specialize (H q eq_refl). lia.
      * reflexivity.
    + repeat match goal with |- _ /\ _ => split end.
      * rewrite Hcut by exact Hlong. lia.
      * lia.
      * intros _ _. exists (urlLimit - 3).
        destruct (substring_prefix (urlLimit - 3) cleaned) as [rest E].
        exists rest. auto.
      * intros H3 _ _ _. rewrite Hcut by exact Hlong. lia.
      * reflexivity.
  - repeat match goal with |- _ /\ _ => split end.
    + rewrite Hcut by exact Hlong. lia.
    + lia.
    + intros _ _. exists (urlLimit - 3).
      destruct (substring_prefix (urlLimit - 3) cleaned) as [rest E].
      exists rest. auto.
    + intros H3 _ _ _. rewrite Hcut by exact Hlong. lia.
    + reflexivity.
Qed.

Lemma cleanupURL_limit_bound_witness :
  one_line "http://a.example/p" = true
  /\ 3 <= 10 /\ 10 < String.length "http://a.example/p"
  /\ "http://a.example/p" <> EmptyString
  /\ String.length (cleanupURL_limit plain_env "http://a.example/p" 10) = 10.
Proof.
  assert (H0 : one_line "http://a.example/p" = true) by reflexivity.
  assert (H1 : 3 <= 10) by lia.
  assert (H2 : 10 < String.length "http://a.example/p") by (simpl; lia).
  assert (H3 : "http://a.example/p" <> EmptyString) by discriminate.
  split; [exact H0|]. split; [exact H1|]. split; [exact H2|]. split; [exact H3|].
  apply (proj1 (proj2 (proj2 (proj2 (cleanupURL_limit_bound plain_env
                                       "http://a.example/p" 10 H0)))) H1 H2 H3).
  intros q Hq. discriminate Hq.
Defined.



(** ** The URL fields of a beacon *)

Lemma get_delete_same {A : Type} (k : string) (o : obj A) :
  get k (delete k o) = None.
Proof.
  induction o as [|[k0 v0] o IH]; simpl; [reflexivity|].
  destruct (k0 =? k) eqn:E; [exact IH|]. simpl. rewrite E. exact IH.
Qed.

Lemma cleanupURL_result (env : Env) (url : value) (st : State) :
  (exists v, cleanupURL env url st = Normal v st)
  \/ cleanupURL env url st = Thrown st.
Proof.
  unfold cleanupURL. destruct (negb (truthy url)); [left; eexists; reflexivity|].
  destruct url; try destruct (is_array env ref);
    destruct (strip_query_string env);
    first [left; eexists; reflexivity | right; reflexivity].
Qed.

Lemma truthy_read_has (k : string) (o : obj value) :
  truthy (read k o) = true -> has k o = true.
Proof.
  unfold read, has. destruct (get k o); [reflexivity|discriminate].
Qed.

(** X21. The URL fields a flush computes.  When [url_fields] returns,
    [u] is set; [pgu] is set only if it differs from [u], and never on a
    beacon of a single-page-app navigation, where [u] is overwritten with
    the page URL; [r] is removed when there is no referrer; and no
    variable other than [pgu], [u] and [r] is touched. *)
Theorem url_fields_keep_pgu_apart (env : Env) (spa : bool) (st st' : State) :
  url_fields env spa st = Normal tt st' ->
  hasVar "u" st' = true
  /\ (hasVar "pgu" st' = true ->
      strict_eq (getVar "pgu" st') (getVar "u" st') = false)
  /\ (spa = true -> hasVar "pgu" st' = false)
  /\ (truthy (referrer env) = false -> hasVar "r" st' = false)
  /\ (forall k, k <> "pgu" -> k <> "u" -> k <> "r" ->
        get k (vars st') = get k (vars st)).
Proof.
  unfold url_fields. rewrite bind_gets.
  set (first := VStr (if spa then doc_URL env else Str.cut_at "#" (doc_URL env))).
  set (v1 := if negb (truthy (getVar "pgu" st))
             then set "pgu" first (vars st) else vars st).
  assert (E1 : when (negb (truthy (getVar "pgu" st))) (set_var "pgu" first) st
               = Normal tt (with_vars v1 st)).
  { unfold v1, when, set_var. destruct (negb (truthy (getVar "pgu" st))).
    - reflexivity.
    - destruct st; reflexivity. }
  rewrite (bind_normal _ _ _ _ _ E1), bind_gets.
  destruct (cleanupURL_result env (getVar "pgu" (with_vars v1 st)) (with_vars v1 st))
    as [[p' Ec]|Ec].
  2:{ rewrite (bind_thrown _ _ _ _ Ec). discriminate. }
  rewrite (bind_normal _ _ _ _ _ Ec).
  unfold set_var at 1. rewrite bind_modify, bind_gets.
  set (v2 := set "pgu" p' v1).
  change (vars (with_vars v1 st)) with v1. fold v2.
  change (with_vars v2 (with_vars v1 st)) with (with_vars v2 st).
  change (getVar "u" (with_vars v2 st)) with (read "u" v2).
  set (v3 := if negb (truthy (read "u" v2)) || spa then set "u" p' v2 else v2).
  assert (E3 : when (negb (truthy (read "u" v2)) || spa) (set_var "u" p')
                    (with_vars v2 st)
               = Normal tt (with_vars v3 st)).
  { unfold v3, when, set_var. destruct (negb (truthy (read "u" v2)) || spa);
      reflexivity. }
  rewrite (bind_normal _ _ _ _ _ E3), bind_gets.
  change (getVar "u" (with_vars v3 st)) with (read "u" v3).
  set (v4 := if strict_eq p' (read "u" v3) then delete "pgu" v3 else v3).
  assert (E4 : when (strict_eq p' (read "u" v3)) (delete_var "pgu")
                    (with_vars v3 st)
               = Normal tt (with_vars v4 st)).
  { unfold v4, when, delete_var. destruct (strict_eq p' (read "u" v3));
      reflexivity. }
  rewrite (bind_normal _ _ _ _ _ E4).
  assert (Hu3 : has "u" v3 = true).
  { unfold v3. destruct (negb (truthy (read "u" v2)) || spa) eqn:Hc.
    - rewrite has_set, String.eqb_refl. reflexivity.
    - apply orb_false_elim in Hc. destruct Hc as [Hc _].
      apply negb_false_iff in Hc. apply truthy_read_has, Hc. }
  assert (Hp3 : read "pgu" v3 = p').
  { unfold v3, v2. destruct (negb (truthy (read "u" (set "pgu" p' v1))) || spa);
      rewrite ?read_set; reflexivity. }
  assert (Hu4 : has "u" v4 = true /\ read "u" v4 = read "u" v3).
  { unfold v4. destruct (strict_eq p' (read "u" v3)); [|auto].
    unfold has, read. rewrite get_delete_other by discriminate.
    unfold has in Hu3. auto. }
  assert (Hp4 : has "pgu" v4 = true ->
                strict_eq p' (read "u" v3) = false /\ read "pgu" v4 = p').
  { unfold v4. destruct (strict_eq p' (read "u" v3)).
    - unfold has. rewrite get_delete_same. discriminate.
    - auto. }
  assert (Hspa : spa = true -> has "pgu" v4 = false).
  { intros ->. unfold v4, v3. rewrite orb_true_r, read_set, String.eqb_refl.
    rewrite strict_eq_refl. unfold has. rewrite get_delete_same. reflexivity. }
  assert (Hk4 : forall k, k <> "pgu" -> k <> "u" -> get k v4 = get k (vars st)).
  { intros k Hp Hu. unfold v4, v3, v2, v1.
    repeat match goal with
           | |- context [if ?b then _ else _] => destruct b
           end;
      rewrite ?get_delete_other, ?get_set_other by congruence; reflexivity. }
  assert (Hfin : forall v5,
            (forall k, k <> "r" -> get k v5 = get k v4) ->
            (truthy (referrer env) = false -> has "r" v5 = false) ->
            forall s, vars s = v5 ->
            hasVar "u" s = true
            /\ (hasVar "pgu" s = true ->
                strict_eq (getVar "pgu" s) (getVar "u" s) = false)
            /\ (spa = true -> hasVar "pgu" s = false)
            /\ (truthy (referrer env) = false -> hasVar "r" s = false)
            /\ (forall k, k <> "pgu" -> k <> "u" -> k <> "r" ->
                  get k (vars s) = get k (vars st))).
  { intros v5 Hk Hr s Hs. unfold hasVar, getVar, has, read. rewrite Hs.
    rewrite !Hk by discriminate.
    destruct Hu4 as [Hu4 Ru4]. unfold has, read in Hu4, Ru4, Hp4, Hspa.
    split; [exact Hu4|]. split.
    - intros H. destruct (Hp4 H) as [Hne Hp]. rewrite Hp, Ru4. exact Hne.
    - split; [exact Hspa|]. split.
      + intros H. apply Hr in H. unfold has in H. exact H.
      + intros k Hp Hu Hrr. rewrite Hk by exact Hrr. apply Hk4; assumption. }
  destruct (truthy (referrer env)) eqn:Hr.
  - destruct (cleanupURL_result env (referrer env) (with_vars v4 st))
      as [[r' Er]|Er].
    2:{ rewrite (bind_thrown _ _ _ _ Er). discriminate. }
    rewrite (bind_normal _ _ _ _ _ Er). unfold set_var, modify.
    intros H. injection H as <-.
    apply (Hfin (set "r" r' v4)); [|discriminate|reflexivity].
    intros k Hk. apply get_set_other. congruence.
  - unfold delete_var, modify. intros H. injection H as <-.
    apply (Hfin (delete "r" v4)); [| |reflexivity].
    + intros k Hk. apply get_delete_other. congruence.
    + intros _. unfold has. rewrite get_delete_same. reflexivity.
Qed.

Lemma url_fields_keep_pgu_apart_witness :
  url_fields plain_env false init_state
  = Normal tt (final (url_fields plain_env false init_state))
  /\ hasVar "u" (final (url_fields plain_env false init_state)) = true.
Proof.
  assert (H : url_fields plain_env false init_state
              = Normal tt (final (url_fields plain_env false init_state)))
    by reflexivity.
  split; [exact H|].
  exact (proj1 (url_fields_keep_pgu_apart plain_env false init_state _ H)).
Defined.

(** ** [hashQueryString] *)

Lemma cut_from (c : ascii) (s : string) :
  (Str.cut_at c s ++ from_char c s)%string = s.
Proof.
  induction s as [|a r IH]; simpl; [reflexivity|].
  destruct (Ascii.eqb a c); simpl; [reflexivity|]. rewrite IH. reflexivity.
Qed.

Lemma hash_query_parts (md5 : string -> string) (url : string) :
  hash_query md5 url
  = if Str.has_char "?" url
    then (Str.cut_at "?" url ++ "?"
          ++ (if (10 <? String.length (query_of url))%nat
              then md5 (query_of url) else query_of url)
          ++ from_char "#" (slice1 (from_char "?" url)))%string
    else url.
Proof.
  unfold query_of. induction url as [|a r IH]; simpl; [reflexivity|].
  destruct (Ascii.eqb a "?") eqn:E; simpl; [reflexivity|].
  rewrite IH. destruct (Str.has_char "?" r); reflexivity.
Qed.

Lemma from_char_head (c : ascii) (s : string) :
  Str.has_char c s = true -> from_char c s = String c (slice1 (from_char c s)).
Proof.
  induction s as [|a r IH]; simpl; [discriminate|].
  destruct (Ascii.eqb_spec a c) as [->|_]; simpl; [reflexivity|exact IH].
Qed.

Lemma whole_url (url : string) :
  Str.has_char "?" url = true ->
  (Str.cut_at "?" url ++ "?" ++ query_of url
   ++ from_char "#" (slice1 (from_char "?" url)))%string = url.
Proof.
  unfold query_of. intros H. rewrite cut_from.
  change ("?" ++ slice1 (from_char "?" url))%string
    with (String "?" (slice1 (from_char "?" url))).
  rewrite <- from_char_head by exact H. apply cut_from.
Qed.

(** X22. [hashQueryString], for a URL of ASCII characters, replaces the
    query of the URL, the text between its first question mark and the
    next [#], by its MD5 hash, and keeps what is before and after it.  A
    query of ten characters or fewer is not hashed: the URL comes back as
    it is, query included.  Without the MD5 function the URL also comes
    back as it is, and a URL whose scheme is not http, https or file gives
    the empty string. *)
Theorem hashQueryString_keeps_short_queries
    (protocol : string) (md5 : string -> string) (url : string) :
  url <> EmptyString -> String.prefix "//" url = false ->
  ascii_only url = true ->
  (known_scheme url = true ->
   hashQueryString protocol (Some md5) url false
   = (if Str.has_char "?" url
      then (Str.cut_at "?" url ++ "?"
            ++ (if (10 <? String.length (query_of url))%nat
                then md5 (query_of url) else query_of url)
            ++ from_char "#" (slice1 (from_char "?" url)))%string
      else url)
   /\ (String.length (query_of url) <= 10 ->
       hashQueryString protocol (Some md5) url false = url)
   /\ hashQueryString protocol None url false = url)
  /\ (known_scheme url = false ->
      forall h strip, hashQueryString protocol h url strip = EmptyString).
Proof.
  intros Hne Hrel _. apply String.eqb_neq in Hne.
  unfold hashQueryString. rewrite Hne, Hrel. split.
  - intros Hk. rewrite Hk. cbn [negb]. rewrite hash_query_parts.
    split; [reflexivity|]. split; [|reflexivity].
    intros Hshort. destruct (Str.has_char "?" url) eqn:Hq; [|reflexivity].
    destruct (Nat.ltb_spec 10 (String.length (query_of url))); [lia|].
    apply whole_url, Hq.
  - intros Hk h strip. rewrite Hk. reflexivity.
Qed.

Lemma hashQueryString_keeps_short_queries_witness :
  "http://x/p?id=42#top" <> EmptyString
  /\ String.prefix "//" "http://x/p?id=42#top" = false
  /\ ascii_only "http://x/p?id=42#top" = true
  /\ hashQueryString "http:" (Some (fun _ => "0123456789abcdef"))
       "http://x/p?id=42#top" false
     = "http://x/p?id=42#top".
Proof.
  assert (H1 : "http://x/p?id=42#top" <> EmptyString) by discriminate.
  assert (H2 : String.prefix "//" "http://x/p?id=42#top" = false) by reflexivity.
  assert (H3 : ascii_only "http://x/p?id=42#top" = true) by reflexivity.
  split; [exact H1|]. split; [exact H2|]. split; [exact H3|].
  destruct (proj1 (hashQueryString_keeps_short_queries "http:"
                     (fun _ => "0123456789abcdef") "http://x/p?id=42#top"
                     H1 H2 H3)
              eq_refl) as [_ [Hshort _]].
  apply Hshort. simpl. lia.
Defined.

(** ** Dynamic requests *)

Section SubscribeFrame.

Context {X : Type} (proj : State -> X).
Hypothesis proj_events : forall e st, proj (with_events e st) = proj st.
Hypothesis proj_heap : forall h st, proj (with_heap h st) = proj st.
Hypothesis proj_task : forall t st, proj (push_task t st) = proj st.
Hypothesis proj_listener : forall l st, proj (push_listener l st) = proj st.

Lemma subscribe_pres env e f d s o : preserves proj (subscribe env e f d s o).
Proof.
  unfold subscribe, setImmediate.
  frame_step; [frame_step|]. frame_step; [frame_step|].
  frame_step; [frame_step|].
  frame_step.
  { frame_step; [frame_step|]. frame_step; [|frame_step].
    intros st. simpl. apply proj_heap. }
  frame_step; [apply preserves_modify; intros st; apply proj_events|].
  frame_step.
  { frame_step; [apply preserves_modify; intros st; apply proj_task|frame_step]. }
  frame_step; [|frame_step].
  frame_step.
  - frame_step; [apply preserves_modify; intros st; apply proj_listener|frame_step].
  - apply preserves_modify; intros st; apply proj_listener.
Qed.

End SubscribeFrame.

Lemma total_subscribe env e f d s o : total (subscribe env e f d s o).
Proof.
  unfold subscribe, setImmediate.
  repeat first [total_step | apply total_alloc].
Qed.

(** X23. A dynamic request that ends before the page-load beacon waits
    for it.  Called while no page-load beacon has been sent and for an
    initiator that is not a single-page-app navigation, [responseEnd]
    transmits nothing, changes no variable and calls nobody: if a plugin
    is not ready to send it changes nothing at all (a timer calls it
    again), otherwise it adds one [once] subscriber, the function that
    calls it again, to [page_load_beacon], after those already there. *)
Theorem responseEnd_waits_for_page_load
    (env : Env) (answer : string -> option value) (retry boomr : nat)
    (name : request) (st : State) :
  hasSentPageLoadBeacon st = false ->
  inArray (initiator_of name) BEACON_TYPE_SPAS = false ->
  shadowed (events st) = false ->
  Forall (fun h => truthy (cb_data h) = true) (handlers_of "page_load_beacon" st) ->
  let r := responseEnd env answer retry boomr name st in
  let old := handlers_of "page_load_beacon" st in
  let waiting := {| fn := retry; cb_data := VObj (length (heap st));
                    scope := VObj boomr; once := true |} in
  (readyToSend env answer = false -> r = Normal RetryLater st)
  /\ (readyToSend env answer = true ->
      returned r = Some AwaitsPageLoad
      /\ wire (final r) = wire st /\ vars (final r) = vars st
      /\ calls (final r) = calls st
      /\ beaconQueued (final r) = beaconQueued st
      /\ hasSentPageLoadBeacon (final r) = false
      /\ handlers_of "page_load_beacon" (final r) = old ++ [waiting]).
Proof.
  intros Hl Hi _ Hall. cbv zeta. unfold responseEnd. split.
  - intros Hr. rewrite Hr. reflexivity.
  - intros Hr. rewrite Hr. cbn [negb]. rewrite bind_gets, Hl, Hi. cbn [negb andb].
    set (sub := subscribe env "page_load_beacon" retry VNull (VObj boomr) (VBool true)).
    pose proof (subscribe_without_data_appends env "page_load_beacon" retry
                  VNull (VObj boomr) (VBool true) st eq_refl Hall) as Hh.
    change (canonical "page_load_beacon") with "page_load_beacon" in Hh.
    fold sub in Hh.
    pose proof (subscribe_pres
                  (fun s => (wire s, vars s, calls s, beaconQueued s,
                             hasSentPageLoadBeacon s))
                  (fun _ _ => eq_refl) (fun _ _ => eq_refl)
                  (fun _ _ => eq_refl) (fun _ _ => eq_refl)
                  env "page_load_beacon" retry VNull (VObj boomr) (VBool true) st)
      as Hp.
    fold sub in Hp.
    assert (Hn : raised (sub st) = false) by apply total_subscribe.
    destruct (sub st) as [[] s1|s1] eqn:Es; [|discriminate].
    rewrite (bind_normal _ _ _ _ _ Es). cbn [final returned ret] in *.
    injection Hp as W V C Q L.
    repeat match goal with |- _ /\ _ => split end; auto. congruence.
Qed.

Lemma responseEnd_waits_for_page_load_witness :
  hasSentPageLoadBeacon init_state = false
  /\ inArray (initiator_of (Named "search")) BEACON_TYPE_SPAS = false
  /\ shadowed (events init_state) = false
  /\ Forall (fun h => truthy (cb_data h) = true)
            (handlers_of "page_load_beacon" init_state)
  /\ readyToSend plain_env (fun _ => None) = true
  /\ returned (responseEnd plain_env (fun _ => None) 4 0 (Named "search")
                 init_state) = Some AwaitsPageLoad.
Proof.
  assert (H1 : hasSentPageLoadBeacon init_state = false) by reflexivity.
  assert (H2 : inArray (initiator_of (Named "search")) BEACON_TYPE_SPAS = false)
    by reflexivity.
  assert (H3 : shadowed (events init_state) = false) by reflexivity.
  assert (H4 : Forall (fun h => truthy (cb_data h) = true)
                 (handlers_of "page_load_beacon" init_state))
    by (simpl; constructor).
  assert (H5 : readyToSend plain_env (fun _ => None) = true) by reflexivity.
  split; [exact H1|]. split; [exact H2|]. split; [exact H3|]. split; [exact H4|].
  split; [exact H5|].
  exact (proj1 (proj2 (responseEnd_waits_for_page_load plain_env (fun _ => None)
                         4 0 (Named "search") init_state H1 H2 H3 H4) H5)).
Defined.

(** X24. A subscriber of [page_ready] that arrives after the page has
    loaded is called back soon: when the triple is not yet subscribed,
    [subscribe] registers it and hands one call to [setImmediate]; run, that
    call invokes the function once, with the scope given ([null] when none)
    and with the callback data given; when none is given the subscriber is
    stored with a new object and the call is made with another new object.
    The queue is empty again afterwards. *)
Theorem late_page_ready_subscriber
    (env : Env) (f : nat) (d s o : value) (st : State) :
  onloadfired env = true -> autorun env = true -> tasks st = [] ->
  shadowed (events st) = false ->
  subscribed f d s (handlers_of "page_ready" st) = false ->
  let st1 := final (subscribe env "page_ready" f d s o st) in
  let st2 := run_tasks env 1 st1 in
  tasks st1 = [TaskCallback f VNull d s]
  /\ handlers_of "page_ready" st1
     = handlers_of "page_ready" st
       ++ [{| fn := f;
              cb_data := if truthy d then d else VObj (length (heap st));
              scope := or_else s VNull; once := truthy o |}]
  /\ tasks st2 = []
  /\ calls st2
     = calls st
       ++ [{| c_event := "setImmediate"; c_index := 0; c_fn := f;
              c_scope := or_else s VNull;
              c_cb_data := if truthy d then d
                           else VObj (S (length (heap st))) |}].
Proof.
  intros Hon Hauto Ht _ Hsub. cbv zeta.
  unfold subscribe. change (canonical "page_ready") with "page_ready".
  rewrite bind_modify, bind_gets.
  set (sa := if has "page_ready" (events st) then st
             else with_events (set "page_ready" [] (events st)) st).
  assert (Hsa : handlers_of "page_ready" sa = handlers_of "page_ready" st).
  { unfold sa, handlers_of, has.
    destruct (get "page_ready" (events st)) eqn:Hg; simpl;
      rewrite ?Hg, ?get_set_same; reflexivity. }
  assert (Fsa : (tasks sa, calls sa, heap sa) = (tasks st, calls st, heap st)).
  { unfold sa. destruct (has "page_ready" (events st)); reflexivity. }
  injection Fsa as Tsa Csa Gsa.
  unfold subscribed in Hsub. rewrite Hsa, Hsub.
  set (stored := if truthy d then d else VObj (length (heap sa))).
  set (sb := if truthy d then sa else with_heap (heap sa ++ [[]]) sa).
  assert (Es : (if truthy d then ret d else r <- alloc [];; ret (VObj r)) sa
               = Normal stored sb).
  { unfold stored, sb. destruct (truthy d); reflexivity. }
  rewrite (bind_normal _ _ _ _ _ Es), bind_modify.
  assert (Fsb : (tasks sb, calls sb, events sb, heap sb)
                = (tasks sa, calls sa, events sa,
                   if truthy d then heap sa else heap sa ++ [[]])).
  { unfold sb. destruct (truthy d); reflexivity. }
  injection Fsb as Tsb Csb Vsb Hsb.
  change (("page_ready" =? "page_ready") && onloadfired env && autorun env)
    with (onloadfired env && autorun env).
  rewrite Hon, Hauto. cbn [andb]. cbv iota.
  unfold setImmediate. rewrite bind_modify.
  change ("page_ready" =? "page_unload") with false.
  change ("page_ready" =? "before_unload") with false. cbn [orb]. cbv iota.
  set (h := {| fn := f; cb_data := stored; scope := or_else s VNull;
               once := truthy o |}).
  set (s1 := push_task (TaskCallback f VNull d s)
               (with_events (set "page_ready" (handlers_of "page_ready" sb ++ [h])
                               (events sb)) sb)).
  cbn [final ret].
  assert (T1 : tasks s1 = [TaskCallback f VNull d s]).
  { unfold s1. simpl. unfold keep. rewrite Tsb, Tsa, Ht. reflexivity. }
  assert (C1 : calls s1 = calls st).
  { unfold s1. simpl. unfold keep. congruence. }
  assert (G1 : heap s1 = if truthy d then heap st else heap st ++ [[]]).
  { unfold s1. simpl. unfold keep. rewrite Hsb, Gsa. reflexivity. }
  split; [exact T1|]. split.
  { unfold s1, handlers_of at 1. simpl. unfold keep. rewrite get_set_same.
    f_equal.
    - unfold handlers_of. rewrite Vsb. fold (handlers_of "page_ready" sa).
      exact Hsa.
    - unfold h, stored. rewrite Gsa. reflexivity. }
  rewrite (run_tasks_step env 0 s1 _ _ T1). cbn [run_tasks].
  unfold run_next. rewrite T1. unfold run_task.
  set (s1' := with_tasks [] s1).
  set (data := if truthy d then d else VObj (length (heap s1'))).
  set (s2 := if truthy d then s1' else with_heap (heap s1' ++ [[]]) s1').
  assert (Ed : (if truthy d then ret d else r <- alloc [];; ret (VObj r)) s1'
               = Normal data s2).
  { unfold data, s2. destruct (truthy d); reflexivity. }
  rewrite (bind_normal _ _ _ _ _ Ed), bind_modify.
  assert (F2 : (tasks s2, calls s2) = ([], calls st)).
  { unfold s2, s1'. destruct (truthy d);
      (apply f_equal2; [reflexivity|exact C1]). }
  injection F2 as T2 C2.
  assert (Hdata : data = if truthy d then d else VObj (S (length (heap st)))).
  { unfold data, s1'. change (heap (with_tasks [] s1)) with (heap s1).
    rewrite G1. destruct (truthy d); [reflexivity|].
    rewrite length_app, Nat.add_1_r. reflexivity. }
  split.
  - destruct (snd (callback env f (or_else s VNull) data [])); simpl; exact T2.
  - rewrite <- Hdata.
    destruct (snd (callback env f (or_else s VNull) data [])); simpl;
      unfold keep; rewrite C2; reflexivity.
Qed.

Lemma late_page_ready_subscriber_witness :
  onloadfired (after_onload plain_env) = true
  /\ autorun (after_onload plain_env) = true
  /\ tasks init_state = []
  /\ shadowed (events init_state) = false
  /\ subscribed 5 VUndefined VNull (handlers_of "page_ready" init_state) = false
  /\ map c_cb_data
       (calls (run_tasks (after_onload plain_env) 1
                 (final (subscribe (after_onload plain_env) "page_ready" 5
                           VUndefined VNull VUndefined init_state))))
     = [VObj 1].
Proof.
  assert (H1 : onloadfired (after_onload plain_env) = true) by reflexivity.
  assert (H2 : autorun (after_onload plain_env) = true) by reflexivity.
  assert (H3 : tasks init_state = []) by reflexivity.
  assert (H4 : shadowed (events init_state) = false) by reflexivity.
  assert (H5 : subscribed 5 VUndefined VNull
                 (handlers_of "page_ready" init_state) = false) by reflexivity.
  split; [exact H1|]. split; [exact H2|]. split; [exact H3|]. split; [exact H4|].
  split; [exact H5|].
  rewrite (proj2 (proj2 (proj2 (late_page_ready_subscriber (after_onload plain_env)
                                  5 VUndefined VNull VUndefined init_state
                                  H1 H2 H3 H4 H5)))).
  reflexivity.
Defined.

(** ** The error tally *)








(** ** A flush from end to end *)





(** ** The snapshot after the flush *)





